(** * GoMirror: the crawl engine of [src/scanner.go] and [src/sources.go]

    A shallow embedding of the resource registry ([Sources]), of the
    scanner's run-level state machine ([Scanner.Start]) and of the
    per-resource task ([Scanner.scan]) with its helpers ([waitRepeat],
    [isParentPath], [parseSrcset], [IsInterstingProtocol], [parseURL]).

    Go strings are byte sequences and are modelled by [string]; Go's [int]
    is the 64-bit two's-complement integer of the amd64 build and is
    modelled by [Z] with the wrap-around of [++] written out.  Functions of
    the Go standard library ([net/url], [strings.ToLower], [path/filepath],
    [mime], [net/http], [html]) are parameters of the sections below. *)

From Stdlib Require Import ZArith List String Ascii Lia Bool.
From stdpp Require Import base gmap strings list.
Import ListNotations.

(** ** Go's [int] *)

Definition int_min : Z := - 2 ^ 63.
Definition int_max : Z := 2 ^ 63 - 1.

(** The value stored by an [int] operation whose mathematical result is [z]. *)
Definition int_wrap (z : Z) : Z := ((z + 2 ^ 63) mod 2 ^ 64 - 2 ^ 63)%Z.

(** [x++] on an [int]. *)
Definition int_incr (x : Z) : Z := int_wrap (x + 1).

(** ** The [strings] package, for the calls the scanner makes *)

(** [strings.Split(s, sep)] for a separator of one byte: the pieces between
    the occurrences of [sep], always at least one piece. *)
Fixpoint strings_Split (s : string) (sep : ascii) : list string :=
  match s with
  | EmptyString => [EmptyString]
  | String c rest =>
      if Ascii.eqb c sep then EmptyString :: strings_Split rest sep
      else match strings_Split rest sep with
           | [] => [String c EmptyString]
           | piece :: pieces => String c piece :: pieces
           end
  end.

(** [strings.Index(s, substr)]: the byte offset of the first occurrence,
    or -1. *)
Definition strings_Index (s substr : string) : Z :=
  match String.index 0 substr s with
  | Some i => Z.of_nat i
  | None => (-1)%Z
  end.

(** [strings.Contains(s, substr)]. *)
Definition strings_Contains (s substr : string) : bool :=
  (0 <=? strings_Index s substr)%Z.

(** [len(s)] of a Go string, in bytes. *)
Definition len (s : string) : Z := Z.of_nat (String.length s).

(** ** [net/url.URL]

    The fields of [url.URL] the crawl engine reads or assigns. *)
Record URL := mkURL {
  Scheme : string;
  Opaque : string;
  Host : string;
  Path : string;
  RawQuery : string;
  Fragment : string
}.

(** [u.IsAbs()] *)
Definition IsAbs (u : URL) : bool := negb (String.eqb (Scheme u) "").

(** The [error] values the engine creates or receives.  Only their being
    [nil] or not is ever tested; each constructor stands for the message or
    the library error named beside it. *)
Inductive error :=
| ErrRunning (v : string)   (* Start: the scanner is running, in mode v *)
| ErrTooShort               (* parseURL: the address is too short *)
| ErrAmbiguous              (* parseURL: the URL could not be read unambiguously *)
| ErrUrlParse (text : string) (* the error of url.Parse(text) *)
| ErrTooLong                (* scan: the link is too long *)
| ErrTransport              (* the error of http.Get *)
| ErrStatus (code : Z)      (* fmt.Errorf(resp.Status) *)
| ErrReadAll                (* the error of ioutil.ReadAll *)
| ErrHtmlParse              (* the error of html.Parse *)
| ErrPathEmpty              (* isParentPath: empty component sequence *)
| ErrPathShorter            (* isParentPath: the child path is shorter than the parent *)
| ErrPathOutside            (* isParentPath: the file is not in the parent directory *)
| ErrMkdirAll               (* the error of os.MkdirAll *)
| ErrWriteFile.             (* the error of os.WriteFile *)

(** ** sources.go *)

Inductive SourceState :=
| SourceWait
| SourceRequest
| SourceRequestWaitRepeat
| SourceRequestError
| SourceDownload
| SourceDownloadError
| SourceRead
| SourceSave
| SourceSaveError
| SourceComplete
| SourceSkip.

Module Source.
Record t := mk {
  url : URL;
  state : SourceState;
  mime : string;
  size : Z;
  isExternal : bool;
  isInteresting : bool;
  err : option error;
  errRead : option error;
  repeats : Z
}.

Definition set_state (st : SourceState) (o : t) : t :=
  mk (url o) st (mime o) (size o) (isExternal o) (isInteresting o)
     (err o) (errRead o) (repeats o).

Definition set_mime (v : string) (o : t) : t :=
  mk (url o) (state o) v (size o) (isExternal o) (isInteresting o)
     (err o) (errRead o) (repeats o).

Definition set_size (v : Z) (o : t) : t :=
  mk (url o) (state o) (mime o) v (isExternal o) (isInteresting o)
     (err o) (errRead o) (repeats o).

Definition set_err (e : error) (o : t) : t :=
  mk (url o) (state o) (mime o) (size o) (isExternal o) (isInteresting o)
     (Some e) (errRead o) (repeats o).

Definition set_errRead (e : error) (o : t) : t :=
  mk (url o) (state o) (mime o) (size o) (isExternal o) (isInteresting o)
     (err o) (Some e) (repeats o).

Definition set_repeats (v : Z) (o : t) : t :=
  mk (url o) (state o) (mime o) (size o) (isExternal o) (isInteresting o)
     (err o) (errRead o) v.
End Source.

(** A [*Source] is an address in the store of allocated resources; a new
    resource is allocated at the end of the store. *)
Abbreviation ptr := nat (only parsing).
Abbreviation Heap := (list Source.t).

Module Sources.
Record t := mk {
  m : gmap string ptr;
  a : list ptr
}.
End Sources.

(** [newSources] *)
Definition newSources : Sources.t := Sources.mk ∅ [].

(** [Scanner.IsInterstingProtocol] *)
Definition IsInterstingProtocol (u : URL) : bool :=
  if String.eqb (Scheme u) "http" then true
  else if String.eqb (Scheme u) "https" then true
  else if String.eqb (Scheme u) "file" then true
  else false.

Section Registry.
(** [url.URL.String] and [url.URL.Hostname] of the standard library. *)
Variable url_String : URL -> string.
Variable url_Hostname : URL -> string.

(** The seed URL of the owning scanner, [s.p.url]. *)
Variable seed : URL.

(** [Sources.Add], run under the registry lock: the store and the registry
    after the call, the returned reference and the flag. *)
Definition Add (h : Heap) (s : Sources.t) (url : URL)
  : Heap * Sources.t * (ptr * bool) :=
  let key := url_String url in
  match Sources.m s !! key with
  | Some v => (h, s, (v, false))
  | None =>
      let obj := Source.mk url SourceWait "" 0%Z
                   (negb (String.eqb (url_Hostname seed) (url_Hostname url)))
                   (IsInterstingProtocol url)
                   None None 0%Z in
      let p := length h in
      (h ++ [obj],
       Sources.mk (<[key := p]> (Sources.m s)) (Sources.a s ++ [p]),
       (p, true))
  end.

(** [Sources.List]: a copy of the slice of references. *)
Definition Sources_List (s : Sources.t) : list ptr := Sources.a s.

(** A sequence of registration attempts, each atomic under the lock. *)
Fixpoint AddAll (h : Heap) (s : Sources.t) (urls : list URL)
  : Heap * Sources.t * list (ptr * bool) :=
  match urls with
  | [] => (h, s, [])
  | u :: us =>
      let '(h1, s1, r) := Add h s u in
      let '(h2, s2, rs) := AddAll h1 s1 us in
      (h2, s2, r :: rs)
  end.

(** The URL string of the resource stored at an address. *)
Definition key_at (h : Heap) (p : ptr) : option string :=
  (fun o => url_String (Source.url o)) <$> h !! p.

(** The registry invariant: the map sends a URL string to an allocated
    resource with that URL string, and the slice lists exactly the
    resources of the map, once each. *)
Record registry_ok (h : Heap) (s : Sources.t) : Prop := {
  ok_key : forall k p, Sources.m s !! k = Some p -> key_at h p = Some k;
  ok_listed : forall p, p ∈ Sources.a s <-> exists k, Sources.m s !! k = Some p;
  ok_nodup : NoDup (Sources.a s)
}.
End Registry.

(** ** scanner.go: the run-level state machine *)

Inductive ScannerState :=
| ScannerReady
| ScannerIncorrectURL
| ScannerPreparing
| ScannerOutputDirExist
| ScannerOutputDirError
| ScannerScanning
| ScannerComplete.

(** [ScannerState.String] *)
Definition ScannerState_String (v : ScannerState) : string :=
  match v with
  | ScannerReady => "Готов"
  | ScannerPreparing => "Подготовка"
  | ScannerIncorrectURL => "Ошибка: Некорректный URL"
  | ScannerOutputDirExist => "Ошибка: Папка для этого сайта уже существует"
  | ScannerOutputDirError =>
      "Ошибка: Не удалось создать папку для сохранения сайта"
  | ScannerScanning => "Сканирование"
  | ScannerComplete => "Сканирование завершено"
  end.

Module ScannerParams.
Record t := mk {
  URL : string;
  ReplaceOutDir : bool;
  RepeatsMax : Z
}.
End ScannerParams.

(** A buffered channel [chan int8]: its capacity and the values queued. *)
Module Chan.
Record t := mk {
  cap : nat;
  buf : list Z
}.
End Chan.

Module Scanner.
Record t := mk {
  params : ScannerParams.t;
  state : ScannerState;
  limiter : option Chan.t;
  sources : option Sources.t;
  url : option URL;
  home : string;
  dir : string;
  dateStart : Z;
  dateScan : Z;
  dateFinish : Z;
  err : option error;
  threads : Z
}.
End Scanner.

(** [NewScanner]: every field at its zero value. *)
Definition NewScanner : Scanner.t :=
  Scanner.mk (ScannerParams.mk "" false 0) ScannerReady None None None
             "" "" 0 0 0 None 0.

Section Run.
(** The constant [PARALLEL_REQUESTS_MAX]; its declaration is not in
    scanner.go. *)
Variable PARALLEL_REQUESTS_MAX : nat.

(** [Scanner.reset]; [home] is the one field it keeps. *)
Definition reset (s : Scanner.t) : Scanner.t :=
  Scanner.mk (ScannerParams.mk "" false 0)
             ScannerReady
             (Some (Chan.mk PARALLEL_REQUESTS_MAX []))
             (Some newSources)
             None
             (Scanner.home s)
             ""
             0 0 0
             None
             0.

(** [Scanner.Start], up to the launch of the preparation goroutine: the
    scanner after the call and the returned error.  [now] is [time.Now()]. *)
Definition Start (now : Z) (params : ScannerParams.t) (s : Scanner.t)
  : Scanner.t * option error :=
  match Scanner.state s with
  | ScannerReady | ScannerOutputDirExist | ScannerIncorrectURL
  | ScannerComplete =>
      let r := reset s in
      (Scanner.mk params ScannerPreparing (Scanner.limiter r)
                  (Scanner.sources r) (Scanner.url r) (Scanner.home r)
                  (Scanner.dir r) now (Scanner.dateScan r)
                  (Scanner.dateFinish r) (Scanner.err r) (Scanner.threads r),
       None)
  | _ =>
      let v := ScannerState_String (Scanner.state s) in
      (s, Some (ErrRunning v))
  end.
End Run.

(** ** scanner.go: helpers of the per-resource task *)

(** Lines written to the log sink, by the place that writes them. *)
Inductive LogLine :=
| LogTooLong              (* skip: the link is too long *)
| LogNewLink              (* new link *)
| LogNotInteresting       (* skip: not interesting *)
| LogExternal             (* skip: external *)
| LogRequestExhausted     (* skip: request attempts exhausted *)
| LogStatus (code : Z)    (* skip: resp.Status *)
| LogDownloadExhausted    (* skip: body download attempts exhausted *)
| LogPaths (p c : list string)   (* isParentPath: log.Println(p, c) *)
| LogBadPath              (* skip: incorrect path for saving the file *)
| LogMkdirFailed          (* skip: could not create the path *)
| LogWriteFailed          (* skip: could not save the file *)
| LogSrcError             (* parseSrc: url.Parse failed *)
| LogSrcsetError (i : nat). (* parseSrcset: url.Parse failed on entry i *)

(** What a task does to the world outside its own variables, in program
    order. *)
Inductive Event :=
| EvThreads (delta : Z)        (* s.threads++ or s.threads-- *)
| EvDone                       (* s.workers.Done() *)
| EvAdd (key : string) (p : ptr) (created : bool)  (* s.sources.Add(url) *)
| EvState (st : SourceState)   (* obj.state = st *)
| EvLog (l : LogLine)
| EvAcquire                    (* s.limiter <- 0 *)
| EvRelease                    (* <-s.limiter *)
| EvGet (u : string)           (* http.Get(u) *)
| EvReadAll                    (* ioutil.ReadAll(resp.Body) *)
| EvSleep (d : Z)              (* time.Sleep(d) *)
| EvSpawn (u : URL)            (* s.workers.Add(1); go s.scan(u) *)
| EvMkdirAll (path : string)   (* os.MkdirAll(path, 0777) *)
| EvWriteFile (name : string) (data : string). (* os.WriteFile(name, data, 0777) *)

(** [time.Millisecond], in nanoseconds. *)
Definition Millisecond : Z := 1000000.

(** [Scanner.waitRepeat] *)
Definition waitRepeat (try : Z) : list Event :=
  if (try <? 1)%Z then []
  else if (try =? 1)%Z then [EvSleep (Millisecond * 200)]
  else if (try =? 2)%Z then [EvSleep (Millisecond * 500)]
  else if (try =? 3)%Z then [EvSleep (Millisecond * 1000)]
  else if (try =? 4)%Z then [EvSleep (Millisecond * 2000)]
  else if (try =? 5)%Z then [EvSleep (Millisecond * 5000)]
  else [EvSleep (Millisecond * 8000)].

(** A call either returns or stops the program with a run-time panic. *)
Inductive outcome (A : Type) :=
| Returns (a : A)
| Panics.
Arguments Returns {A} a.
Arguments Panics {A}.

Section PathCheck.
(** [filepath.Clean] and [os.PathSeparator]. *)
Variable filepath_Clean : string -> string.
Variable PathSeparator : ascii.

(** The loop [for i := range p] of [isParentPath] over the indices [idx]:
    whether some [p[i] != c[i]]; an index out of range is a run-time
    panic. *)
Fixpoint components_differ (p c : list string) (idx : list nat)
  : outcome bool :=
  match idx with
  | [] => Returns false
  | i :: rest =>
      match p !! i, c !! i with
      | Some x, Some y =>
          if String.eqb x y then components_differ p c rest else Returns true
      | _, _ => Panics
      end
  end.

(** [Scanner.isParentPath]: the line it logs, and its result. *)
Definition isParentPath (parent child : string)
  : list Event * outcome (option error) :=
  let p := strings_Split (filepath_Clean parent) PathSeparator in
  let c := strings_Split (filepath_Clean child) PathSeparator in
  if (length p =? 0)%nat || (length c =? 0)%nat then
    ([], Returns (Some ErrPathEmpty))
  else if (length c <? length p)%nat then
    ([], Returns (Some ErrPathShorter))
  else
    ([EvLog (LogPaths p c)],
     match components_differ p c (seq 0 (length p)) with
     | Returns true => Returns (Some ErrPathOutside)
     | Returns false => Returns None
     | Panics => Panics
     end).
End PathCheck.

(** [html.Attribute] and [html.Node], as far as [readHTML] walks them. *)
Record Attribute := mkAttribute {
  Key : string;
  Val : string
}.

#[warnings="-register-all"]
Inductive Node :=
| mkNode (Data : string) (Attr : list Attribute) (children : list Node).

Section Extract.
(** [url.Parse]. *)
Variable url_Parse : string -> URL + error.

(** The scanner's parsed seed URL, [s.url]. *)
Variable seed : URL.

(** The assignment made to a parsed link that is not absolute. *)
Definition resolve (u : URL) : URL :=
  if negb (IsAbs u) then
    mkURL (Scheme seed) (Opaque u) (Host seed) (Path u) (RawQuery u)
          (Fragment u)
  else u.

(** [Scanner.parseSrc]: the line it logs, and the links. *)
Definition parseSrc (a : Attribute) : list Event * list URL :=
  match url_Parse (Val a) with
  | inr e => ([EvLog LogSrcError], [])
  | inl u => ([], [resolve u])
  end.

(** The inner loop of [parseSrcset] for entry [i] of [arr]: one pass for
    each element of [arr2]; the pass parses [arr[i]]. *)
Fixpoint parseSrcset_inner (i : nat) (arr_i : string) (arr2 : list string)
  : list Event * list URL :=
  match arr2 with
  | [] => ([], [])
  | _ :: rest =>
      let '(logs, res) := parseSrcset_inner i arr_i rest in
      match url_Parse arr_i with
      | inr e => (EvLog (LogSrcsetError i) :: logs, res)
      | inl u => (logs, resolve u :: res)
      end
  end.

(** The outer loop of [parseSrcset], from index [i] on. *)
Fixpoint parseSrcset_outer (i : nat) (arr : list string)
  : list Event * list URL :=
  match arr with
  | [] => ([], [])
  | arr_i :: rest =>
      let arr2 := strings_Split arr_i " " in
      let '(logs1, res1) := parseSrcset_inner i arr_i arr2 in
      let '(logs2, res2) := parseSrcset_outer (S i) rest in
      (logs1 ++ logs2, res1 ++ res2)
  end.

(** [Scanner.parseSrcset]: the lines it logs, and the links. *)
Definition parseSrcset (a : Attribute) : list Event * list URL :=
  let arr := strings_Split (Val a) "," in
  parseSrcset_outer 0 arr.

(** The body of the attribute loop of [readHTML]: the links of one
    attribute, each handed to a new task. *)
Definition attr_events (a : Attribute) : list Event :=
  let '(logs, links) :=
    if String.eqb (Key a) "src" || String.eqb (Key a) "href" then parseSrc a
    else if String.eqb (Key a) "srcset" || String.eqb (Key a) "data-srcset"
         then parseSrcset a
         else ([], []) in
  logs ++ map EvSpawn links.

(** The closure [f] of [readHTML]: the attributes of the node, then its
    children in order. *)
Fixpoint walk (n : Node) : list Event :=
  match n with
  | mkNode _ attrs cs =>
      flat_map attr_events attrs
      ++ (fix walk_children (l : list Node) : list Event :=
            match l with
            | [] => []
            | c :: l' => walk c ++ walk_children l'
            end) cs
  end.
End Extract.

(** [strings.Index(s, prefix) == 0] *)
Definition starts_with (s pfx : string) : bool :=
  (strings_Index s pfx =? 0)%Z.

(** Whether [parseURL] hands the lowered text to [url.Parse] as it is. *)
Definition prefixed (text : string) : bool :=
  starts_with text "https://" || starts_with text "http://"
  || starts_with text "//".

(** The text [parseURL] hands to [url.Parse], for a lowered text of five
    bytes or more. *)
Definition parsed_text (text : string) : string :=
  if prefixed text then text else "http://" +:+ text.

Section ParseURL.
(** [strings.ToLower] and [url.Parse]. *)
Variable strings_ToLower : string -> string.
Variable url_Parse : string -> URL + error.

(** [Scanner.parseURL] *)
Definition parseURL (text : string) : URL + error :=
  let text := strings_ToLower text in
  if (len text <? 5)%Z then inr ErrTooShort
  else if (strings_Index text "https://" =? 0)%Z then url_Parse text
  else if (strings_Index text "http://" =? 0)%Z then url_Parse text
  else if (strings_Index text "//" =? 0)%Z then url_Parse text
  else
    match url_Parse ("http://" +:+ text) with
    | inr e => inr e
    | inl u => if String.eqb (Host u) "" then inr ErrAmbiguous else inl u
    end.
End ParseURL.

(** ** scanner.go: the per-resource task, [Scanner.scan] *)

(** What the transport answers to one [http.Get] and to the
    [ioutil.ReadAll] that may follow it. *)
Inductive Attempt :=
| TransportError
| Response (StatusCode : Z) (ContentLength : Z) (body : string)
           (readErr : bool).

(** The answers of the collaborators of one task: the transport, in the
    order of the requests, and the file system. *)
Record Env := mkEnv {
  attempts : list Attempt;
  mkdirAllErr : bool;
  writeFileErr : bool
}.

(** A status code whose response body is read: neither 503 nor an error
    status. *)
Definition accepted (code : Z) : Prop := (code <> 503 /\ code < 400)%Z.

(** How one pass of the request loop ends. *)
Inductive Next :=
| Continue (o : Source.t)
| Break (o : Source.t) (body : string)
| Return (o : Source.t).

(** How the request loop stands once the answers at hand are used up: the
    body is fetched, the loop has failed, or ([Pending]) it stands at the
    head of its next pass, before that pass sets [SourceRequest] and calls
    [http.Get]. *)
Inductive LoopResult :=
| Fetched (o : Source.t) (body : string)
| Failed (o : Source.t)
| Pending (o : Source.t).

(** How a task stands: returned; still running, at the head of the next
    pass of its request loop with the answers at hand used up; or stopped
    by a panic. *)
Inductive Result :=
| Returned (o : Source.t)
| Running (o : Source.t)
| Crashed (o : Source.t).

Inductive Status :=
| Finished
| Unfinished
| Panicked.

Section Task.
Variable url_String : URL -> string.
Variable url_Hostname : URL -> string.
Variable url_Parse : string -> URL + error.
Variable filepath_Clean : string -> string.
Variable PathSeparator : ascii.
(** [filepath.Split], [filepath.Ext], [mime.ExtensionsByType],
    [http.DetectContentType], [html.Parse]. *)
Variable filepath_Split : string -> string * string.
Variable filepath_Ext : string -> string.
Variable mime_ExtensionsByType : string -> list string.
Variable http_DetectContentType : string -> string.
Variable html_Parse : string -> option Node.
(** The links [readTXT] hands to new tasks: those [searchLink] returns for
    the matches of the two patterns, in order. *)
Variable readTXT_links : string -> list URL.

(** The fields of the scanner a task reads: [s.url], [s.dir] and
    [s.params.RepeatsMax]. *)
Variable seed : URL.
Variable dir : string.
Variable RepeatsMax : Z.

(** One pass of the loop [for { ... }] of [scan] on the resource [o], given
    the transport's answer. *)
Definition loop_body (o : Source.t) (att : Attempt) : list Event * Next :=
  let us := url_String (Source.url o) in
  let o := Source.set_state SourceRequest o in
  match att with
  | TransportError =>
      let o := Source.set_repeats (int_incr (Source.repeats o)) o in
      if (Source.repeats o >? RepeatsMax)%Z then
        ([EvState SourceRequest; EvGet us; EvState SourceRequestError;
          EvRelease; EvLog LogRequestExhausted],
         Return (Source.set_err ErrTransport
                   (Source.set_state SourceRequestError o)))
      else
        ([EvState SourceRequest; EvGet us; EvState SourceRequestWaitRepeat],
         Continue (Source.set_err ErrTransport
                     (Source.set_state SourceRequestWaitRepeat o)))
  | Response code clen body readErr =>
      if (code =? 503)%Z then
        let o := Source.set_state SourceRequestWaitRepeat o in
        let o := Source.set_err (ErrStatus code) o in
        let o := Source.set_repeats (int_incr (Source.repeats o)) o in
        let try := Source.repeats o in
        ([EvState SourceRequest; EvGet us; EvState SourceRequestWaitRepeat]
           ++ waitRepeat try,
         Continue o)
      else if (code >=? 400)%Z then
        ([EvState SourceRequest; EvGet us; EvState SourceRequestError;
          EvRelease; EvLog (LogStatus code)],
         Return (Source.set_err (ErrStatus code)
                   (Source.set_state SourceRequestError o)))
      else
        let o := if (clen >? 0)%Z then Source.set_size clen o else o in
        let o := Source.set_state SourceDownload o in
        let o := Source.set_size (len body) o in
        if readErr then
          let o := Source.set_err ErrReadAll o in
          let o := Source.set_repeats (int_incr (Source.repeats o)) o in
          if (Source.repeats o >? RepeatsMax)%Z then
            ([EvState SourceRequest; EvGet us; EvState SourceDownload;
              EvReadAll; EvState SourceDownloadError; EvRelease;
              EvLog LogDownloadExhausted],
             Return (Source.set_state SourceDownloadError o))
          else
            ([EvState SourceRequest; EvGet us; EvState SourceDownload;
              EvReadAll; EvState SourceRequest],
             Continue (Source.set_state SourceRequest o))
        else
          ([EvState SourceRequest; EvGet us; EvState SourceDownload;
            EvReadAll],
           Break o body)
  end.

(** The loop, run on the answers at hand. *)
Fixpoint request_loop (atts : list Attempt) (o : Source.t)
  : list Event * LoopResult :=
  match atts with
  | [] => ([], Pending o)
  | att :: rest =>
      match loop_body o att with
      | (tr, Continue o') =>
          let '(tr', r) := request_loop rest o' in (tr ++ tr', r)
      | (tr, Break o' body) => (tr, Fetched o' body)
      | (tr, Return o') => (tr, Failed o')
      end
  end.

(** [Scanner.readHTML] *)
Definition readHTML (o : Source.t) (body : string)
  : list Event * Source.t :=
  match html_Parse body with
  | None => ([], Source.set_errRead ErrHtmlParse o)
  | Some doc => (walk url_Parse seed doc, o)
  end.

(** [Scanner.readTXT] *)
Definition readTXT (body : string) : list Event :=
  map EvSpawn (readTXT_links body).

(** The types [scan] does not search for links. *)
Definition ignored_mime (mim : string) : bool :=
  strings_Contains mim "application/octet-stream"
  || strings_Contains mim "model"
  || strings_Contains mim "font"
  || strings_Contains mim "image"
  || strings_Contains mim "video"
  || strings_Contains mim "audio"
  || strings_Contains mim "application/ogg".

(** [scan] from the release after the loop to the start of saving: the
    sniffed type and the search for links. *)
Definition read_phase (o : Source.t) (body : string)
  : list Event * Source.t :=
  let o := Source.set_state SourceRead o in
  let mim := http_DetectContentType body in
  let o := Source.set_mime mim o in
  if strings_Contains mim "text/html" then
    let '(tr, o') := readHTML o body in
    (EvState SourceRead :: tr ++ readTXT body, o')
  else if ignored_mime mim then ([EvState SourceRead], o)
  else (EvState SourceRead :: readTXT body, o).

(** The directory and the file name [scan] saves a resource under. *)
Definition file_name (o : Source.t) (mim : string) : string * string :=
  let '(path, name) := filepath_Split (Path (Source.url o)) in
  let name :=
    if String.eqb name "" then "/index.html"
    else if String.eqb (filepath_Ext name) "" then
      match mime_ExtensionsByType mim with
      | [] => name +:+ ".html"
      | e :: _ => name +:+ e
      end
    else name in
  (path, name).

(** [scan] from [obj.state = SourceSave] to its end. *)
Definition save_phase (o : Source.t) (body : string) (env : Env)
  : list Event * Result :=
  let o := Source.set_state SourceSave o in
  let '(path, name) := file_name o (Source.mime o) in
  match isParentPath filepath_Clean PathSeparator dir (dir +:+ path +:+ name)
  with
  | (logs, Panics) => (EvState SourceSave :: logs, Crashed o)
  | (logs, Returns (Some e)) =>
      (EvState SourceSave :: logs ++ [EvState SourceSaveError; EvLog LogBadPath],
       Returned (Source.set_err e (Source.set_state SourceSaveError o)))
  | (logs, Returns None) =>
      if mkdirAllErr env then
        (EvState SourceSave :: logs
           ++ [EvMkdirAll (dir +:+ path); EvState SourceSaveError;
               EvLog LogMkdirFailed],
         Returned (Source.set_err ErrMkdirAll
                     (Source.set_state SourceSaveError o)))
      else if writeFileErr env then
        (EvState SourceSave :: logs
           ++ [EvMkdirAll (dir +:+ path);
               EvWriteFile (dir +:+ path +:+ name) body;
               EvState SourceSaveError; EvLog LogWriteFailed],
         Returned (Source.set_err ErrWriteFile
                     (Source.set_state SourceSaveError o)))
      else
        (EvState SourceSave :: logs
           ++ [EvMkdirAll (dir +:+ path);
               EvWriteFile (dir +:+ path +:+ name) body;
               EvState SourceComplete],
         Returned (Source.set_state SourceComplete o))
  end.

(** [scan] after a registration with [ok = true], on the new resource. *)
Definition scan_obj (o : Source.t) (env : Env) : list Event * Result :=
  let us := url_String (Source.url o) in
  if (len us >? 1000)%Z then
    ([EvState SourceSkip; EvLog LogTooLong],
     Returned (Source.set_err ErrTooLong (Source.set_state SourceSkip o)))
  else if negb (Source.isInteresting o) then
    ([EvLog LogNewLink; EvState SourceSkip; EvLog LogNotInteresting],
     Returned (Source.set_state SourceSkip o))
  else if Source.isExternal o then
    ([EvLog LogNewLink; EvState SourceSkip; EvLog LogExternal],
     Returned (Source.set_state SourceSkip o))
  else
    match request_loop (attempts env) o with
    | (tr, Pending o') => (EvLog LogNewLink :: EvAcquire :: tr, Running o')
    | (tr, Failed o') => (EvLog LogNewLink :: EvAcquire :: tr, Returned o')
    | (tr, Fetched o' body) =>
        let '(tr2, o2) := read_phase o' body in
        let '(tr3, r) := save_phase o2 body env in
        (EvLog LogNewLink :: EvAcquire :: tr ++ [EvRelease] ++ tr2 ++ tr3, r)
    end.

(** [Scanner.scan]: the store and the registry it leaves, what it did, and
    how it stands.  The deferred calls run when it returns. *)
Definition scan (h : Heap) (srcs : Sources.t) (url : option URL) (env : Env)
  : Heap * Sources.t * list Event * Status :=
  match url with
  | None => (h, srcs, [EvThreads (-1); EvDone], Finished)
  | Some u =>
      let '(h1, s1, (p, ok)) := Add url_String url_Hostname seed h srcs u in
      let tr0 := [EvThreads 1; EvAdd (url_String u) p ok] in
      if negb ok then (h1, s1, tr0 ++ [EvThreads (-1); EvDone], Finished)
      else
        match h1 !! p with
        | None => (h1, s1, tr0, Panicked)
        | Some o =>
            match scan_obj o env with
            | (tr, Returned o') =>
                (<[p := o']> h1, s1, tr0 ++ tr ++ [EvThreads (-1); EvDone],
                 Finished)
            | (tr, Running o') => (<[p := o']> h1, s1, tr0 ++ tr, Unfinished)
            | (tr, Crashed o') => (<[p := o']> h1, s1, tr0 ++ tr, Panicked)
            end
        end
  end.

(** The traces of [scan]: what some call of it does, on some store,
    registry, URL and answers. *)
Definition scan_trace (tr : list Event) : Prop :=
  exists h srcs url env h' srcs' st,
    scan h srcs url env = (h', srcs', tr, st).
End Task.

(** ** The limiter shared by the tasks of a run *)

(** Where a task stands with respect to the limiter. *)
Inductive Phase :=
| BeforeSlot
| InSlot
| AfterSlot.

(** The events a task may do in each phase, and the phase they lead to:
    the slot is taken once and given back once; requests, body reads and
    back-off sleeps happen only inside it; registration, skipping, the
    hand-over of links to new tasks and disk writes only outside it. *)
Definition phase_step (ph : Phase) (e : Event) : option Phase :=
  match ph, e with
  | BeforeSlot, EvAcquire => Some InSlot
  | InSlot, EvRelease => Some AfterSlot
  | _, EvAcquire | _, EvRelease => None
  | InSlot, (EvGet _ | EvReadAll | EvSleep _) => Some InSlot
  | _, (EvGet _ | EvReadAll | EvSleep _) => None
  | InSlot, (EvAdd _ _ _ | EvSpawn _ | EvMkdirAll _ | EvWriteFile _ _
            | EvState SourceSkip | EvThreads _ | EvDone) => None
  | ph, _ => Some ph
  end.

Fixpoint phase_after (ph : Phase) (tr : list Event) : option Phase :=
  match tr with
  | [] => Some ph
  | e :: tr' =>
      match phase_step ph e with
      | Some ph' => phase_after ph' tr'
      | None => None
      end
  end.

(** A trace that keeps to the phases. *)
Definition bracketed (tr : list Event) : Prop :=
  exists ph, phase_after BeforeSlot tr = Some ph.

(** A task of the run: what it has done and what it has left to do. *)
Record Task := mkTask {
  past : list Event;
  future : list Event
}.

(** Whether a task holds a slot after the events [tr], given whether it
    held one before: its last send to the limiter was not followed by a
    receive. *)
Fixpoint slot_after (held : bool) (tr : list Event) : bool :=
  match tr with
  | [] => held
  | EvAcquire :: tr' => slot_after true tr'
  | EvRelease :: tr' => slot_after false tr'
  | _ :: tr' => slot_after held tr'
  end.

(** Whether a task holds a slot. *)
Definition holds_slot (t : Task) : bool := slot_after false (past t).

(** Whether the next thing a task does is a request or a body read. *)
Definition at_fetch (t : Task) : bool :=
  match future t with
  | EvGet _ :: _ | EvReadAll :: _ => true
  | _ => false
  end.

(** The tasks of a run and the limiter they share. *)
Record System := mkSystem {
  limiter : Chan.t;
  tasks : list Task
}.

(** The task advanced by its next event. *)
Definition advance (t : Task) : Task :=
  match future t with
  | [] => t
  | e :: f => mkTask (past t ++ [e]) f
  end.

Section Interleaving.
(** The traces tasks may run. *)
Variable task_trace : list Event -> Prop.

(** One step of the run: a task is started, or one task does its next
    event.  A send to the limiter needs room in the buffer; a receive needs
    a queued value. *)
Inductive sys_step : System -> System -> Prop :=
| step_go (S : System) (tr : list Event) :
    task_trace tr ->
    sys_step S (mkSystem (limiter S) (tasks S ++ [mkTask [] tr]))
| step_send (S : System) (i : nat) (t : Task) (f : list Event) :
    tasks S !! i = Some t ->
    future t = EvAcquire :: f ->
    length (Chan.buf (limiter S)) < Chan.cap (limiter S) ->
    sys_step S (mkSystem (Chan.mk (Chan.cap (limiter S))
                                  (Chan.buf (limiter S) ++ [0%Z]))
                         (<[i := advance t]> (tasks S)))
| step_receive (S : System) (i : nat) (t : Task) (f : list Event)
               (v : Z) (q : list Z) :
    tasks S !! i = Some t ->
    future t = EvRelease :: f ->
    Chan.buf (limiter S) = v :: q ->
    sys_step S (mkSystem (Chan.mk (Chan.cap (limiter S)) q)
                         (<[i := advance t]> (tasks S)))
| step_local (S : System) (i : nat) (t : Task) (e : Event) (f : list Event) :
    tasks S !! i = Some t ->
    future t = e :: f ->
    e <> EvAcquire ->
    e <> EvRelease ->
    sys_step S (mkSystem (limiter S) (<[i := advance t]> (tasks S))).

(** The states a run can reach from a given one. *)
Inductive reachable (S0 : System) : System -> Prop :=
| reach_refl : reachable S0 S0
| reach_step (S S' : System) :
    reachable S0 S -> sys_step S S' -> reachable S0 S'.
End Interleaving.

(** A run starts with the limiter that [reset] makes and no task. *)
Definition initial_system (capacity : nat) : System :=
  mkSystem (Chan.mk capacity []) [].

(** The number of tasks holding a slot, and the number at a request or a
    body read. *)
Definition slots_held (S : System) : nat :=
  length (List.filter holds_slot (tasks S)).

Definition fetches_in_flight (S : System) : nat :=
  length (List.filter at_fetch (tasks S)).

(** ** Reference instances of the library parameters

    Used only to evaluate the engine on concrete inputs.  They follow the
    Go functions they stand for on plain ASCII inputs: [strings.ToLower]
    without the Unicode case tables; [url.Parse] and [URL.String] without
    user information, percent-escapes and host validation; [URL.Hostname]
    for hosts without a port; [path/filepath] with [/] as separator. *)

Definition byte_lower (c : ascii) : ascii :=
  let n := nat_of_ascii c in
  if (65 <=? n)%nat && (n <=? 90)%nat then ascii_of_nat (n + 32) else c.

Fixpoint ref_ToLower (s : string) : string :=
  match s with
  | EmptyString => EmptyString
  | String c s' => String (byte_lower c) (ref_ToLower s')
  end.

(** [strings.Cut(s, sep)] for a separator of one byte: the text before the
    first [sep], and the text after it when there is one. *)
Fixpoint cut (sep : ascii) (s : string) : string * option string :=
  match s with
  | EmptyString => (EmptyString, None)
  | String c s' =>
      if Ascii.eqb c sep then (EmptyString, Some s')
      else let '(b, r) := cut sep s' in (String c b, r)
  end.

Definition is_letter (c : ascii) : bool :=
  let n := nat_of_ascii c in
  ((97 <=? n)%nat && (n <=? 122)%nat) || ((65 <=? n)%nat && (n <=? 90)%nat).

Definition is_scheme_mark (c : ascii) : bool :=
  let n := nat_of_ascii c in
  ((48 <=? n)%nat && (n <=? 57)%nat)
  || Ascii.eqb c "+" || Ascii.eqb c "-" || Ascii.eqb c ".".

(** [getScheme] of [net/url]: [None] for the error "missing protocol
    scheme", else the scheme (possibly empty) and the rest. *)
Fixpoint getScheme_from (first : bool) (raw : string)
  : option (option (string * string)) :=
  match raw with
  | EmptyString => Some None
  | String c rest =>
      let go :=
        match getScheme_from false rest with
        | Some (Some (sch, r)) => Some (Some (String c sch, r))
        | other => other
        end in
      if is_letter c then go
      else if is_scheme_mark c then (if first then Some None else go)
      else if Ascii.eqb c ":" then
        (if first then None else Some (Some (EmptyString, rest)))
      else Some None
  end.

Definition getScheme (raw : string) : option (string * string) :=
  match getScheme_from true raw with
  | None => None
  | Some None => Some (EmptyString, raw)
  | Some (Some r) => Some r
  end.

Fixpoint has_ctl (s : string) : bool :=
  match s with
  | EmptyString => false
  | String c s' =>
      (nat_of_ascii c <? 32)%nat || (nat_of_ascii c =? 127)%nat || has_ctl s'
  end.

Definition ref_Parse (raw : string) : URL + error :=
  let '(u, frag) := cut "#" raw in
  let frag := default EmptyString frag in
  if has_ctl u then inr (ErrUrlParse raw)
  else if String.eqb u "*" then inl (mkURL "" "" "" "*" "" frag)
  else
    match getScheme u with
    | None => inr (ErrUrlParse raw)
    | Some (scheme, rest) =>
        let scheme := ref_ToLower scheme in
        let '(rest, query) := cut "?" rest in
        let query := default EmptyString query in
        let rooted := String.prefix "/" rest in
        if negb rooted && negb (String.eqb scheme "") then
          inl (mkURL scheme rest "" "" query frag)
        else if negb rooted
                && (0 <=? strings_Index (fst (cut "/" rest)) ":")%Z then
          inr (ErrUrlParse raw)
        else if (negb (String.eqb scheme "")
                 || negb (String.prefix "///" rest))
                && String.prefix "//" rest then
          let '(authority, path) :=
            cut "/" (String.substring 2 (String.length rest - 2) rest) in
          let path :=
            match path with
            | Some p => String "/" p
            | None => EmptyString
            end in
          inl (mkURL scheme "" authority path query frag)
        else inl (mkURL scheme "" "" rest query frag)
    end.

Definition ref_String (u : URL) : string :=
  let nonempty s := negb (String.eqb s "") in
  (if nonempty (Scheme u) then Scheme u +:+ ":" else "")
  +:+ (if nonempty (Opaque u) then Opaque u
       else
         (if nonempty (Scheme u) || nonempty (Host u) then
            (if nonempty (Host u) || nonempty (Path u) then "//" else "")
            +:+ Host u
          else "")
         +:+ (if nonempty (Path u) && negb (String.prefix "/" (Path u))
                 && nonempty (Host u) then "/" else "")
         +:+ Path u)
  +:+ (if nonempty (RawQuery u) then "?" +:+ RawQuery u else "")
  +:+ (if nonempty (Fragment u) then "#" +:+ Fragment u else "").

Definition ref_Hostname (u : URL) : string := Host u.

(** [filepath.Clean] on the components of a path: empty components and
    [.] are dropped, [..] removes the component before it, or is dropped at
    the root, or kept at the start of a relative path. *)
Fixpoint clean_components (rooted : bool) (kept : list string)
                          (comps : list string) : list string :=
  match comps with
  | [] => rev kept
  | c :: cs =>
      if String.eqb c "" || String.eqb c "." then
        clean_components rooted kept cs
      else if String.eqb c ".." then
        match kept with
        | k :: kept' =>
            if String.eqb k ".." then clean_components rooted (c :: kept) cs
            else clean_components rooted kept' cs
        | [] =>
            if rooted then clean_components rooted [] cs
            else clean_components rooted [c] cs
        end
      else clean_components rooted (c :: kept) cs
  end.

Fixpoint join (sep : string) (l : list string) : string :=
  match l with
  | [] => EmptyString
  | [x] => x
  | x :: l' => x +:+ sep +:+ join sep l'
  end.

Definition ref_Clean (path : string) : string :=
  let rooted := String.prefix "/" path in
  let body := join "/" (clean_components rooted [] (strings_Split path "/")) in
  if rooted then "/" +:+ body
  else if String.eqb body "" then "." else body.

(** [filepath.Split]: the path up to and with its last separator, and the
    rest. *)
Definition ref_Split (path : string) : string * string :=
  match rev (strings_Split path "/") with
  | [] => (EmptyString, path)
  | name :: dirs_rev =>
      (String.substring 0 (String.length path - String.length name) path,
       name)
  end.

(** [filepath.Ext]: the suffix of the last component from its last dot. *)
Definition ref_Ext (path : string) : string :=
  let name := snd (ref_Split path) in
  match rev (strings_Split name ".") with
  | [] | [_] => EmptyString
  | ext :: _ => String "." ext
  end.


(** ** Inputs used in the examples *)

(** Modelled from the spec: the value of the constant
    [PARALLEL_REQUESTS_MAX], whose declaration is not in scanner.go or
    sources.go; the scheduler's capacity is given as 20. *)
Definition default_PARALLEL_REQUESTS_MAX : nat := 20.

Definition example_seed : URL := mkURL "http" "" "example.com" "" "" "".
Definition example_about : URL :=
  mkURL "http" "" "example.com" "/about" "" "".
Definition example_logo : URL :=
  mkURL "http" "" "example.com" "/logo.png" "" "".
Definition example_escape : URL :=
  mkURL "http" "" "example.com" "/../../etc/passwd.txt" "" "".
Definition example_dir : string := "/home/out/example.com".

(** The collaborators of the examples: bodies sniffed as plain text, no
    extension table, no links found in text. *)
Definition example_DetectContentType (body : string) : string :=
  "text/plain; charset=utf-8".
Definition example_ExtensionsByType (mim : string) : list string := [].
Definition example_html_Parse (body : string) : option Node := None.
Definition example_readTXT_links (body : string) : list URL := [].

Definition example_scan (RepeatsMax : Z) :=
  scan ref_String ref_Hostname ref_Parse ref_Clean "/" ref_Split ref_Ext
       example_ExtensionsByType example_DetectContentType example_html_Parse
       example_readTXT_links example_seed example_dir RepeatsMax.

Definition example_scan_trace (RepeatsMax : Z) :=
  scan_trace ref_String ref_Hostname ref_Parse ref_Clean "/" ref_Split ref_Ext
       example_ExtensionsByType example_DetectContentType example_html_Parse
       example_readTXT_links example_seed example_dir RepeatsMax.

Definition example_save_phase :=
  save_phase ref_Clean "/" ref_Split ref_Ext example_ExtensionsByType
             example_dir.

(** * Further parts of the engine *)

(** ** sources.go and scanner.go: what the report reads *)

(** [SourceState.String]; its [default] branch is for values that are none
    of the eleven states. *)
Definition SourceState_String (v : SourceState) : string :=
  match v with
  | SourceWait => "Ожидание"
  | SourceRequest => "Запрос"
  | SourceRequestWaitRepeat => "Ожидание повторной попытки запроса"
  | SourceRequestError => "Ошибка запроса"
  | SourceDownload => "Скачивание"
  | SourceDownloadError => "Ошибка скачивания"
  | SourceRead => "Чтение"
  | SourceSave => "Сохранение"
  | SourceSaveError => "Ошибка сохранения"
  | SourceComplete => "Сохранён"
  | SourceSkip => "Пропуск"
  end.

(** The texts [repObjStatus] formats, by their parts: the name of the
    state, then the counter and the limit, or the error. *)
Inductive StatusText :=
| StatusRepeats (name : string) (repeats max : Z)  (* "%v %v/%v" *)
| StatusError (name : string) (e : error)          (* "Ошибка: %v: %v" *)
| StatusPlain (name : string).                     (* obj.state.String() *)

(** [Scanner.repObjStatus]; [obj.err.Error()] on a nil error is a run-time
    panic. *)
Definition repObjStatus (RepeatsMax : Z) (obj : Source.t)
  : outcome StatusText :=
  match Source.state obj with
  | SourceRequestWaitRepeat =>
      Returns (StatusRepeats (SourceState_String (Source.state obj))
                             (Source.repeats obj) RepeatsMax)
  | SourceRequestError | SourceDownloadError | SourceSaveError =>
      match Source.err obj with
      | Some e => Returns (StatusError (SourceState_String (Source.state obj)) e)
      | None => Panics
      end
  | _ => Returns (StatusPlain (SourceState_String (Source.state obj)))
  end.

(** A resource whose error is recorded when its state is one of the three
    error states. *)
Definition err_recorded (o : Source.t) : Prop :=
  match Source.state o with
  | SourceRequestError | SourceDownloadError | SourceSaveError =>
      Source.err o <> None
  | _ => True
  end.

(** The number of [http.Get] calls in what a task did. *)
Definition requests (tr : list Event) : nat :=
  length (List.filter (fun e => match e with EvGet _ => true | _ => false end)
                      tr).

(** The URLs handed to new tasks in what a task did. *)
Definition spawned (tr : list Event) : list URL :=
  flat_map (fun e => match e with EvSpawn u => [u] | _ => [] end) tr.

(** The change of the counter [s.threads], and the number of calls of
    [s.workers.Done()], in what a task did. *)
Definition threads_delta (tr : list Event) : Z :=
  fold_right (fun e acc => match e with
                           | EvThreads d => (d + acc)%Z
                           | _ => acc
                           end) 0%Z tr.

Definition dones (tr : list Event) : nat :=
  length (List.filter (fun e => match e with EvDone => true | _ => false end)
                      tr).

(** The events of the body of a task: all but those of its first and last
    steps, on the counter, the registry and the wait group. *)
Definition body_event (e : Event) : bool :=
  match e with
  | EvThreads _ | EvDone | EvAdd _ _ _ => false
  | _ => true
  end.

(** An answer of the transport that is a response with status 503. *)
Definition is_503 (a : Attempt) : bool :=
  match a with
  | Response code _ _ _ => (code =? 503)%Z
  | TransportError => false
  end.

(** ** scanner.go: the preparation goroutine of [Start] *)

(** The errors the goroutine [work] of [Start] stores in [s.err]; each
    constructor stands for the message named beside it. *)
Inductive WorkError :=
| ErrStartURL (e : error)      (* the scanner could not start: URL parse error: %w *)
| ErrExecutable                (* binPath: the location of the executable is not known: %w *)
| ErrMkdir                     (* could not create the folder for the site's data: %w *)
| ErrStat                      (* error of access to the folder: %w *)
| ErrRemoveAll (dir : string)  (* could not remove the old folder: dir: %w *)
| ErrMkdirNew (dir : string)   (* could not create the new folder: dir: %w *)
| ErrDirExists (dir : string)  (* the folder exists already, remove it first: dir *)
| ErrIsFile (dir : string)     (* the path of the folder is taken by a file: dir *)
| ErrLogFile (p : string).     (* could not create the file for the log: p *)

(** What [os.Stat] answers: an error for which [os.IsNotExist] holds,
    another error, a directory, or a file that is no directory. *)
Inductive StatResult :=
| StatNotExist
| StatFails
| StatIsDir
| StatIsFile.

(** The answers of the operating system to the calls of one preparation;
    each call is made at most once. *)
Record Os := mkOs {
  os_Executable : option string;   (* the path, or an error *)
  os_Stat : StatResult;
  os_MkdirErr : bool;
  os_RemoveAllErr : bool;
  os_OpenFileErr : bool
}.

(** What the preparation does to the world outside the scanner, in program
    order. *)
Inductive WorkCall :=
| OsStat (name : string)        (* os.Stat(name) *)
| OsMkdir (name : string)       (* os.Mkdir(name, 0777) *)
| OsRemoveAll (path : string)   (* os.RemoveAll(path) *)
| OsTruncate (name : string)    (* os.Truncate(name, 0) *)
| OsOpenFile (name : string)    (* os.OpenFile(name, O_APPEND|O_CREATE|O_WRONLY, 0777) *)
| LogSetOutput (name : string)  (* log.SetOutput(f) *)
| WorkersAdd (delta : Z)        (* s.workers.Add(delta) *)
| GoScan (u : URL).             (* go s.scan(u) *)

(** Whether a call belongs to the launch of the tasks. *)
Definition launches (c : WorkCall) : bool :=
  match c with
  | WorkersAdd _ | GoScan _ => true
  | _ => false
  end.

(** Assignments to the fields of the scanner. *)
Definition Scanner_set_state (v : ScannerState) (s : Scanner.t) : Scanner.t :=
  Scanner.mk (Scanner.params s) v (Scanner.limiter s) (Scanner.sources s)
             (Scanner.url s) (Scanner.home s) (Scanner.dir s)
             (Scanner.dateStart s) (Scanner.dateScan s)
             (Scanner.dateFinish s) (Scanner.err s) (Scanner.threads s).

Definition Scanner_set_url (v : option URL) (s : Scanner.t) : Scanner.t :=
  Scanner.mk (Scanner.params s) (Scanner.state s) (Scanner.limiter s)
             (Scanner.sources s) v (Scanner.home s) (Scanner.dir s)
             (Scanner.dateStart s) (Scanner.dateScan s)
             (Scanner.dateFinish s) (Scanner.err s) (Scanner.threads s).

Definition Scanner_set_home (v : string) (s : Scanner.t) : Scanner.t :=
  Scanner.mk (Scanner.params s) (Scanner.state s) (Scanner.limiter s)
             (Scanner.sources s) (Scanner.url s) v (Scanner.dir s)
             (Scanner.dateStart s) (Scanner.dateScan s)
             (Scanner.dateFinish s) (Scanner.err s) (Scanner.threads s).

Definition Scanner_set_dir (v : string) (s : Scanner.t) : Scanner.t :=
  Scanner.mk (Scanner.params s) (Scanner.state s) (Scanner.limiter s)
             (Scanner.sources s) (Scanner.url s) (Scanner.home s) v
             (Scanner.dateStart s) (Scanner.dateScan s)
             (Scanner.dateFinish s) (Scanner.err s) (Scanner.threads s).

Definition Scanner_set_dateScan (v : Z) (s : Scanner.t) : Scanner.t :=
  Scanner.mk (Scanner.params s) (Scanner.state s) (Scanner.limiter s)
             (Scanner.sources s) (Scanner.url s) (Scanner.home s)
             (Scanner.dir s) (Scanner.dateStart s) v
             (Scanner.dateFinish s) (Scanner.err s) (Scanner.threads s).

Definition Scanner_set_dateFinish (v : Z) (s : Scanner.t) : Scanner.t :=
  Scanner.mk (Scanner.params s) (Scanner.state s) (Scanner.limiter s)
             (Scanner.sources s) (Scanner.url s) (Scanner.home s)
             (Scanner.dir s) (Scanner.dateStart s) (Scanner.dateScan s)
             v (Scanner.err s) (Scanner.threads s).

(** A run of the goroutine [work] of [Start], up to the launch of the
    tasks: the scanner it leaves, but for the field [err], whose new value
    is given apart as [work_err] ([None] when [work] assigned none: the
    messages of the preparation are those of [WorkError]); the calls it
    made; and how it stands: returned after a failure, waiting for the
    tasks it launched, or stopped by a panic. *)
Record Work := mkWork {
  work_scanner : Scanner.t;
  work_err : option WorkError;
  work_calls : list WorkCall;
  work_status : Status
}.

Section Prepare.
(** [strings.ToLower], [url.Parse], [URL.String], [filepath.Dir],
    [path.Clean] and [os.PathSeparator]. *)
Variable strings_ToLower : string -> string.
Variable url_Parse : string -> URL + error.
Variable url_String : URL -> string.
Variable filepath_Dir : string -> string.
Variable path_Clean : string -> string.
Variable PathSeparator : ascii.

(** [Scanner.binPath] *)
Definition binPath (os : Os) : string * option WorkError :=
  match os_Executable os with
  | None => ("", Some ErrExecutable)
  | Some path => (filepath_Dir path, None)
  end.

(** [Scanner.rootFile]; the error of [url.Parse] is dropped, and the
    assignment to the path of a nil URL is a run-time panic. *)
Definition rootFile (base : URL) (file : string) : outcome URL :=
  match url_Parse (url_String base) with
  | inl u2 =>
      Returns (mkURL (Scheme u2) (Opaque u2) (Host u2) file (RawQuery u2)
                     (Fragment u2))
  | inr _ => Panics
  end.

(** The end every failure of the preparation takes: the state, the error
    and the finishing date are set, and [work] returns. *)
Definition work_fails (st : ScannerState) (e : WorkError) (now : Z)
                      (calls : list WorkCall) (s : Scanner.t) : Work :=
  mkWork (Scanner_set_dateFinish now (Scanner_set_state st s)) (Some e)
         calls Finished.

(** The launch of the three first tasks; the arguments of the second and
    of the third are computed after the task before them is launched. *)
Definition work_launch (calls : list WorkCall) (s : Scanner.t) (u : URL)
  : Work :=
  match rootFile u "/robots.txt" with
  | Panics => mkWork s None (calls ++ [WorkersAdd 3; GoScan u]) Panicked
  | Returns robots =>
      match rootFile u "/sitemap.xml" with
      | Panics =>
          mkWork s None (calls ++ [WorkersAdd 3; GoScan u; GoScan robots])
                 Panicked
      | Returns sitemap =>
          mkWork s None
                 (calls ++ [WorkersAdd 3; GoScan u; GoScan robots;
                            GoScan sitemap])
                 Unfinished
      end
  end.

(** The log file is set up, then the scan is started. *)
Definition work_log (now : Z) (os : Os) (calls : list WorkCall)
                    (s : Scanner.t) (u : URL) : Work :=
  let p := path_Clean (Scanner.home s +:+ String PathSeparator ""
                         +:+ Host u +:+ ".log") in
  let calls := calls ++ [OsTruncate p; OsOpenFile p] in
  if os_OpenFileErr os then
    work_fails ScannerOutputDirError (ErrLogFile p) now calls s
  else
    let calls := calls ++ [LogSetOutput p] in
    let s := Scanner_set_dateScan now (Scanner_set_state ScannerScanning s) in
    work_launch calls s u.

(** The body of [work]; [params] is the argument of the [Start] that
    launched it, [now] what [time.Now()] answers.  The deferred
    [f.Close()] runs when [work] returns and is left out. *)
Definition work (now : Z) (os : Os) (params : ScannerParams.t)
                (s : Scanner.t) : Work :=
  match parseURL strings_ToLower url_Parse (ScannerParams.URL params) with
  | inr e =>
      work_fails ScannerIncorrectURL (ErrStartURL e) now []
                 (Scanner_set_url None s)
  | inl u =>
      let s := Scanner_set_url (Some u) s in
      match binPath os with
      | (home, Some e) =>
          work_fails ScannerOutputDirError e now [] (Scanner_set_home home s)
      | (home, None) =>
          let s := Scanner_set_home home s in
          let s := Scanner_set_dir
                     (Scanner.home s +:+ String PathSeparator "" +:+ Host u)
                     s in
          let dir := Scanner.dir s in
          match os_Stat os with
          | StatNotExist =>
              if os_MkdirErr os then
                work_fails ScannerOutputDirError ErrMkdir now
                           [OsStat dir; OsMkdir dir] s
              else work_log now os [OsStat dir; OsMkdir dir] s u
          | StatFails =>
              work_fails ScannerOutputDirError ErrStat now [OsStat dir] s
          | StatIsDir =>
              if ScannerParams.ReplaceOutDir (Scanner.params s) then
                if os_RemoveAllErr os then
                  work_fails ScannerOutputDirError (ErrRemoveAll dir) now
                             [OsStat dir; OsRemoveAll dir] s
                else if os_MkdirErr os then
                  work_fails ScannerOutputDirError (ErrMkdirNew dir) now
                             [OsStat dir; OsRemoveAll dir; OsMkdir dir] s
                else
                  work_log now os [OsStat dir; OsRemoveAll dir; OsMkdir dir]
                           s u
              else
                work_fails ScannerOutputDirExist (ErrDirExists dir) now
                           [OsStat dir] s
          | StatIsFile =>
              work_fails ScannerOutputDirError (ErrIsFile dir) now
                         [OsStat dir] s
          end
      end
  end.

(** The end of [work], once every task has returned and the report is
    logged. *)
Definition work_finish (now : Z) (s : Scanner.t) : Scanner.t :=
  Scanner_set_dateFinish now (Scanner_set_state ScannerComplete s).
End Prepare.

(** A preparation for the examples: the executable lies in [/home/out]. *)
Definition example_Dir (path : string) : string :=
  ref_Clean (fst (ref_Split path)).
Definition example_Os (st : StatResult) : Os :=
  mkOs (Some "/home/out/gomirror") st false false false.
Definition example_work :=
  work ref_ToLower ref_Parse ref_String example_Dir ref_Clean "/".

(** ** scanner.go: links in text, [readTXT] and [searchLink] *)

(** A Go [int] one down. *)
Definition int_decr (x : Z) : Z := int_wrap (x - 1).

(** The bytes [searchLink] tests for. *)
Definition byte_space : ascii := " ".
Definition byte_dquote : ascii := "034".
Definition byte_quote : ascii := "'".
Definition byte_backquote : ascii := "`".

(** The [case] of the three quote bytes: double quote, apostrophe and
    back quote. *)
Definition is_quote (r : ascii) : bool :=
  Ascii.eqb r byte_dquote || Ascii.eqb r byte_quote
  || Ascii.eqb r byte_backquote.

(** [r <= ' ' || r == '}' || r == ')' || r == '>'] *)
Definition is_stop (r : ascii) : bool :=
  (nat_of_ascii r <=? 32)%nat || Ascii.eqb r "}" || Ascii.eqb r ")"
  || Ascii.eqb r ">".

(** A byte that neither ends a link without quotes nor opens a
    bracket. *)
Definition is_plain (r : ascii) : bool :=
  negb (is_stop r)
  && negb (Ascii.eqb r "{" || Ascii.eqb r "(" || Ascii.eqb r "<").

(** The [switch] of the second loop: the counters of the brackets
    [{], [(] and [<] after the byte [r]. *)
Definition count_brackets (r : ascii) (br : Z * Z * Z) : Z * Z * Z :=
  let '(br1, br2, br3) := br in
  if Ascii.eqb r "{" then (int_incr br1, br2, br3)
  else if Ascii.eqb r "}" then (int_decr br1, br2, br3)
  else if Ascii.eqb r "(" then (br1, int_incr br2, br3)
  else if Ascii.eqb r ")" then (br1, int_decr br2, br3)
  else if Ascii.eqb r "<" then (br1, br2, int_incr br3)
  else if Ascii.eqb r ">" then (br1, br2, int_decr br3)
  else (br1, br2, br3).

(** The first loop of [searchLink] over the indices [idx]: the value of
    [sep] after it, zero when the first byte that is no space is no quote.
    An index out of range is a run-time panic. *)
Fixpoint quote_from (b : list ascii) (idx : list nat) : outcome ascii :=
  match idx with
  | [] => Returns zero
  | i :: rest =>
      match b !! i with
      | None => Panics
      | Some r =>
          if Ascii.eqb r byte_space then quote_from b rest
          else Returns (if is_quote r then r else zero)
      end
  end.

(** The loop of [searchLink] for a link without quotes, over the indices
    [idx]: the index [i] at which it breaks, if it does; [c] tells that a
    byte other than a leading space was met, [br] are the counters of the
    open brackets. *)
Fixpoint bare_end (b : list ascii) (idx : list nat) (c : bool)
                  (br : Z * Z * Z) : outcome (option nat) :=
  match idx with
  | [] => Returns None
  | i :: rest =>
      match b !! i with
      | None => Panics
      | Some r =>
          if Ascii.eqb r byte_space && negb c then bare_end b rest c br
          else
            let br := count_brackets r br in
            let '(br1, br2, br3) := br in
            if is_stop r && ((br1 <=? 0)%Z && (br2 <=? 0)%Z && (br3 <=? 0)%Z)
            then Returns (Some i)
            else bare_end b rest true br
      end
  end.

(** The loop of [searchLink] for a link in quotes, over the indices [idx]:
    the index [i] at which it breaks, the first with [b[i] == sep] and
    [b[i-1] != '\'']. *)
Fixpoint quoted_end (b : list ascii) (sep : ascii) (idx : list nat)
  : outcome (option nat) :=
  match idx with
  | [] => Returns None
  | i :: rest =>
      match b !! i, b !! (i - 1) with
      | Some r, Some q =>
          if Ascii.eqb r sep && negb (Ascii.eqb q byte_quote)
          then Returns (Some i)
          else quoted_end b sep rest
      | _, _ => Panics
      end
  end.

(** [b[lo:hi]] for [hi <= len(b)], and [b[lo:]]; bounds out of range are a
    run-time panic. *)
Definition slice (b : list ascii) (lo hi : nat) : outcome (list ascii) :=
  if (lo <=? hi)%nat then Returns (take (hi - lo) (drop lo b)) else Panics.

Definition slice_from (b : list ascii) (lo : nat) : outcome (list ascii) :=
  if (lo <=? length b)%nat then Returns (drop lo b) else Panics.

(** The first part of [searchLink]: the text [str] it reads from [b] at
    the offset [s]. *)
Definition link_text (b : list ascii) (s : Z) : outcome (list ascii) :=
  if (s <? 0)%Z then
    (* the first loop reads b[s] *)
    Panics
  else
    let s := Z.to_nat s in
    match quote_from b (seq s (length b - s)) with
    | Panics => Panics
    | Returns sep =>
        if Ascii.eqb sep zero then
          match bare_end b (seq s (length b - s)) false (0, 0, 0)%Z with
          | Panics => Panics
          | Returns (Some i) => slice b s i
          | Returns None => slice_from b s
          end
        else
          match quoted_end b sep (seq (s + 1) (length b - (s + 1))) with
          | Panics => Panics
          | Returns (Some i) => slice b (s + 1) i
          | Returns None => slice_from b (s + 1)
          end
    end.

Section TextLinks.
(** [url.Parse], and the scanner's parsed seed URL, [s.url]. *)
Variable url_Parse : string -> URL + error.
Variable seed : URL.

(** [Scanner.searchLink]: the link, or nil after a failure of [url.Parse]
    (which is logged). *)
Definition searchLink (b : list ascii) (s : Z) : outcome (option URL) :=
  match link_text b s with
  | Panics => Panics
  | Returns str =>
      match url_Parse (string_of_list_ascii str) with
      | inr e => Returns None
      | inl u => Returns (Some (resolve seed u))
      end
  end.

(** One loop of [readTXT] over the matches of a pattern, each given by the
    offset of its end, [res[i][1]]: the links handed to new tasks. *)
Fixpoint search_matches (b : list ascii) (ends : list Z)
  : outcome (list URL) :=
  match ends with
  | [] => Returns []
  | s :: rest =>
      match searchLink b s with
      | Panics => Panics
      | Returns found =>
          match search_matches b rest with
          | Panics => Panics
          | Returns links =>
              Returns (match found with
                       | Some u => u :: links
                       | None => links
                       end)
          end
      end
  end.

(** [Scanner.readTXT] for a body in which the pattern [(?i)url *\(] has
    the matches ending at [ends1] and the pattern [\/\/ *] those ending
    at [ends2]: the links handed to new tasks, in order. *)
Definition readTXT_search (ends1 ends2 : list Z) (body : string)
  : outcome (list URL) :=
  let b := list_ascii_of_string body in
  match search_matches b ends1 with
  | Panics => Panics
  | Returns l1 =>
      match search_matches b ends2 with
      | Panics => Panics
      | Returns l2 => Returns (l1 ++ l2)
      end
  end.
End TextLinks.

Definition example_link_text (body : string) (s : Z) : outcome string :=
  match link_text (list_ascii_of_string body) s with
  | Returns str => Returns (string_of_list_ascii str)
  | Panics => Panics
  end.

(** ** scanner.go: the report *)

(** The resources a registry lists, in the order of the list. *)
Definition listed (h : Heap) (srcs : Sources.t) : list Source.t :=
  omap (fun p => h !! p) (Sources_List srcs).

(** The runes the report writes itself. *)
Definition rune_newline : Z := 10.
Definition rune_space : Z := 32.
Definition rune_dash : Z := 45.
Definition rune_dot : Z := 46.

(** The states in which a resource is listed by a report that is not
    full. *)
Definition is_active (st : SourceState) : bool :=
  match st with
  | SourceDownload | SourceRead | SourceRequest | SourceSave => true
  | _ => false
  end.

(** [line]: [l] dashes. *)
Definition line (l : Z) : list Z := repeat rune_dash (Z.to_nat l).

(** The counters of [Report], each an [int64]. *)
Record Totals := mkTotals {
  totalCount : Z;
  totalCountExt : Z;
  totalSize : Z
}.

(** What [Report] returns, by its parts: the runes of the heading (the
    names of the columns and the rule under them) and of each line of the
    table, and the numbers printed under it (the size is the argument of
    [repSize]). *)
Record ReportParts := mkReportParts {
  rep_header : list Z;
  rep_rows : list (list Z);
  rep_threads : Z;
  rep_totalCount : Z;
  rep_totalCountExt : Z;
  rep_internal : Z;
  rep_totalSize : Z
}.

Section ReportText.
(** The conversion [[]rune(v)] of a string to its runes; the text
    [fmt.Sprintf] and [String] give for a status; [URL.String]; and
    whether [make([]rune, n)] returns a slice (it panics when [n] is out of
    range). *)
Variable runes_of : string -> list Z.
Variable status_string : StatusText -> string.
Variable url_String : URL -> string.
Variable make_ok : Z -> bool.

(** [cell], on the runes of [v]; the result is given by its runes too. *)
Definition cell (runes : list Z) (lenMax : Z) : outcome (list Z) :=
  let l := Z.of_nat (length runes) in
  if (l =? lenMax)%Z then Returns runes
  else if (l >? lenMax)%Z then
    (* runes[l-(lenMax-3):] *)
    let lo := int_wrap (l - int_wrap (lenMax - 3)) in
    if (0 <=? lo)%Z && (lo <=? l)%Z
    then Returns ([rune_dot; rune_dot; rune_dot] ++ drop (Z.to_nat lo) runes)
    else Panics
  else
    let n := int_wrap (lenMax - l) in
    if make_ok n then Returns (runes ++ repeat rune_space (Z.to_nat n))
    else Panics.

(** Three cells, each followed by the separator, and the end of the line:
    the first line of [Report] without [line(50)], and the text added for
    one resource. *)
Definition report_cells (c1 c2 c3 : list Z) : outcome (list Z) :=
  match cell c1 100, cell c2 30, cell c3 70 with
  | Returns a1, Returns a2, Returns a3 =>
      Returns (a1 ++ [rune_space] ++ a2 ++ [rune_space] ++ a3
                  ++ [rune_space] ++ [rune_newline])
  | _, _, _ => Panics
  end.

(** The line of one resource. *)
Definition report_row (RepeatsMax : Z) (obj : Source.t)
  : outcome (list Z) :=
  match repObjStatus RepeatsMax obj with
  | Panics => Panics
  | Returns status =>
      report_cells (runes_of (url_String (Source.url obj)))
                   (runes_of (Source.mime obj))
                   (runes_of (status_string status))
  end.

(** The loop of [Report] over the resources listed.  A reference that is
    not in the store stands for no pointer of the program; [registry_ok]
    rules it out. *)
Fixpoint report_loop (full : bool) (RepeatsMax : Z) (h : Heap)
                     (a : list ptr) (t : Totals) (rows : list (list Z))
  : outcome (Totals * list (list Z)) :=
  match a with
  | [] => Returns (t, rows)
  | p :: rest =>
      match h !! p with
      | None => Panics
      | Some obj =>
          let t := mkTotals (int_incr (totalCount t)) (totalCountExt t)
                            (totalSize t) in
          let t :=
            if Source.isExternal obj then
              mkTotals (totalCount t) (int_incr (totalCountExt t))
                       (totalSize t)
            else
              mkTotals (totalCount t) (totalCountExt t)
                       (int_wrap (totalSize t + Source.size obj)) in
          if negb full && negb (is_active (Source.state obj)) then
            report_loop full RepeatsMax h rest t rows
          else
            match report_row RepeatsMax obj with
            | Panics => Panics
            | Returns row =>
                report_loop full RepeatsMax h rest t (rows ++ [row])
            end
      end
  end.

(** [Scanner.Report]; a scanner that was never started has no list of
    resources, and the call of [List] on it is a run-time panic. *)
Definition Report (full : bool) (h : Heap) (s : Scanner.t)
  : outcome ReportParts :=
  match report_cells (runes_of "URL") (runes_of "Тип") (runes_of "Статус")
  with
  | Panics => Panics
  | Returns head =>
      match Scanner.sources s with
      | None => Panics
      | Some srcs =>
          match report_loop full
                            (ScannerParams.RepeatsMax (Scanner.params s)) h
                            (Sources_List srcs) (mkTotals 0 0 0) [] with
          | Panics => Panics
          | Returns (t, rows) =>
              Returns (mkReportParts
                         (head ++ line 50 ++ [rune_newline]) rows
                         (Scanner.threads s) (totalCount t)
                         (totalCountExt t)
                         (int_wrap (totalCount t - totalCountExt t))
                         (totalSize t))
          end
      end
  end.
End ReportText.

(** Runes that make a Go slice: an [int] counts them. *)
Definition short (runes : list Z) : Prop :=
  (Z.of_nat (length runes) <= int_max)%Z.

Section ReportTexts.
Variable runes_of : string -> list Z.
Variable status_string : StatusText -> string.
Variable url_String : URL -> string.

(** The three texts of the line of a resource are such runes. *)
Definition row_short (RepeatsMax : Z) (obj : Source.t) : Prop :=
  short (runes_of (url_String (Source.url obj)))
  /\ short (runes_of (Source.mime obj))
  /\ forall status,
       repObjStatus RepeatsMax obj = Returns status ->
       short (runes_of (status_string status)).
End ReportTexts.

(** Runes for the examples: one for each byte of the text. *)
Definition example_runes (v : string) : list Z :=
  map (fun c => Z.of_nat (nat_of_ascii c)) (list_ascii_of_string v).
Definition example_make_ok (n : Z) : bool := (0 <=? n)%Z && (n <=? 2 ^ 32)%Z.

(** The text of a status for the examples: the name of the state. *)
Definition example_status_string (status : StatusText) : string :=
  match status with
  | StatusRepeats name _ _ | StatusError name _ | StatusPlain name => name
  end.

(** A registry of two resources for the examples, and a store in which
    the first has failed and the second is being read. *)
Definition example_registry : Heap * Sources.t :=
  fst (AddAll ref_String ref_Hostname example_seed [] newSources
              [example_about; example_logo]).
Definition example_store : Heap :=
  [Source.mk example_about SourceRequestError "" 0 false true
             (Some (ErrStatus 404)) None 0;
   Source.mk example_logo SourceRead "image/png" 5 false true None None 0].
Definition example_scanning : Scanner.t :=
  Scanner.mk (ScannerParams.mk "example.com" false 10) ScannerScanning
             (Some (Chan.mk default_PARALLEL_REQUESTS_MAX []))
             (Some (snd example_registry)) (Some example_seed)
             "/home/out" example_dir 1 2 0 None 1.

(** * Properties *)

(** ** Go's [int] and [strings.Split] *)

Lemma int_incr_in_range (x : Z) :
  (int_min <= x < int_max)%Z -> int_incr x = (x + 1)%Z.
Proof.
  unfold int_incr, int_wrap, int_min, int_max. intros Hx.
  rewrite Z.mod_small; lia.
Qed.

Lemma int_incr_max : int_incr int_max = int_min.
Proof. reflexivity. Qed.

Lemma strings_Split_nonempty (s : string) (sep : ascii) :
  strings_Split s sep <> [].
Proof.
  destruct s as [|c s]; simpl; [discriminate|].
  destruct (Ascii.eqb c sep); [discriminate|].
  destruct (strings_Split s sep); discriminate.
Qed.

Lemma strings_Split_length (s : string) (sep : ascii) :
  0 < length (strings_Split s sep).
Proof.
  pose proof (strings_Split_nonempty s sep).
  destruct (strings_Split s sep); simpl; [congruence | lia].
Qed.

(** ** The registry *)

Section RegistryFacts.
Variable url_String : URL -> string.
Variable url_Hostname : URL -> string.
Variable seed : URL.

Abbreviation Add := (Add url_String url_Hostname seed).
Abbreviation AddAll := (AddAll url_String url_Hostname seed).
Abbreviation registry_ok := (registry_ok url_String).
Abbreviation key_at := (key_at url_String).

Lemma registry_ok_new (h : Heap) : registry_ok h newSources.
Proof.
  split; simpl.
  - intros k p H. rewrite lookup_empty in H. discriminate.
  - intros p. split.
    + intros H. inversion H.
    + intros [k H]. rewrite lookup_empty in H. discriminate.
  - constructor.
Qed.

Lemma key_at_app (h ext : Heap) (p : ptr) (k : string) :
  key_at h p = Some k -> key_at (h ++ ext) p = Some k.
Proof.
  unfold key_at. destruct (h !! p) as [o|] eqn:E; [|discriminate].
  intros H. rewrite (lookup_app_l_Some _ _ _ _ E). exact H.
Qed.

Lemma registry_ok_bound (h : Heap) (s : Sources.t) (k : string) (p : ptr) :
  registry_ok h s -> Sources.m s !! k = Some p -> p < length h.
Proof.
  intros Hok Hm. apply (ok_key _ _ _ Hok) in Hm. unfold key_at in Hm.
  destruct (h !! p) as [o|] eqn:E; [|discriminate].
  eapply lookup_lt_Some; eauto.
Qed.

(** What one call of [Add] returns and leaves behind. *)
Lemma Add_spec (h : Heap) (s : Sources.t) (u : URL)
      (h' : Heap) (s' : Sources.t) (p : ptr) (c : bool) :
  registry_ok h s ->
  Add h s u = (h', s', (p, c)) ->
  registry_ok h' s'
  /\ (exists ext, h' = h ++ ext)
  /\ Sources.m s' !! url_String u = Some p
  /\ (c = true <-> Sources.m s !! url_String u = None)
  /\ (c = true -> p = length h
                  /\ exists o, h' !! p = Some o /\ Source.url o = u
                               /\ Source.state o = SourceWait
                               /\ Source.repeats o = 0%Z
                               /\ Source.isInteresting o = IsInterstingProtocol u
                               /\ Source.isExternal o =
                                    negb (String.eqb (url_Hostname seed)
                                                     (url_Hostname u)))
  /\ (forall k, k <> url_String u -> Sources.m s' !! k = Sources.m s !! k).
Proof.
  intros Hok. unfold Add.
  destruct (Sources.m s !! url_String u) as [v|] eqn:E.
  - intros [= <- <- <- <-].
    split; [exact Hok|].
    split; [exists nil; now rewrite app_nil_r|].
    split; [exact E|].
    split; [split; [discriminate | congruence]|].
    split; [discriminate | auto].
  - intros [= <- <- <- <-]. simpl.
    split; [|split; [|split; [|split; [|split]]]].
    + split; simpl.
      * intros k p. destruct (decide (url_String u = k)) as [<-|Hne].
        -- rewrite lookup_insert_eq. intros [= <-]. unfold key_at.
           rewrite lookup_app_r by lia. now rewrite Nat.sub_diag.
        -- rewrite lookup_insert_ne by exact Hne. intros H.
           apply key_at_app. eapply ok_key; eauto.
      * intros p. rewrite elem_of_app, list_elem_of_singleton.
        rewrite (ok_listed _ _ _ Hok). split.
        -- intros [[k Hk]| ->].
           ++ exists k. rewrite lookup_insert_ne; [exact Hk|].
              intros <-. congruence.
           ++ exists (url_String u). apply lookup_insert_eq.
        -- intros [k Hk]. destruct (decide (url_String u = k)) as [<-|Hne].
           ++ rewrite lookup_insert_eq in Hk. right. congruence.
           ++ rewrite lookup_insert_ne in Hk by exact Hne. left. eauto.
      * apply NoDup_app. split; [apply (ok_nodup _ _ _ Hok)|]. split.
        -- intros x Hx Hx'. apply list_elem_of_singleton in Hx'. subst x.
           apply (ok_listed _ _ _ Hok) in Hx. destruct Hx as [k Hk].
           pose proof (registry_ok_bound _ _ _ _ Hok Hk). lia.
        -- apply NoDup_singleton.
    + eexists; reflexivity.
    + apply lookup_insert_eq.
    + split; auto.
    + intros _. split; [reflexivity|]. eexists.
      split; [rewrite lookup_app_r by lia; now rewrite Nat.sub_diag|].
      repeat split.
    + intros k Hne. now rewrite lookup_insert_ne by congruence.
Qed.

(** A sequence of registrations from a well-formed registry. *)
Lemma AddAll_spec (urls : list URL) :
  forall (h0 : Heap) (s0 : Sources.t) (h : Heap) (s : Sources.t)
         (rs : list (ptr * bool)),
  registry_ok h0 s0 ->
  AddAll h0 s0 urls = (h, s, rs) ->
  registry_ok h s
  /\ length rs = length urls
  /\ (exists ext, h = h0 ++ ext)
  /\ (forall k q, Sources.m s0 !! k = Some q -> Sources.m s !! k = Some q)
  /\ (forall i u p c,
        urls !! i = Some u -> rs !! i = Some (p, c) ->
        Sources.m s !! url_String u = Some p
        /\ (c = true <->
            Sources.m s0 !! url_String u = None
            /\ forall j u', j < i -> urls !! j = Some u' ->
                            url_String u' <> url_String u)
        /\ (c = true ->
            length h0 <= p /\ exists o, h !! p = Some o /\ Source.url o = u)).
Proof.
  induction urls as [|u us IH]; intros h0 s0 h s rs Hok; simpl.
  - intros [= <- <- <-]. split; [exact Hok|]. split; [reflexivity|].
    split; [exists nil; now rewrite app_nil_r|]. split; [auto|].
    intros i u p c H. rewrite lookup_nil in H. discriminate.
  - destruct (Add h0 s0 u) as [[h1 s1] [p0 c0]] eqn:EA.
    destruct (AddAll h1 s1 us) as [[h2 s2] rs'] eqn:EB.
    intros [= <- <- <-].
    destruct (Add_spec _ _ _ _ _ _ _ Hok EA)
      as (Hok1 & [ext1 Hext1] & Hm1 & Hc1 & Hnew1 & Hother1).
    destruct (IH _ _ _ _ _ Hok1 EB)
      as (Hok2 & Hlen & [ext2 Hext2] & Hmono & Hrs).
    subst h1 h2.
    assert (Hmono1 : forall k q, Sources.m s0 !! k = Some q ->
                                 Sources.m s1 !! k = Some q).
    { intros k q Hk. destruct (decide (k = url_String u)) as [->|Hne].
      - destruct c0.
        + destruct Hc1 as [Hc1 _]. rewrite Hc1 in Hk by reflexivity.
          discriminate.
        + unfold Add in EA. rewrite Hk in EA.
          injection EA as _ Es _. subst s1. exact Hk.
      - now rewrite Hother1. }
    split; [exact Hok2|]. split; [simpl; now rewrite Hlen|].
    split; [exists (ext1 ++ ext2); now rewrite app_assoc|].
    split; [auto|].
    intros [|i] u' p c; simpl.
    + intros [= <-] [= <- <-].
      split; [now apply Hmono|]. split.
      * rewrite Hc1. split; [|tauto]. intros H. split; [exact H|]. lia.
      * intros Hc. destruct (Hnew1 Hc) as (-> & o & Ho & Hu & _).
        split; [lia|]. exists o. split; [|exact Hu].
        now apply lookup_app_l_Some.
    + intros Hu' Hr. destruct (Hrs _ _ _ _ Hu' Hr) as (Hm & Hc & Hnew).
      split; [exact Hm|]. split.
      * rewrite Hc. split.
        -- intros [Hnone Hprev].
           assert (Hne : url_String u <> url_String u').
           { intros Heq. rewrite <- Heq in Hnone. congruence. }
           split.
           ++ rewrite <- Hother1 by congruence. exact Hnone.
           ++ intros [|j] u'' Hj; simpl.
              ** intros [= <-]. exact Hne.
              ** intros Hj'. apply (Hprev j); [lia | exact Hj'].
        -- intros [Hnone Hprev].
           assert (Hne : url_String u <> url_String u').
           { apply (Hprev 0); [lia | reflexivity]. }
           split.
           ++ rewrite Hother1 by congruence. exact Hnone.
           ++ intros j u'' Hj Hj'. apply (Hprev (S j)); [lia | exact Hj'].
      * intros Hc'. destruct (Hnew Hc') as (Hle & o & Ho & Hou).
        split; [rewrite length_app in Hle; lia|]. exists o. auto.
Qed.

(** C1. Registry deduplication: in every sequence of registration
    attempts on a fresh registry, an attempt returns [created = true]
    exactly when no earlier attempt had the same URL string, and then its
    reference is a resource newly allocated for that URL; two attempts
    return the same reference exactly when their URL strings are equal; and
    no two resources listed in the registry have the same URL string. *)
Theorem Add_dedup (urls : list URL) (h0 h : Heap) (s : Sources.t)
        (rs : list (ptr * bool)) :
  AddAll h0 newSources urls = (h, s, rs) ->
  length rs = length urls
  /\ (forall i u p c,
        urls !! i = Some u -> rs !! i = Some (p, c) ->
        (c = true <->
         forall j u', j < i -> urls !! j = Some u' ->
                      url_String u' <> url_String u)
        /\ (c = true ->
            length h0 <= p /\ exists o, h !! p = Some o /\ Source.url o = u)
        /\ key_at h p = Some (url_String u))
  /\ (forall i j u u' p p' c c',
        urls !! i = Some u -> urls !! j = Some u' ->
        rs !! i = Some (p, c) -> rs !! j = Some (p', c') ->
        (url_String u = url_String u' <-> p = p'))
  /\ (forall p q,
        p ∈ Sources_List s -> q ∈ Sources_List s ->
        key_at h p = key_at h q -> p = q)
  /\ NoDup (Sources_List s).
Proof.
  intros HA.
  destruct (AddAll_spec urls _ _ _ _ _ (registry_ok_new h0) HA)
    as (Hok & Hlen & _ & _ & Hrs).
  split; [exact Hlen|]. split; [|split; [|split]].
  - intros i u p c Hu Hr. destruct (Hrs _ _ _ _ Hu Hr) as (Hm & Hc & Hnew).
    split; [|split].
    + rewrite Hc. simpl. rewrite lookup_empty. tauto.
    + exact Hnew.
    + eapply ok_key; eauto.
  - intros i j u u' p p' c c' Hu Hu' Hr Hr'.
    destruct (Hrs _ _ _ _ Hu Hr) as (Hm & _).
    destruct (Hrs _ _ _ _ Hu' Hr') as (Hm' & _).
    split.
    + intros Heq. rewrite Heq in Hm. congruence.
    + intros <-. apply (ok_key _ _ _ Hok) in Hm, Hm'. congruence.
  - unfold Sources_List. intros p q Hp Hq Heq.
    apply (ok_listed _ _ _ Hok) in Hp, Hq.
    destruct Hp as [k Hk], Hq as [k' Hk'].
    pose proof (ok_key _ _ _ Hok _ _ Hk) as E1.
    pose proof (ok_key _ _ _ Hok _ _ Hk') as E2.
    assert (k = k') by congruence. subst k'. congruence.
  - apply (ok_nodup _ _ _ Hok).
Qed.
End RegistryFacts.

Lemma Add_dedup_witness :
  exists h s,
    AddAll ref_String ref_Hostname example_seed [] newSources
           [example_about; example_logo; example_about]
    = (h, s, [(0, true); (1, true); (0, false)])
    /\ NoDup (Sources_List s).
Proof.
  eexists. eexists. split.
  - vm_compute. reflexivity.
  - eapply (Add_dedup ref_String ref_Hostname example_seed
                     [example_about; example_logo; example_about] []).
    vm_compute. reflexivity.
Defined.

(** ** The run-level state machine *)

Section StartFacts.
Variable PARALLEL_REQUESTS_MAX : nat.

Abbreviation Start := (Start PARALLEL_REQUESTS_MAX).
Abbreviation reset := (reset PARALLEL_REQUESTS_MAX).

(** The states [Start] accepts: the scanner is reset, stamped and moved to
    [ScannerPreparing]. *)
Lemma Start_accepts (now : Z) (params : ScannerParams.t) (s : Scanner.t) :
  Scanner.state s = ScannerReady
  \/ Scanner.state s = ScannerOutputDirExist
  \/ Scanner.state s = ScannerIncorrectURL
  \/ Scanner.state s = ScannerComplete ->
  exists s',
    Start now params s = (s', None)
    /\ Scanner.state s' = ScannerPreparing
    /\ Scanner.params s' = params
    /\ Scanner.dateStart s' = now
    /\ Scanner.sources s' = Some newSources
    /\ Scanner.limiter s' = Some (Chan.mk PARALLEL_REQUESTS_MAX [])
    /\ Scanner.url s' = None
    /\ Scanner.err s' = None
    /\ Scanner.threads s' = 0%Z.
Proof.
  intros H. unfold Start.
  destruct H as [-> | [-> | [-> | ->]]];
    (eexists; split; [reflexivity|]; simpl; repeat split).
Qed.

(** The states [Start] rejects: the scanner is left as it was and the
    error names the state. *)
Lemma Start_rejects (now : Z) (params : ScannerParams.t) (s : Scanner.t) :
  Scanner.state s = ScannerPreparing
  \/ Scanner.state s = ScannerScanning
  \/ Scanner.state s = ScannerOutputDirError ->
  Start now params s
  = (s, Some (ErrRunning (ScannerState_String (Scanner.state s)))).
Proof.
  intros H. unfold Start.
  destruct H as [H | [H | H]]; rewrite H; reflexivity.
Qed.

(** [Start] returns an error exactly from [ScannerPreparing],
    [ScannerScanning] and [ScannerOutputDirError]. *)
Lemma Start_error_iff (now : Z) (params : ScannerParams.t) (s : Scanner.t) :
  snd (Start now params s) <> None
  <-> Scanner.state s = ScannerPreparing
      \/ Scanner.state s = ScannerScanning
      \/ Scanner.state s = ScannerOutputDirError.
Proof.
  unfold Start. destruct (Scanner.state s); simpl; split; intros H;
    try congruence; try tauto;
    try (destruct H as [H | [H | H]]; discriminate).
Qed.

(** C6. [Start] on a scanner in [ScannerOutputDirError]: it returns the
    error naming that state and changes nothing, where the state is
    documented as terminal and restartable. *)
Theorem Start_rejects_OutputDirError
        (now : Z) (params old : ScannerParams.t) (lim : option Chan.t)
        (srcs : option Sources.t) (u : option URL) (home dir : string)
        (d1 d2 d3 : Z) (e : option error) (th : Z) :
  let s := Scanner.mk old ScannerOutputDirError lim srcs u home dir
                      d1 d2 d3 e th in
  Start now params s
  = (s, Some (ErrRunning
                "Ошибка: Не удалось создать папку для сохранения сайта")).
Proof. reflexivity. Qed.
End StartFacts.

(** ** The request loop *)

Section LoopFacts.
Variable url_String : URL -> string.
Variable RepeatsMax : Z.

Abbreviation loop_body := (loop_body url_String RepeatsMax).
Abbreviation request_loop := (request_loop url_String RepeatsMax).

Lemma request_loop_nil (o : Source.t) : request_loop [] o = ([], Pending o).
Proof. reflexivity. Qed.

(** The events of a pass that ends in an immediate retry after a transport
    failure, and of one that ends in a retry after a failed body read. *)
Abbreviation transport_retry us :=
  [EvState SourceRequest; EvGet us; EvState SourceRequestWaitRepeat].
Abbreviation download_retry us :=
  [EvState SourceRequest; EvGet us; EvState SourceDownload; EvReadAll;
   EvState SourceRequest].

Lemma request_loop_cons (att : Attempt) (rest : list Attempt) (o : Source.t) :
  request_loop (att :: rest) o
  = match loop_body o att with
    | (tr, Continue o') =>
        let '(tr', r) := request_loop rest o' in (tr ++ tr', r)
    | (tr, Break o' body) => (tr, Fetched o' body)
    | (tr, Return o') => (tr, Failed o')
    end.
Proof. reflexivity. Qed.

Lemma loop_body_url (o : Source.t) (att : Attempt) :
  match snd (loop_body o att) with
  | Continue o' | Break o' _ | Return o' => Source.url o' = Source.url o
  end.
Proof.
  unfold loop_body. destruct att as [|code clen body readErr]; simpl.
  - destruct (_ >? _)%Z; reflexivity.
  - destruct (code =? 503)%Z; [reflexivity|].
    destruct (code >=? 400)%Z; [reflexivity|].
    destruct readErr; [|destruct (clen >? 0)%Z; reflexivity].
    destruct (_ >? _)%Z; destruct (clen >? 0)%Z; reflexivity.
Qed.

Lemma loop_body_transport_retry (o : Source.t) :
  (int_min <= Source.repeats o < RepeatsMax)%Z ->
  (RepeatsMax <= int_max)%Z ->
  exists o',
    loop_body o TransportError
    = (transport_retry (url_String (Source.url o)), Continue o')
    /\ Source.url o' = Source.url o
    /\ Source.repeats o' = (Source.repeats o + 1)%Z
    /\ Source.state o' = SourceRequestWaitRepeat
    /\ Source.err o' = Some ErrTransport.
Proof.
  intros Hr Hmax. unfold loop_body. simpl.
  rewrite int_incr_in_range by lia.
  destruct (_ >? _)%Z eqn:E; [lia|].
  eexists. split; [reflexivity|]. simpl. auto.
Qed.

Lemma loop_body_transport_final (o : Source.t) :
  (int_min <= Source.repeats o)%Z ->
  Source.repeats o = RepeatsMax ->
  (RepeatsMax < int_max)%Z ->
  exists o',
    loop_body o TransportError
    = ([EvState SourceRequest; EvGet (url_String (Source.url o));
        EvState SourceRequestError; EvRelease; EvLog LogRequestExhausted],
       Return o')
    /\ Source.state o' = SourceRequestError
    /\ Source.repeats o' = (RepeatsMax + 1)%Z
    /\ Source.err o' = Some ErrTransport.
Proof.
  intros Hmin Hr Hmax. unfold loop_body. simpl.
  rewrite int_incr_in_range by lia.
  destruct (_ >? _)%Z eqn:E; [|lia].
  eexists. split; [reflexivity|]. simpl. rewrite Hr. auto.
Qed.

(** With a negative [RepeatsMax] the first transport failure is the
    last. *)
Lemma loop_body_transport_negative (o : Source.t) :
  Source.repeats o = 0%Z ->
  (RepeatsMax < 0)%Z ->
  exists o',
    loop_body o TransportError
    = ([EvState SourceRequest; EvGet (url_String (Source.url o));
        EvState SourceRequestError; EvRelease; EvLog LogRequestExhausted],
       Return o')
    /\ Source.state o' = SourceRequestError.
Proof.
  intros Hr Hneg. unfold loop_body. simpl. rewrite Hr.
  change (int_incr 0) with 1%Z.
  destruct (1 >? RepeatsMax)%Z eqn:E; [|lia].
  eexists. split; reflexivity.
Qed.

Lemma accepted_tests (code : Z) :
  accepted code -> (code =? 503)%Z = false /\ (code >=? 400)%Z = false.
Proof. unfold accepted. lia. Qed.

Lemma loop_body_download_retry (o : Source.t) (code clen : Z) (body : string) :
  accepted code ->
  (int_min <= Source.repeats o < RepeatsMax)%Z ->
  (RepeatsMax <= int_max)%Z ->
  exists o',
    loop_body o (Response code clen body true)
    = (download_retry (url_String (Source.url o)), Continue o')
    /\ Source.url o' = Source.url o
    /\ Source.repeats o' = (Source.repeats o + 1)%Z
    /\ Source.state o' = SourceRequest
    /\ Source.err o' = Some ErrReadAll.
Proof.
  intros Hc Hr Hmax. destruct (accepted_tests _ Hc) as [E1 E2].
  unfold loop_body. rewrite E1, E2.
  destruct (clen >? 0)%Z; simpl; rewrite int_incr_in_range by lia;
    (destruct (_ >? _)%Z eqn:E; [lia|]);
    (eexists; split; [reflexivity|]; simpl; auto).
Qed.

Lemma loop_body_download_final (o : Source.t) (code clen : Z) (body : string) :
  accepted code ->
  (int_min <= Source.repeats o)%Z ->
  Source.repeats o = RepeatsMax ->
  (RepeatsMax < int_max)%Z ->
  exists o',
    loop_body o (Response code clen body true)
    = ([EvState SourceRequest; EvGet (url_String (Source.url o));
        EvState SourceDownload; EvReadAll; EvState SourceDownloadError;
        EvRelease; EvLog LogDownloadExhausted],
       Return o')
    /\ Source.state o' = SourceDownloadError
    /\ Source.repeats o' = (RepeatsMax + 1)%Z
    /\ Source.err o' = Some ErrReadAll.
Proof.
  intros Hc Hmin Hr Hmax. destruct (accepted_tests _ Hc) as [E1 E2].
  unfold loop_body. rewrite E1, E2.
  destruct (clen >? 0)%Z; simpl; rewrite int_incr_in_range by lia;
    (destruct (_ >? _)%Z eqn:E; [|lia]);
    (eexists; split; [reflexivity|]; simpl; rewrite Hr; auto).
Qed.

(** [k] transport failures within the limit: [k] immediate retries, then
    the loop goes on with the other answers. *)
Lemma request_loop_transport_retries (k : nat) :
  forall (o : Source.t) (rest : list Attempt),
  (int_min <= Source.repeats o)%Z ->
  (Source.repeats o + Z.of_nat k <= RepeatsMax)%Z ->
  (RepeatsMax <= int_max)%Z ->
  exists o',
    request_loop (repeat TransportError k ++ rest) o
    = (concat (repeat (transport_retry (url_String (Source.url o))) k)
         ++ fst (request_loop rest o'),
       snd (request_loop rest o'))
    /\ Source.url o' = Source.url o
    /\ Source.repeats o' = (Source.repeats o + Z.of_nat k)%Z.
Proof.
  induction k as [|k IH]; intros o rest Hmin Hk Hmax.
  - exists o. simpl. destruct (request_loop rest o). split; [reflexivity|].
    split; [reflexivity | lia].
  - destruct (loop_body_transport_retry o) as (o1 & Hb & Hu & Hr & _);
      [lia | lia |].
    destruct (IH o1 rest) as (o' & Hl & Hu' & Hr'); [lia | lia | lia |].
    exists o'. split; [|split; [congruence | lia]].
    change (repeat TransportError (S k) ++ rest)
      with (TransportError :: (repeat TransportError k ++ rest)).
    rewrite request_loop_cons, Hb, Hl, Hu. reflexivity.
Qed.

Lemma request_loop_download_retries (bs : list (Z * Z * string)) :
  forall (o : Source.t) (rest : list Attempt),
  Forall (fun b => accepted (fst (fst b))) bs ->
  (int_min <= Source.repeats o)%Z ->
  (Source.repeats o + Z.of_nat (length bs) <= RepeatsMax)%Z ->
  (RepeatsMax <= int_max)%Z ->
  exists o',
    request_loop
      (map (fun b => Response (fst (fst b)) (snd (fst b)) (snd b) true) bs
         ++ rest) o
    = (concat (repeat (download_retry (url_String (Source.url o)))
                      (length bs))
         ++ fst (request_loop rest o'),
       snd (request_loop rest o'))
    /\ Source.url o' = Source.url o
    /\ Source.repeats o' = (Source.repeats o + Z.of_nat (length bs))%Z.
Proof.
  induction bs as [|[[code clen] body] bs IH]; intros o rest Hacc Hmin Hk Hmax.
  - exists o. simpl. destruct (request_loop rest o). split; [reflexivity|].
    split; [reflexivity | lia].
  - inversion Hacc as [|? ? Hc Hacc']; subst. simpl in Hc, Hk.
    destruct (loop_body_download_retry o code clen body Hc)
      as (o1 & Hb & Hu & Hr & _); [lia | lia |].
    destruct (IH o1 rest Hacc') as (o' & Hl & Hu' & Hr'); [lia | lia | lia |].
    exists o'. split; [|split; [congruence | simpl length; lia]].
    cbn [map app fst snd]. rewrite request_loop_cons, Hb, Hl, Hu.
    reflexivity.
Qed.

(** A 503 answer: the pass sets [SourceRequestWaitRepeat], counts the
    attempt, sleeps by [waitRepeat] and goes round again, whatever
    [RepeatsMax] is. *)
Lemma loop_body_503 (o : Source.t) (clen : Z) (body : string) (readErr : bool) :
  exists o',
    loop_body o (Response 503 clen body readErr)
    = (transport_retry (url_String (Source.url o))
         ++ waitRepeat (int_incr (Source.repeats o)),
       Continue o')
    /\ Source.url o' = Source.url o
    /\ Source.state o' = SourceRequestWaitRepeat
    /\ Source.repeats o' = int_incr (Source.repeats o)
    /\ Source.err o' = Some (ErrStatus 503).
Proof. eexists. split; [reflexivity|]. simpl. auto. Qed.

(** Answers that are all 503: the loop never ends on them, and the sleep
    before the [k]-th retry is [waitRepeat] of the count reached. *)
Lemma request_loop_503s (atts : list Attempt) :
  forall o : Source.t,
  Forall (fun a => exists clen body readErr,
                     a = Response 503 clen body readErr) atts ->
  (int_min <= Source.repeats o)%Z ->
  (Source.repeats o + Z.of_nat (length atts) <= int_max)%Z ->
  exists o',
    request_loop atts o
    = (concat (map (fun k => transport_retry (url_String (Source.url o))
                               ++ waitRepeat (Source.repeats o + Z.of_nat k))
                   (seq 1 (length atts))),
       Pending o')
    /\ Source.url o' = Source.url o
    /\ Source.repeats o' = (Source.repeats o + Z.of_nat (length atts))%Z
    /\ (atts <> [] -> Source.state o' = SourceRequestWaitRepeat).
Proof.
  induction atts as [|a atts IH]; intros o Hall Hmin Hmax.
  - exists o. simpl. repeat split; [lia | congruence].
  - inversion Hall as [|? ? (clen & body & readErr & ->) Hall']; subst.
    simpl length in Hmax.
    destruct (loop_body_503 o clen body readErr)
      as (o1 & Hb & Hu & Hst & Hr & _).
    rewrite int_incr_in_range in Hb, Hr by lia.
    destruct (IH o1 Hall') as (o' & Hl & Hu' & Hr' & Hst'); [lia | lia |].
    exists o'. split; [|split; [congruence | split]].
    + rewrite request_loop_cons, Hb, Hl. simpl length.
      cbn [seq map concat].
      rewrite <- (seq_shift (length atts) 1), map_map, Hu, Hr.
      rewrite Z.add_0_r || idtac.
      f_equal. f_equal. f_equal. apply map_ext. intros k.
      f_equal. f_equal. lia.
    + simpl length. lia.
    + intros _. destruct atts as [|a' atts'].
      * simpl in Hl. injection Hl as <-. exact Hst.
      * apply Hst'. discriminate.
Qed.

(** The delays of [waitRepeat]. *)
Lemma waitRepeat_table :
  waitRepeat 1 = [EvSleep (Millisecond * 200)]
  /\ waitRepeat 2 = [EvSleep (Millisecond * 500)]
  /\ waitRepeat 3 = [EvSleep (Millisecond * 1000)]
  /\ waitRepeat 4 = [EvSleep (Millisecond * 2000)]
  /\ waitRepeat 5 = [EvSleep (Millisecond * 5000)]
  /\ (forall try, (6 <= try)%Z -> waitRepeat try = [EvSleep (Millisecond * 8000)])
  /\ (forall try, (try < 1)%Z -> waitRepeat try = []).
Proof.
  repeat split; try reflexivity; intros try H; unfold waitRepeat.
  - destruct (try <? 1)%Z eqn:E0; [lia|].
    destruct (try =? 1)%Z eqn:E1; [lia|].
    destruct (try =? 2)%Z eqn:E2; [lia|].
    destruct (try =? 3)%Z eqn:E3; [lia|].
    destruct (try =? 4)%Z eqn:E4; [lia|].
    destruct (try =? 5)%Z eqn:E5; [lia|]. reflexivity.
  - destruct (try <? 1)%Z eqn:E0; [reflexivity | lia].
Qed.
End LoopFacts.

(** ** The task *)

Lemma IsInterstingProtocol_iff (u : URL) :
  IsInterstingProtocol u = true
  <-> Scheme u = "http" \/ Scheme u = "https" \/ Scheme u = "file".
Proof.
  unfold IsInterstingProtocol.
  destruct (String.eqb_spec (Scheme u) "http") as [->|H1]; [tauto|].
  destruct (String.eqb_spec (Scheme u) "https") as [->|H2]; [tauto|].
  destruct (String.eqb_spec (Scheme u) "file") as [->|H3]; [tauto|].
  split; [discriminate | tauto].
Qed.

Section TaskFacts.
Variable url_String : URL -> string.
Variable url_Hostname : URL -> string.
Variable url_Parse : string -> URL + error.
Variable filepath_Clean : string -> string.
Variable PathSeparator : ascii.
Variable filepath_Split : string -> string * string.
Variable filepath_Ext : string -> string.
Variable mime_ExtensionsByType : string -> list string.
Variable http_DetectContentType : string -> string.
Variable html_Parse : string -> option Node.
Variable readTXT_links : string -> list URL.
Variable seed : URL.
Variable dir : string.
Variable RepeatsMax : Z.

Abbreviation Add := (Add url_String url_Hostname seed).
Abbreviation request_loop := (request_loop url_String RepeatsMax).
Abbreviation scan_obj :=
  (scan_obj url_String url_Parse filepath_Clean PathSeparator filepath_Split
            filepath_Ext mime_ExtensionsByType http_DetectContentType
            html_Parse readTXT_links seed dir RepeatsMax).
Abbreviation scan :=
  (scan url_String url_Hostname url_Parse filepath_Clean PathSeparator
        filepath_Split filepath_Ext mime_ExtensionsByType
        http_DetectContentType html_Parse readTXT_links seed dir RepeatsMax).

Abbreviation read_phase :=
  (read_phase url_Parse http_DetectContentType html_Parse readTXT_links seed).
Abbreviation save_phase :=
  (save_phase filepath_Clean PathSeparator filepath_Split filepath_Ext
              mime_ExtensionsByType dir).

(** The resource [Add] allocates for a URL. *)
Abbreviation new_Source u :=
  (Source.mk u SourceWait "" 0%Z
             (negb (String.eqb (url_Hostname seed) (url_Hostname u)))
             (IsInterstingProtocol u) None None 0%Z).

Lemma Add_created (h : Heap) (s : Sources.t) (u : URL)
      (h1 : Heap) (s1 : Sources.t) (p : ptr) :
  Add h s u = (h1, s1, (p, true)) ->
  p = length h
  /\ h1 = h ++ [new_Source u]
  /\ h1 !! p = Some (new_Source u)
  /\ Sources.m s !! url_String u = None.
Proof.
  unfold Add. destruct (Sources.m s !! url_String u) eqn:E.
  - intros [= _ _ _]. 
  - intros [= <- <- <-]. repeat split.
    rewrite lookup_app_r by lia. now rewrite Nat.sub_diag.
Qed.

(** [scan] on a URL whose registration creates the resource is the task
    body run on the new resource. *)
Lemma scan_created (h : Heap) (s : Sources.t) (u : URL) (env : Env)
      (h1 : Heap) (s1 : Sources.t) (p : ptr) :
  Add h s u = (h1, s1, (p, true)) ->
  scan h s (Some u) env
  = match scan_obj (new_Source u) env with
    | (tr, Returned o') =>
        (<[p := o']> h1, s1,
         [EvThreads 1; EvAdd (url_String u) p true] ++ tr
           ++ [EvThreads (-1); EvDone],
         Finished)
    | (tr, Running o') =>
        (<[p := o']> h1, s1,
         [EvThreads 1; EvAdd (url_String u) p true] ++ tr, Unfinished)
    | (tr, Crashed o') =>
        (<[p := o']> h1, s1,
         [EvThreads 1; EvAdd (url_String u) p true] ++ tr, Panicked)
    end.
Proof.
  intros HA. destruct (Add_created _ _ _ _ _ _ HA) as (_ & _ & Hp & _).
  unfold scan. rewrite HA. cbn [negb]. rewrite Hp. reflexivity.
Qed.

(** [scan] on a URL that is already registered returns at once: the
    registry hands back the existing reference and nothing is processed. *)
Lemma scan_registered_returns (h : Heap) (s : Sources.t) (u : URL) (env : Env)
      (p : ptr) :
  Sources.m s !! url_String u = Some p ->
  scan h s (Some u) env
  = (h, s,
     [EvThreads 1; EvAdd (url_String u) p false; EvThreads (-1); EvDone],
     Finished).
Proof. intros Hm. unfold scan, Add. rewrite Hm. reflexivity. Qed.


(** The task body on a resource that passes the skip tests: a slot is
    taken and the request loop runs. *)
Lemma scan_obj_fetches (o : Source.t) (env : Env) :
  (len (url_String (Source.url o)) >? 1000)%Z = false ->
  Source.isInteresting o = true ->
  Source.isExternal o = false ->
  scan_obj o env
  = match request_loop (attempts env) o with
    | (tr, Pending o') => (EvLog LogNewLink :: EvAcquire :: tr, Running o')
    | (tr, Failed o') => (EvLog LogNewLink :: EvAcquire :: tr, Returned o')
    | (tr, Fetched o' body) =>
        let '(tr2, o2) := read_phase o' body in
        let '(tr3, r) := save_phase o2 body env in
        (EvLog LogNewLink :: EvAcquire :: tr ++ [EvRelease] ++ tr2 ++ tr3, r)
    end.
Proof. intros H1 H2 H3. unfold scan_obj. rewrite H1, H2, H3. reflexivity. Qed.

Abbreviation transport_retry us :=
  [EvState SourceRequest; EvGet us; EvState SourceRequestWaitRepeat].
Abbreviation download_retry us :=
  [EvState SourceRequest; EvGet us; EvState SourceDownload; EvReadAll;
   EvState SourceRequest].
Abbreviation read_failure b :=
  (Response (fst (fst b)) (snd (fst b)) (snd b) true).

(** C4. Ordinary-retry ceiling: on a newly registered resource that passes
    the skip tests, with [0 <= RepeatsMax] (and below the largest [int]),
    transport failures are retried at once, inside the slot taken before
    the first request and with no sleep, and failure number
    [RepeatsMax + 1] ends the task in [SourceRequestError] and gives the
    slot back; with at most [RepeatsMax] failures the task is still in the
    loop.  Failed body reads do the same and end in
    [SourceDownloadError]. *)
Theorem scan_retry_ceiling (h : Heap) (s : Sources.t) (u : URL)
        (h1 : Heap) (s1 : Sources.t) (p : ptr)
        (rest : list Attempt) (mk wr : bool) :
  Add h s u = (h1, s1, (p, true)) ->
  (len (url_String u) >? 1000)%Z = false ->
  IsInterstingProtocol u = true ->
  String.eqb (url_Hostname seed) (url_Hostname u) = true ->
  (0 <= RepeatsMax < int_max)%Z ->
  let n := Z.to_nat RepeatsMax in
  let us := url_String u in
  let start := [EvThreads 1; EvAdd us p true; EvLog LogNewLink; EvAcquire] in
  (exists o',
     scan h s (Some u)
          (mkEnv (repeat TransportError n ++ TransportError :: rest) mk wr)
     = (<[p := o']> h1, s1,
        start ++ concat (repeat (transport_retry us) n)
          ++ [EvState SourceRequest; EvGet us; EvState SourceRequestError;
              EvRelease; EvLog LogRequestExhausted;
              EvThreads (-1); EvDone],
        Finished)
     /\ Source.state o' = SourceRequestError
     /\ Source.repeats o' = (RepeatsMax + 1)%Z)
  /\ (forall k, k <= n ->
      exists o',
        scan h s (Some u) (mkEnv (repeat TransportError k) mk wr)
        = (<[p := o']> h1, s1,
           start ++ concat (repeat (transport_retry us) k), Unfinished))
  /\ (forall (bs : list (Z * Z * string)) (b : Z * Z * string),
      Forall (fun b => accepted (fst (fst b))) (bs ++ [b]) ->
      length bs = n ->
      exists o',
        scan h s (Some u)
             (mkEnv (map (fun b => read_failure b) bs
                       ++ read_failure b :: rest) mk wr)
        = (<[p := o']> h1, s1,
           start ++ concat (repeat (download_retry us) n)
             ++ [EvState SourceRequest; EvGet us; EvState SourceDownload;
                 EvReadAll; EvState SourceDownloadError; EvRelease;
                 EvLog LogDownloadExhausted; EvThreads (-1); EvDone],
           Finished)
        /\ Source.state o' = SourceDownloadError
        /\ Source.repeats o' = (RepeatsMax + 1)%Z)
  /\ (forall bs : list (Z * Z * string),
      Forall (fun b => accepted (fst (fst b))) bs ->
      length bs <= n ->
      exists o',
        scan h s (Some u) (mkEnv (map (fun b => read_failure b) bs) mk wr)
        = (<[p := o']> h1, s1,
           start ++ concat (repeat (download_retry us) (length bs)),
           Unfinished)).
Proof.
  intros HA Hlen Hint Hhost Hmax n us start.
  assert (Hmin : (int_min <= 0)%Z) by (unfold int_min; lia).
  assert (Hfetch : forall env,
             scan_obj (new_Source u) env
             = match request_loop (attempts env) (new_Source u) with
               | (tr, Pending o') =>
                   (EvLog LogNewLink :: EvAcquire :: tr, Running o')
               | (tr, Failed o') =>
                   (EvLog LogNewLink :: EvAcquire :: tr, Returned o')
               | (tr, Fetched o' body) =>
                   let '(tr2, o2) := read_phase o' body in
                   let '(tr3, r) := save_phase o2 body env in
                   (EvLog LogNewLink :: EvAcquire :: tr ++ [EvRelease]
                      ++ tr2 ++ tr3, r)
               end).
  { intros env. apply scan_obj_fetches; simpl; [exact Hlen | exact Hint|].
    now rewrite Hhost. }
  split; [|split; [|split]].
  - destruct (request_loop_transport_retries url_String RepeatsMax n
                (new_Source u) (TransportError :: rest))
      as (o1 & Hl & Hu & Hr); [simpl; lia | simpl; lia | lia |].
    destruct (loop_body_transport_final url_String RepeatsMax o1)
      as (o' & Hb & Hst & Hr' & _); [rewrite Hr; simpl; lia
                                    | rewrite Hr; simpl; lia | lia |].
    exists o'. split; [|auto].
    rewrite (scan_created _ _ _ _ _ _ _ HA), Hfetch. cbn [attempts].
    rewrite Hl, request_loop_cons, Hb, Hu. cbn [fst snd Source.url].
    unfold start, us. cbn [app]. rewrite <- !app_assoc. reflexivity.
  - intros k Hk.
    destruct (request_loop_transport_retries url_String RepeatsMax k
                (new_Source u) [])
      as (o1 & Hl & Hu & Hr); [simpl; lia | simpl; lia | lia |].
    exists o1. rewrite (scan_created _ _ _ _ _ _ _ HA), Hfetch.
    cbn [attempts]. rewrite app_nil_r, request_loop_nil in Hl. rewrite Hl.
    cbn [fst snd Source.url]. rewrite app_nil_r. reflexivity.
  - intros bs b Hacc Hbs. apply Forall_app in Hacc. destruct Hacc as [Hacc Hb0].
    inversion Hb0 as [|? ? Hb1 _]; subst.
    destruct (request_loop_download_retries url_String RepeatsMax bs
                (new_Source u) (read_failure b :: rest) Hacc)
      as (o1 & Hl & Hu & Hr); [simpl; lia | simpl; lia | lia |].
    destruct (loop_body_download_final url_String RepeatsMax o1
                (fst (fst b)) (snd (fst b)) (snd b) Hb1)
      as (o' & Hb & Hst & Hr' & _); [rewrite Hr; simpl; lia
                                    | rewrite Hr; simpl; lia | lia |].
    exists o'. split; [|auto].
    rewrite (scan_created _ _ _ _ _ _ _ HA), Hfetch. cbn [attempts].
    rewrite Hl, request_loop_cons, Hb, Hu. cbn [fst snd Source.url].
    unfold start, us. rewrite <- Hbs. cbn [app].
    rewrite <- !app_assoc. reflexivity.
  - intros bs Hacc Hbs.
    destruct (request_loop_download_retries url_String RepeatsMax bs
                (new_Source u) [] Hacc)
      as (o1 & Hl & Hu & Hr); [simpl; lia | simpl; lia | lia |].
    exists o1. rewrite (scan_created _ _ _ _ _ _ _ HA), Hfetch.
    cbn [attempts]. rewrite app_nil_r, request_loop_nil in Hl. rewrite Hl.
    cbn [fst snd Source.url]. rewrite app_nil_r. reflexivity.
Qed.

(** C5. 503 backoff: a 503 answer never ends the task, whatever
    [RepeatsMax] is: the pass sets [SourceRequestWaitRepeat], counts the
    attempt, sleeps and requests again; the sleep is 200ms at count 1,
    500ms at 2, 1000ms at 3, 2000ms at 4, 5000ms at 5 and 8000ms at every
    count from 6 on; and a task that is answered 503 every time is still in
    the loop after any number of answers, having slept by that table
    before each retry. *)
Theorem scan_503_backoff :
  (waitRepeat 1 = [EvSleep (Millisecond * 200)]
   /\ waitRepeat 2 = [EvSleep (Millisecond * 500)]
   /\ waitRepeat 3 = [EvSleep (Millisecond * 1000)]
   /\ waitRepeat 4 = [EvSleep (Millisecond * 2000)]
   /\ waitRepeat 5 = [EvSleep (Millisecond * 5000)]
   /\ forall try, (6 <= try)%Z ->
                  waitRepeat try = [EvSleep (Millisecond * 8000)])
  /\ (forall (o : Source.t) (clen : Z) (body : string) (readErr : bool),
      exists o',
        loop_body url_String RepeatsMax o (Response 503 clen body readErr)
        = (transport_retry (url_String (Source.url o))
             ++ waitRepeat (int_incr (Source.repeats o)),
           Continue o')
        /\ Source.state o' = SourceRequestWaitRepeat
        /\ Source.repeats o' = int_incr (Source.repeats o))
  /\ (forall (h : Heap) (s : Sources.t) (u : URL)
             (h1 : Heap) (s1 : Sources.t) (p : ptr)
             (atts : list Attempt) (mk wr : bool),
      Add h s u = (h1, s1, (p, true)) ->
      (len (url_String u) >? 1000)%Z = false ->
      IsInterstingProtocol u = true ->
      String.eqb (url_Hostname seed) (url_Hostname u) = true ->
      Forall (fun a => exists clen body readErr,
                         a = Response 503 clen body readErr) atts ->
      (Z.of_nat (length atts) <= int_max)%Z ->
      exists o',
        scan h s (Some u) (mkEnv atts mk wr)
        = (<[p := o']> h1, s1,
           [EvThreads 1; EvAdd (url_String u) p true; EvLog LogNewLink;
            EvAcquire]
             ++ concat (map (fun k => transport_retry (url_String u)
                                        ++ waitRepeat (Z.of_nat k))
                            (seq 1 (length atts))),
           Unfinished)
        /\ Source.repeats o' = Z.of_nat (length atts)
        /\ (atts <> [] -> Source.state o' = SourceRequestWaitRepeat)).
Proof.
  split; [|split].
  - pose proof waitRepeat_table. tauto.
  - intros o clen body readErr.
    destruct (loop_body_503 url_String RepeatsMax o clen body readErr)
      as (o' & Hb & _ & Hst & Hr & _).
    exists o'. auto.
  - intros h s u h1 s1 p atts mk wr HA Hlen Hint Hhost Hall Hmax.
    destruct (request_loop_503s url_String RepeatsMax atts (new_Source u) Hall)
      as (o' & Hl & Hu & Hr & Hst);
      [unfold int_min; simpl; lia | simpl; lia |].
    exists o'. split; [|split; [rewrite Hr; simpl; lia | exact Hst]].
    rewrite (scan_created _ _ _ _ _ _ _ HA), scan_obj_fetches;
      [| exact Hlen | exact Hint | simpl; now rewrite Hhost].
    cbn [attempts]. rewrite Hl. cbn [Source.url Source.repeats app].
    reflexivity.
Qed.
End TaskFacts.

(** ** The path check *)

Section PathFacts.
Variable filepath_Clean : string -> string.
Variable PathSeparator : ascii.
Variable filepath_Split : string -> string * string.
Variable filepath_Ext : string -> string.
Variable mime_ExtensionsByType : string -> list string.
Variable dir : string.

Abbreviation isParentPath := (isParentPath filepath_Clean PathSeparator).
Abbreviation file_name :=
  (file_name filepath_Split filepath_Ext mime_ExtensionsByType).
Abbreviation save_phase :=
  (save_phase filepath_Clean PathSeparator filepath_Split filepath_Ext
              mime_ExtensionsByType dir).

(** The comparison loop over indices of the parent, when the child is no
    shorter: it does not panic, and it finds a difference exactly when
    some listed component of the parent is not the child's. *)
Lemma components_differ_spec (p c : list string) (idx : list nat) :
  length p <= length c ->
  Forall (fun i => i < length p) idx ->
  exists b,
    components_differ p c idx = Returns b
    /\ (b = true <-> exists i x, i ∈ idx /\ p !! i = Some x /\ c !! i <> Some x).
Proof.
  intros Hlen. induction idx as [|i idx IH]; intros Hidx.
  - exists false. split; [reflexivity|]. split; [discriminate|].
    intros (i & x & Hi & _). inversion Hi.
  - inversion Hidx as [|? ? Hi Hidx']; subst.
    destruct (lookup_lt_is_Some_2 p i Hi) as [x Hx].
    destruct (lookup_lt_is_Some_2 c i ltac:(lia)) as [y Hy].
    simpl. rewrite Hx, Hy.
    destruct (String.eqb_spec x y) as [->|Hne].
    + destruct (IH Hidx') as (b & Hb & Hiff). exists b. split; [exact Hb|].
      rewrite Hiff. split.
      * intros (j & z & Hj & Hz & Hne). exists j, z.
        split; [now apply list_elem_of_further | auto].
      * intros (j & z & Hj & Hz & Hne).
        apply elem_of_cons in Hj. destruct Hj as [->|Hj].
        -- congruence.
        -- exists j, z. auto.
    + exists true. split; [reflexivity|]. split; [|reflexivity].
      intros _. exists i, x. split; [apply list_elem_of_here|].
      split; [exact Hx | congruence].
Qed.

Lemma isParentPath_logs (parent child : string) :
  Forall (fun e => exists l, e = EvLog l) (fst (isParentPath parent child)).
Proof.
  unfold isParentPath.
  destruct (_ || _); [constructor|].
  destruct (_ <? _)%nat; [constructor|].
  simpl. repeat constructor. eexists; reflexivity.
Qed.

(** What [isParentPath] answers, by the component sequences. *)
Lemma isParentPath_spec (parent child : string) :
  let p := strings_Split (filepath_Clean parent) PathSeparator in
  let c := strings_Split (filepath_Clean child) PathSeparator in
  (length c < length p ->
   snd (isParentPath parent child) = Returns (Some ErrPathShorter))
  /\ (length p <= length c ->
      (exists i x, p !! i = Some x /\ c !! i <> Some x) ->
      snd (isParentPath parent child) = Returns (Some ErrPathOutside))
  /\ (length p <= length c ->
      ~ (exists i x, p !! i = Some x /\ c !! i <> Some x) ->
      snd (isParentPath parent child) = Returns None).
Proof.
  intros p c.
  pose proof (strings_Split_length (filepath_Clean parent) PathSeparator) as Hp.
  pose proof (strings_Split_length (filepath_Clean child) PathSeparator) as Hc.
  fold p in Hp. fold c in Hc.
  unfold isParentPath. fold p c.
  destruct (length p =? 0)%nat eqn:Ep; [apply Nat.eqb_eq in Ep; lia|].
  destruct (length c =? 0)%nat eqn:Ec; [apply Nat.eqb_eq in Ec; lia|].
  cbn [orb].
  destruct (length c <? length p)%nat eqn:El.
  - apply Nat.ltb_lt in El. split; [reflexivity|]. split; intros; lia.
  - apply Nat.ltb_ge in El.
    destruct (components_differ_spec p c (seq 0 (length p)) El)
      as (b & Hb & Hiff).
    { apply Forall_forall. intros i Hi. apply list_elem_of_In in Hi.
      apply in_seq in Hi. lia. }
    assert (Hiff' : b = true <-> exists i x, p !! i = Some x /\ c !! i <> Some x).
    { rewrite Hiff. split.
      - intros (i & x & _ & H). eauto.
      - intros (i & x & Hx & Hne). exists i, x. split; [|auto].
        apply list_elem_of_In, in_seq. apply lookup_lt_Some in Hx. lia. }
    cbn [snd]. rewrite Hb. split; [lia|]. split; intros _ H.
    + apply Hiff' in H. now rewrite H.
    + destruct b; [exfalso; apply H; now apply Hiff' | reflexivity].
Qed.

(** Every file [scan] writes has passed the check against [s.dir]. *)
Lemma save_phase_writes_checked (o : Source.t) (body : string) (env : Env)
      (name data : string) :
  EvWriteFile name data ∈ fst (save_phase o body env) ->
  snd (isParentPath dir name) = Returns None.
Proof.
  unfold save_phase. destruct (file_name _ _) as [path nm].
  pose proof (isParentPath_logs dir (dir +:+ path +:+ nm)) as Hlogs.
  destruct (isParentPath dir (dir +:+ path +:+ nm)) as [logs r] eqn:E.
  cbn [fst snd] in *.
  assert (Hno : EvWriteFile name data ∉ logs).
  { intros Hin. rewrite Forall_forall in Hlogs.
    destruct (Hlogs _ Hin) as [l Hl]. discriminate. }
  assert (Hcase : forall tail,
             EvWriteFile name data ∈ EvState SourceSave :: logs ++ tail ->
             EvWriteFile name data ∈ tail).
  { intros tail Hin. apply elem_of_cons in Hin.
    destruct Hin as [?|Hin]; [discriminate|].
    apply elem_of_app in Hin. destruct Hin as [?|Hin]; tauto. }
  destruct r as [[e|]|]; cbn [fst].
  - intros Hin. apply Hcase in Hin.
    repeat (apply elem_of_cons in Hin; destruct Hin as [?|Hin];
            [discriminate|]).
    inversion Hin.
  - destruct (mkdirAllErr env); [|destruct (writeFileErr env)]; cbn [fst];
      intros Hin; apply Hcase in Hin;
      repeat (apply elem_of_cons in Hin; destruct Hin as [Heq|Hin];
              [first [discriminate
                     | injection Heq as -> ->; rewrite E; reflexivity]|]);
      inversion Hin.
  - intros Hin. rewrite <- (app_nil_r logs) in Hin.
    apply Hcase in Hin. inversion Hin.
Qed.

(** C3. Path containment: [isParentPath] cleans both paths, splits them
    into components and returns an error exactly when the child has fewer
    components than the parent or some component of the parent is not the
    child's component at the same place; it never panics.  When the check
    of [scan] fails, the resource ends in [SourceSaveError] with that
    error, and nothing but log lines and state changes happen: no directory
    is made and no file written.  Every file [scan] writes has passed the
    check against the output directory. *)
Theorem isParentPath_containment (parent child : string)
        (o : Source.t) (body : string) (env : Env) :
  let p := strings_Split (filepath_Clean parent) PathSeparator in
  let c := strings_Split (filepath_Clean child) PathSeparator in
  let target :=
    dir +:+ fst (file_name o (Source.mime o))
        +:+ snd (file_name o (Source.mime o)) in
  ((exists e, snd (isParentPath parent child) = Returns (Some e))
   <-> (length c < length p
        \/ exists i x, p !! i = Some x /\ c !! i <> Some x))
  /\ snd (isParentPath parent child) <> Panics
  /\ (forall e,
      snd (isParentPath dir target) = Returns (Some e) ->
      exists logs o',
        save_phase o body env
        = (EvState SourceSave
             :: logs ++ [EvState SourceSaveError; EvLog LogBadPath],
           Returned o')
        /\ Forall (fun ev => exists l, ev = EvLog l) logs
        /\ Source.state o' = SourceSaveError
        /\ Source.err o' = Some e)
  /\ (forall name data,
      EvWriteFile name data ∈ fst (save_phase o body env) ->
      snd (isParentPath dir name) = Returns None).
Proof.
  intros p c target.
  destruct (isParentPath_spec parent child) as (Hshort & Hdiff & Hsame).
  fold p c in Hshort, Hdiff, Hsame.
  assert (Hdec : length c < length p \/ length p <= length c) by lia.
  assert (Hcl : (exists i x, p !! i = Some x /\ c !! i <> Some x)
                \/ ~ (exists i x, p !! i = Some x /\ c !! i <> Some x)).
  { destruct (decide (length p <= length c)) as [Hle|Hgt].
    - destruct (components_differ_spec p c (seq 0 (length p)) Hle)
        as (b & _ & Hiff).
      { apply Forall_forall. intros i Hi. apply list_elem_of_In, in_seq in Hi.
        lia. }
      destruct b.
      + left. destruct Hiff as [Hiff _].
        destruct (Hiff eq_refl) as (i & x & _ & H). eauto.
      + right. intros (i & x & Hx & Hne).
        assert (false = true); [|discriminate]. apply Hiff.
        exists i, x. split; [|auto].
        apply list_elem_of_In, in_seq. apply lookup_lt_Some in Hx. lia.
    - left. destruct (lookup_lt_is_Some_2 p (length c) ltac:(lia)) as [x Hx].
      exists (length c), x. split; [exact Hx|].
      rewrite lookup_ge_None_2 by lia. discriminate. }
  split; [|split; [|split]].
  - split.
    + intros [e He]. destruct Hdec as [Hlt|Hle]; [tauto|].
      destruct Hcl as [Hd|Hnd]; [tauto|].
      rewrite (Hsame Hle Hnd) in He. discriminate.
    + intros [Hlt|Hd].
      * eexists. apply Hshort, Hlt.
      * destruct Hdec as [Hlt|Hle]; [eexists; apply Hshort, Hlt|].
        eexists. apply Hdiff; assumption.
  - destruct Hdec as [Hlt|Hle]; [rewrite (Hshort Hlt); discriminate|].
    destruct Hcl as [Hd|Hnd];
      [rewrite (Hdiff Hle Hd) | rewrite (Hsame Hle Hnd)]; discriminate.
  - intros e He. unfold save_phase.
    change (file_name (Source.set_state SourceSave o)
                      (Source.mime (Source.set_state SourceSave o)))
      with (file_name o (Source.mime o)).
    pose proof (isParentPath_logs dir target) as Hlogs. unfold target in *.
    destruct (file_name o (Source.mime o)) as [path name]. cbn [fst snd] in *.
    destruct (isParentPath dir (dir +:+ path +:+ name)) as [logs r].
    cbn [fst snd] in *. subst r.
    eexists logs, _. split; [reflexivity|]. split; [exact Hlogs|].
    split; reflexivity.
  - intros name data. apply save_phase_writes_checked.
Qed.
End PathFacts.

(** ** The seed URL *)

Lemma starts_with_prefix (s pfx : string) :
  starts_with s pfx = String.prefix pfx s.
Proof.
  unfold starts_with, strings_Index.
  destruct s as [|b s']; simpl.
  - destruct pfx; reflexivity.
  - destruct pfx as [|a pfx']; [reflexivity|].
    destruct (ascii_dec a b) as [->|Hne].
    + destruct (String.prefix pfx' s'); [reflexivity|].
      destruct (String.index 0 (String b pfx') s') as [n|]; [|reflexivity].
      apply Z.eqb_neq. lia.
    + destruct (String.index 0 (String a pfx') s') as [n|]; [|reflexivity].
      apply Z.eqb_neq. lia.
Qed.

Section ParseURLFacts.
Variable strings_ToLower : string -> string.
Variable url_Parse : string -> URL + error.

Abbreviation parseURL := (parseURL strings_ToLower url_Parse).

(** [parseURL] by cases on the lowered text. *)
Lemma parseURL_cases (text : string) :
  let t := strings_ToLower text in
  parseURL text
  = if (len t <? 5)%Z then inr ErrTooShort
    else if prefixed t then url_Parse t
    else match url_Parse ("http://" +:+ t) with
         | inr e => inr e
         | inl u => if String.eqb (Host u) "" then inr ErrAmbiguous else inl u
         end.
Proof.
  intros t. unfold parseURL, prefixed, starts_with. fold t.
  destruct (len t <? 5)%Z; [reflexivity|].
  destruct (strings_Index t "https://" =? 0)%Z; [reflexivity|].
  destruct (strings_Index t "http://" =? 0)%Z; [reflexivity|].
  destruct (strings_Index t "//" =? 0)%Z; reflexivity.
Qed.

(** When [parseURL] returns an error.  It lowers the input; a lowered text
    that starts with [https://], [http://] or [//] is parsed as it is, any
    other with [http://] put before it.  The error comes exactly when the
    lowered text is shorter than 5 bytes, or [url.Parse] rejects the text
    parsed, or the text had none of the three prefixes and the parsed host
    is empty; otherwise the URL [url.Parse] returned is returned. *)
Lemma parseURL_errors (text : string) :
  let t := strings_ToLower text in
  (prefixed t = true
   <-> String.prefix "https://" t = true \/ String.prefix "http://" t = true
       \/ String.prefix "//" t = true)
  /\ ((exists e, parseURL text = inr e)
      <-> ((len t < 5)%Z
           \/ (exists e, url_Parse (parsed_text t) = inr e)
           \/ (prefixed t = false
               /\ exists u, url_Parse (parsed_text t) = inl u /\ Host u = "")))
  /\ (forall u, parseURL text = inl u ->
                (5 <= len t)%Z /\ url_Parse (parsed_text t) = inl u).
Proof.
  intros t. split; [|split].
  - unfold prefixed. rewrite !starts_with_prefix, !orb_true_iff. tauto.
  - rewrite parseURL_cases. fold t. unfold parsed_text.
    destruct (len t <? 5)%Z eqn:El.
    { split; [intros _; left; lia | intros _; eauto]. }
    destruct (prefixed t) eqn:Ep.
    { split.
      - intros [e He]. right. left. eauto.
      - intros [H | [H | [H _]]]; [lia | exact H | discriminate]. }
    destruct (url_Parse ("http://" +:+ t)) as [u|e] eqn:EP.
    + destruct (String.eqb_spec (Host u) "") as [Hh|Hh].
      * split; [|eauto]. intros _. right. right. eauto.
      * split.
        -- intros [e He]. discriminate.
        -- intros [H | [[e H] | [_ (u' & Hu' & Hh')]]];
             [lia | discriminate | congruence].
    + split; [|eauto]. intros _. right. left. eauto.
  - intros u. rewrite parseURL_cases. fold t. unfold parsed_text.
    destruct (len t <? 5)%Z eqn:El; [discriminate|].
    destruct (prefixed t); [intros ->; split; [lia | reflexivity]|].
    destruct (url_Parse ("http://" +:+ t)) as [u'|e]; [|discriminate].
    destruct (String.eqb (Host u') ""); [discriminate|].
    intros [= ->]. split; [lia | reflexivity].
Qed.

(** C10. Seed input is case-folded: [parseURL] gives the same result on a
    text and on the lowered text, so two texts with the same lowering give
    the same result ([strings.ToLower] leaves a lowered text as it is). *)
Theorem parseURL_lowercase (text text' : string) :
  (forall s, strings_ToLower (strings_ToLower s) = strings_ToLower s) ->
  parseURL text = parseURL (strings_ToLower text)
  /\ (strings_ToLower text = strings_ToLower text' ->
      parseURL text = parseURL text').
Proof.
  intros Hidem. split.
  - unfold parseURL. now rewrite Hidem.
  - intros Heq. unfold parseURL. now rewrite Heq.
Qed.
End ParseURLFacts.

(** C7. The guard against an empty host stands on one branch only.  For
    a lowered text of five bytes or more, [parseURL] returns whatever
    [url.Parse] gives for a text that starts with [https://], [http://] or
    [//], an empty host included, and refuses an empty host only for a text
    with none of these prefixes.  So [http:///x] is accepted with an empty
    host and no error, where an error is claimed, while the same kind of
    address typed as [/xyzw] is refused.  For the accepted one the output
    directory is the folder of the executable itself, and a run with
    [ReplaceOutDir] removes it. *)
Theorem parseURL_empty_host_unguarded :
  (forall (strings_ToLower : string -> string)
          (url_Parse : string -> URL + error) (text : string) (u : URL),
      (5 <= len (strings_ToLower text))%Z ->
      prefixed (strings_ToLower text) = true ->
      url_Parse (strings_ToLower text) = inl u ->
      parseURL strings_ToLower url_Parse text = inl u)
  /\ (forall (strings_ToLower : string -> string)
             (url_Parse : string -> URL + error) (text : string) (u : URL),
         (5 <= len (strings_ToLower text))%Z ->
         prefixed (strings_ToLower text) = false ->
         url_Parse ("http://" +:+ strings_ToLower text) = inl u ->
         Host u = "" ->
         parseURL strings_ToLower url_Parse text = inr ErrAmbiguous)
  /\ parseURL ref_ToLower ref_Parse "http:///x"
     = inl (mkURL "http" "" "" "/x" "" "")
  /\ ~ ((exists e, parseURL ref_ToLower ref_Parse "http:///x" = inr e)
        <-> ((len "http:///x" < 5)%Z
             \/ exists u, ref_Parse (parsed_text "http:///x") = inl u
                          /\ Host u = ""))
  /\ parseURL ref_ToLower ref_Parse "/xyzw" = inr ErrAmbiguous
  /\ (let params := ScannerParams.mk "http:///x" true 10 in
      let w :=
        example_work 7 (example_Os StatIsDir) params
          (fst (Start default_PARALLEL_REQUESTS_MAX 1 params NewScanner)) in
      Scanner.home (work_scanner w) = "/home/out"
      /\ Scanner.dir (work_scanner w) = "/home/out/"
      /\ exists rest,
           work_calls w
           = OsStat "/home/out/" :: OsRemoveAll "/home/out/" :: rest).
Proof.
  split; [|split; [|split; [|split; [|split]]]].
  - intros lower parse text u Hlen Hpre Hparse.
    rewrite parseURL_cases. cbn zeta.
    destruct (Z.ltb_spec (len (lower text)) 5) as [H|_]; [lia|].
    rewrite Hpre. exact Hparse.
  - intros lower parse text u Hlen Hpre Hparse Hhost.
    rewrite parseURL_cases. cbn zeta.
    destruct (Z.ltb_spec (len (lower text)) 5) as [H|_]; [lia|].
    rewrite Hpre, Hparse, Hhost. reflexivity.
  - reflexivity.
  - intros [_ H].
    destruct H as [e He]; [|discriminate].
    right. eexists. split; reflexivity.
  - reflexivity.
  - cbn zeta. split; [reflexivity|]. split; [reflexivity|].
    eexists. vm_compute. reflexivity.
Qed.

Lemma byte_lower_idem (c : ascii) : byte_lower (byte_lower c) = byte_lower c.
Proof. destruct c as [[] [] [] [] [] [] [] []]; reflexivity. Qed.

Lemma ref_ToLower_idem (s : string) : ref_ToLower (ref_ToLower s) = ref_ToLower s.
Proof.
  induction s as [|c s IH]; simpl; [reflexivity|].
  now rewrite byte_lower_idem, IH.
Qed.

Lemma parseURL_lowercase_witness :
  parseURL ref_ToLower ref_Parse "Example.COM/Path"
  = parseURL ref_ToLower ref_Parse "example.com/path"
  /\ parseURL ref_ToLower ref_Parse "Example.COM/Path"
     = inl (mkURL "http" "" "example.com" "/path" "" "").
Proof.
  split; [|reflexivity].
  apply (parseURL_lowercase ref_ToLower ref_Parse
                            "Example.COM/Path" "example.com/path"
                            ref_ToLower_idem).
  reflexivity.
Defined.

(** ** The links of a [srcset] attribute *)

Section SrcsetFacts.
Variable url_Parse : string -> URL + error.
Variable seed : URL.

Abbreviation resolve := (resolve seed).
Abbreviation parseSrcset_inner := (parseSrcset_inner url_Parse seed).
Abbreviation parseSrcset_outer := (parseSrcset_outer url_Parse seed).
Abbreviation parseSrcset := (parseSrcset url_Parse seed).

(** The inner loop parses the whole entry once for each of its
    space-separated pieces. *)
Lemma parseSrcset_inner_links (i : nat) (entry : string) (arr2 : list string) :
  snd (parseSrcset_inner i entry arr2)
  = match url_Parse entry with
    | inl u => repeat (resolve u) (length arr2)
    | inr _ => []
    end.
Proof.
  induction arr2 as [|x arr2 IH]; simpl.
  - destruct (url_Parse entry); reflexivity.
  - destruct (parseSrcset_inner i entry arr2) as [logs res]. simpl in IH.
    destruct (url_Parse entry); simpl; now rewrite IH.
Qed.

Lemma parseSrcset_outer_links (arr : list string) :
  forall i,
  snd (parseSrcset_outer i arr)
  = flat_map (fun entry =>
                match url_Parse entry with
                | inl u => repeat (resolve u)
                                  (length (strings_Split entry " "))
                | inr _ => []
                end) arr.
Proof.
  induction arr as [|entry arr IH]; intros i; simpl; [reflexivity|].
  pose proof (parseSrcset_inner_links i entry (strings_Split entry " ")) as H1.
  destruct (parseSrcset_inner i entry (strings_Split entry " ")) as [l1 r1].
  specialize (IH (S i)).
  destruct (parseSrcset_outer (S i) arr) as [l2 r2].
  simpl in *. now rewrite H1, IH.
Qed.

(** The links [parseSrcset] returns: for each comma-separated entry, the
    URL parsed from the whole entry, as many times as the entry has
    space-separated pieces. *)
Lemma parseSrcset_links (a : Attribute) :
  snd (parseSrcset a)
  = flat_map (fun entry =>
                match url_Parse entry with
                | inl u => repeat (resolve u)
                                  (length (strings_Split entry " "))
                | inr _ => []
                end) (strings_Split (Val a) ",").
Proof. apply parseSrcset_outer_links. Qed.

(** C8. On [srcset="a.png 1x"], one candidate with the URL [a.png] and
    the descriptor [1x], [parseSrcset] calls [url.Parse] on the whole
    entry [a.png 1x] and returns what it gives twice (or nothing when it
    fails): never the one URL parsed from [a.png]. *)
Theorem parseSrcset_whole_entry (key : string) :
  strings_Split "a.png 1x" "," = ["a.png 1x"]
  /\ strings_Split "a.png 1x" " " = ["a.png"; "1x"]
  /\ snd (parseSrcset (mkAttribute key "a.png 1x"))
     = match url_Parse "a.png 1x" with
       | inl u => [resolve u; resolve u]
       | inr _ => []
       end
  /\ length (snd (parseSrcset (mkAttribute key "a.png 1x"))) <> 1.
Proof.
  split; [reflexivity|]. split; [reflexivity|].
  rewrite parseSrcset_links. simpl.
  destruct (url_Parse "a.png 1x"); simpl; split; (reflexivity || lia).
Qed.
End SrcsetFacts.

(** With the reference parser the two links are the entry as a path,
    descriptor and all. *)
Lemma parseSrcset_example :
  snd (parseSrcset ref_Parse example_seed (mkAttribute "srcset" "a.png 1x"))
  = [mkURL "http" "" "example.com" "a.png 1x" "" "";
     mkURL "http" "" "example.com" "a.png 1x" "" ""].
Proof. reflexivity. Qed.

(** ** The limiter *)

Lemma phase_after_app (ph : Phase) (t1 t2 : list Event) :
  phase_after ph (t1 ++ t2)
  = match phase_after ph t1 with
    | Some ph' => phase_after ph' t2
    | None => None
    end.
Proof.
  revert ph. induction t1 as [|e t1 IH]; intros ph; simpl; [reflexivity|].
  destruct (phase_step ph e); [apply IH | reflexivity].
Qed.

Lemma phase_after_stays (ph : Phase) (tr : list Event) :
  Forall (fun e => phase_step ph e = Some ph) tr ->
  phase_after ph tr = Some ph.
Proof.
  induction 1 as [|e tr He _ IH]; simpl; [reflexivity|]. now rewrite He.
Qed.

(** Outside the slot a task may log and start tasks. *)
Lemma logs_stay (ph : Phase) (tr : list Event) :
  Forall (fun e => exists l, e = EvLog l) tr ->
  Forall (fun e => phase_step ph e = Some ph) tr.
Proof.
  intros H. eapply Forall_impl; [exact H|].
  intros e [l ->]. destruct ph; reflexivity.
Qed.

Lemma spawns_stay (links : list URL) :
  Forall (fun e => phase_step AfterSlot e = Some AfterSlot)
         (map EvSpawn links).
Proof. apply Forall_forall. intros e Hin. apply list_elem_of_In, in_map_iff in Hin.
       destruct Hin as (u & <- & _). reflexivity. Qed.

Lemma waitRepeat_phase (try : Z) :
  phase_after InSlot (waitRepeat try) = Some InSlot.
Proof.
  unfold waitRepeat.
  repeat match goal with
         | |- context [if ?b then _ else _] => destruct b
         end; reflexivity.
Qed.

Section LimiterFacts.
Variable url_String : URL -> string.
Variable url_Hostname : URL -> string.
Variable url_Parse : string -> URL + error.
Variable filepath_Clean : string -> string.
Variable PathSeparator : ascii.
Variable filepath_Split : string -> string * string.
Variable filepath_Ext : string -> string.
Variable mime_ExtensionsByType : string -> list string.
Variable http_DetectContentType : string -> string.
Variable html_Parse : string -> option Node.
Variable readTXT_links : string -> list URL.
Variable seed : URL.
Variable dir : string.
Variable RepeatsMax : Z.

Abbreviation loop_body := (loop_body url_String RepeatsMax).
Abbreviation request_loop := (request_loop url_String RepeatsMax).
Abbreviation read_phase :=
  (read_phase url_Parse http_DetectContentType html_Parse readTXT_links seed).
Abbreviation save_phase :=
  (save_phase filepath_Clean PathSeparator filepath_Split filepath_Ext
              mime_ExtensionsByType dir).
Abbreviation scan_obj :=
  (scan_obj url_String url_Parse filepath_Clean PathSeparator filepath_Split
            filepath_Ext mime_ExtensionsByType http_DetectContentType
            html_Parse readTXT_links seed dir RepeatsMax).
Abbreviation scan :=
  (scan url_String url_Hostname url_Parse filepath_Clean PathSeparator
        filepath_Split filepath_Ext mime_ExtensionsByType
        http_DetectContentType html_Parse readTXT_links seed dir RepeatsMax).
Abbreviation scan_trace :=
  (scan_trace url_String url_Hostname url_Parse filepath_Clean PathSeparator
        filepath_Split filepath_Ext mime_ExtensionsByType
        http_DetectContentType html_Parse readTXT_links seed dir RepeatsMax).

(** One pass of the loop stays in the slot, or leaves it when it
    returns. *)
Lemma loop_body_phase (o : Source.t) (att : Attempt) :
  phase_after InSlot (fst (loop_body o att))
  = Some match snd (loop_body o att) with
         | Continue _ | Break _ _ => InSlot
         | Return _ => AfterSlot
         end.
Proof.
  unfold loop_body. destruct att as [|code clen body readErr].
  - destruct (_ >? _)%Z; reflexivity.
  - destruct (code =? 503)%Z.
    { cbn [fst snd]. rewrite phase_after_app. cbn. apply waitRepeat_phase. }
    destruct (code >=? 400)%Z; [reflexivity|].
    destruct readErr; [|reflexivity].
    destruct (_ >? _)%Z; reflexivity.
Qed.

Lemma request_loop_phase (atts : list Attempt) :
  forall o,
  phase_after InSlot (fst (request_loop atts o))
  = Some match snd (request_loop atts o) with
         | Fetched _ _ | Pending _ => InSlot
         | Failed _ => AfterSlot
         end.
Proof.
  induction atts as [|att atts IH]; intros o; [reflexivity|].
  rewrite request_loop_cons.
  pose proof (loop_body_phase o att) as Hb.
  destruct (loop_body o att) as [tr [o'|o' body|o']]; cbn [fst snd] in Hb.
  - specialize (IH o'). destruct (request_loop atts o') as [tr' r].
    cbn [fst snd] in *. now rewrite phase_after_app, Hb.
  - exact Hb.
  - exact Hb.
Qed.

Lemma parseSrcset_inner_logs (i : nat) (entry : string) (arr2 : list string) :
  Forall (fun e => exists l, e = EvLog l)
         (fst (parseSrcset_inner url_Parse seed i entry arr2)).
Proof.
  induction arr2 as [|x arr2 IH]; simpl; [constructor|].
  destruct (parseSrcset_inner url_Parse seed i entry arr2) as [logs res].
  destruct (url_Parse entry); simpl in *; [exact IH|].
  constructor; [eexists; reflexivity | exact IH].
Qed.

Lemma parseSrcset_outer_logs (arr : list string) :
  forall i,
  Forall (fun e => exists l, e = EvLog l)
         (fst (parseSrcset_outer url_Parse seed i arr)).
Proof.
  induction arr as [|entry arr IH]; intros i; simpl; [constructor|].
  pose proof (parseSrcset_inner_logs i entry (strings_Split entry " ")) as H1.
  destruct (parseSrcset_inner url_Parse seed i entry _) as [l1 r1].
  specialize (IH (S i)).
  destruct (parseSrcset_outer url_Parse seed (S i) arr) as [l2 r2].
  simpl in *. apply Forall_app. auto.
Qed.

Lemma attr_events_stay (a : Attribute) :
  Forall (fun e => phase_step AfterSlot e = Some AfterSlot)
         (attr_events url_Parse seed a).
Proof.
  unfold attr_events.
  destruct (_ || _).
  - unfold parseSrc. destruct (url_Parse (Val a)); simpl; repeat constructor.
  - destruct (_ || _).
    + pose proof (parseSrcset_outer_logs (strings_Split (Val a) ",") 0) as H.
      unfold parseSrcset.
      destruct (parseSrcset_outer url_Parse seed 0 _) as [logs links].
      apply Forall_app. split; [apply logs_stay, H | apply spawns_stay].
    + constructor.
Qed.

Lemma walk_stays :
  forall n : Node,
  Forall (fun e => phase_step AfterSlot e = Some AfterSlot)
         (walk url_Parse seed n).
Proof.
  fix IH 1. intros [d attrs cs]. simpl. apply Forall_app. split.
  - induction attrs as [|a attrs IHa]; simpl; [constructor|].
    apply Forall_app. split; [apply attr_events_stay | exact IHa].
  - induction cs as [|c cs IHc]; [constructor|].
    apply Forall_app. split; [apply IH | exact IHc].
Qed.

Lemma read_phase_stays (o : Source.t) (body : string) :
  phase_after AfterSlot (fst (read_phase o body)) = Some AfterSlot.
Proof.
  apply phase_after_stays. unfold read_phase.
  destruct (strings_Contains _ "text/html").
  - unfold readHTML. destruct (html_Parse body) as [doc|]; cbn [fst].
    + constructor; [reflexivity|]. apply Forall_app.
      split; [apply walk_stays | apply spawns_stay].
    + constructor; [reflexivity|]. apply spawns_stay.
  - destruct (ignored_mime _); cbn [fst].
    + repeat constructor.
    + constructor; [reflexivity | apply spawns_stay].
Qed.

Lemma save_phase_stays (o : Source.t) (body : string) (env : Env) :
  phase_after AfterSlot (fst (save_phase o body env)) = Some AfterSlot.
Proof.
  apply phase_after_stays. unfold save_phase.
  destruct (file_name _ _ _ _ _) as [path name].
  pose proof (isParentPath_logs filepath_Clean PathSeparator dir
                                (dir +:+ path +:+ name)) as Hlogs.
  apply (logs_stay AfterSlot) in Hlogs.
  destruct (isParentPath _ _ _ _) as [logs [[e|]|]]; cbn [fst] in *.
  - constructor; [reflexivity|]. apply Forall_app. split; [exact Hlogs|].
    repeat constructor.
  - destruct (mkdirAllErr env); [|destruct (writeFileErr env)]; cbn [fst];
      (constructor; [reflexivity|]); (apply Forall_app; split; [exact Hlogs|]);
      repeat constructor.
  - constructor; [reflexivity | exact Hlogs].
Qed.

Lemma save_phase_ends (o : Source.t) (body : string) (env : Env) :
  match snd (save_phase o body env) with
  | Running _ => False
  | _ => True
  end.
Proof.
  unfold save_phase. destruct (file_name _ _ _ _ _) as [path name].
  destruct (isParentPath _ _ _ _) as [logs [[e|]|]]; cbn [snd]; auto.
  destruct (mkdirAllErr env); [|destruct (writeFileErr env)]; exact I.
Qed.

(** The task body keeps to the phases: it ends outside the slot when it
    returns, and is inside it while the loop runs. *)
Lemma scan_obj_phase (o : Source.t) (env : Env) :
  exists ph,
    phase_after BeforeSlot (fst (scan_obj o env)) = Some ph
    /\ match snd (scan_obj o env) with
       | Returned _ => ph = BeforeSlot \/ ph = AfterSlot
       | Running _ => ph = InSlot
       | Crashed _ => ph = AfterSlot
       end.
Proof.
  unfold scan_obj.
  destruct (_ >? _)%Z; [exists BeforeSlot; split; [reflexivity | now left]|].
  destruct (negb _); [exists BeforeSlot; split; [reflexivity | now left]|].
  destruct (Source.isExternal o);
    [exists BeforeSlot; split; [reflexivity | now left]|].
  pose proof (request_loop_phase (attempts env) o) as Hl.
  destruct (request_loop (attempts env) o) as [tr [o' body|o'|o']];
    cbn [fst snd] in Hl.
  - pose proof (read_phase_stays o' body) as Hr.
    destruct (read_phase o' body) as [tr2 o2].
    pose proof (save_phase_stays o2 body env) as Hs.
    pose proof (save_phase_ends o2 body env) as He.
    destruct (save_phase o2 body env) as [tr3 r]. cbn [fst snd] in *.
    exists AfterSlot. split.
    + cbn [phase_after phase_step]. rewrite phase_after_app, Hl.
      cbn [app phase_after phase_step]. rewrite phase_after_app, Hr.
      exact Hs.
    + destruct r; auto. contradiction.
  - exists AfterSlot. split; [exact Hl | now right].
  - exists InSlot. split; [exact Hl | reflexivity].
Qed.

(** [scan] keeps to the phases. *)
Lemma scan_phase (h : Heap) (s : Sources.t) (url : option URL) (env : Env)
      (h' : Heap) (s' : Sources.t) (tr : list Event) (st : Status) :
  scan h s url env = (h', s', tr, st) ->
  exists ph,
    phase_after BeforeSlot tr = Some ph
    /\ (st = Finished -> ph = BeforeSlot \/ ph = AfterSlot)
    /\ (st = Unfinished -> ph = InSlot).
Proof.
  unfold scan. destruct url as [u|].
  2:{ intros [= <- <- <- <-]. exists BeforeSlot.
      split; [reflexivity|]. split; [now left | discriminate]. }
  destruct (Add _ _ _ h s u) as [[h1 s1] [p ok]].
  destruct ok; cbn [negb].
  2:{ intros [= <- <- <- <-]. exists BeforeSlot.
      split; [reflexivity|]. split; [now left | discriminate]. }
  destruct (h1 !! p) as [o|].
  2:{ intros [= <- <- <- <-]. exists BeforeSlot.
      split; [reflexivity|]. split; discriminate. }
  destruct (scan_obj_phase o env) as (ph & Hph & Hr).
  destruct (scan_obj o env) as [tr1 r]. cbn [fst snd] in *.
  destruct r as [o'|o'|o']; intros [= <- <- <- <-]; exists ph.
  - split; [|split; [auto | discriminate]].
    cbn [app phase_after phase_step]. rewrite phase_after_app, Hph.
    destruct Hr as [-> | ->]; reflexivity.
  - split; [exact Hph|]. split; [discriminate | auto].
  - split; [exact Hph|]. split; discriminate.
Qed.
End LimiterFacts.

(** ** The tasks of a run under the limiter *)

Lemma phase_step_local (ph ph' : Phase) (e : Event) :
  phase_step ph e = Some ph' -> e <> EvAcquire -> e <> EvRelease -> ph' = ph.
Proof.
  destruct ph, e; simpl; try congruence;
    try (destruct st; congruence).
Qed.

Lemma phase_step_acquire (ph ph' : Phase) :
  phase_step ph EvAcquire = Some ph' -> ph = BeforeSlot /\ ph' = InSlot.
Proof. destruct ph; simpl; intros [= <-] || discriminate; auto. Qed.

Lemma phase_step_release (ph ph' : Phase) :
  phase_step ph EvRelease = Some ph' -> ph = InSlot /\ ph' = AfterSlot.
Proof. destruct ph; simpl; intros [= <-] || discriminate; auto. Qed.

Lemma phase_step_fetch (ph ph' : Phase) (e : Event) :
  phase_step ph e = Some ph' ->
  match e with EvGet _ | EvReadAll => ph = InSlot | _ => True end.
Proof. destruct ph, e; simpl; congruence || auto. Qed.

(** On a trace that keeps to the phases, a slot is held exactly in the
    phase [InSlot]. *)
Lemma slot_after_phase (tr : list Event) :
  forall (held : bool) (ph0 ph : Phase),
  held = match ph0 with InSlot => true | _ => false end ->
  phase_after ph0 tr = Some ph ->
  slot_after held tr = match ph with InSlot => true | _ => false end.
Proof.
  induction tr as [|e tr IH]; intros held ph0 ph Hheld; simpl.
  - intros [= <-]. exact Hheld.
  - destruct (phase_step ph0 e) as [ph1|] eqn:Es; [|discriminate].
    intros Hrest.
    destruct e;
      try (apply (IH held ph1 ph); [|exact Hrest];
           apply phase_step_local in Es; [now subst | discriminate
                                                    | discriminate]).
    + apply phase_step_acquire in Es. destruct Es as [_ ->].
      now apply (IH true InSlot ph).
    + apply phase_step_release in Es. destruct Es as [_ ->].
      now apply (IH false AfterSlot ph).
Qed.

Lemma holds_slot_phase (t : Task) (ph : Phase) :
  phase_after BeforeSlot (past t) = Some ph ->
  holds_slot t = match ph with InSlot => true | _ => false end.
Proof. apply slot_after_phase. reflexivity. Qed.

(** The phase a bracketed task is in, and the step its next event makes. *)
Lemma bracketed_next (t : Task) (e : Event) (f : list Event) :
  bracketed (past t ++ future t) ->
  future t = e :: f ->
  exists ph ph',
    phase_after BeforeSlot (past t) = Some ph
    /\ phase_step ph e = Some ph'
    /\ phase_after BeforeSlot (past (advance t)) = Some ph'
    /\ bracketed (past (advance t) ++ future (advance t)).
Proof.
  intros [phe Hb] Hf. rewrite Hf, phase_after_app in Hb.
  destruct (phase_after BeforeSlot (past t)) as [ph|] eqn:Ep; [|discriminate].
  simpl in Hb. destruct (phase_step ph e) as [ph'|] eqn:Es; [|discriminate].
  exists ph, ph'. split; [reflexivity|]. split; [exact Es|].
  unfold advance. rewrite Hf. cbn [past future]. split.
  - rewrite phase_after_app, Ep. simpl. now rewrite Es.
  - exists phe. rewrite <- app_assoc. cbn [app].
    rewrite phase_after_app, Ep. simpl. now rewrite Es.
Qed.

Lemma filter_length_insert (f : Task -> bool) (l : list Task) (i : nat)
      (t t' : Task) :
  l !! i = Some t ->
  length (List.filter f (<[i := t']> l)) + (if f t then 1 else 0)
  = length (List.filter f l) + (if f t' then 1 else 0).
Proof.
  revert i. induction l as [|x l IH]; intros i Hi; [discriminate|].
  destruct i as [|i]; simpl in *.
  - injection Hi as ->. destruct (f t), (f t'); simpl; lia.
  - specialize (IH i Hi). destruct (f x); simpl; lia.
Qed.

Lemma filter_length_le (f g : Task -> bool) (l : list Task) :
  Forall (fun t => f t = true -> g t = true) l ->
  length (List.filter f l) <= length (List.filter g l).
Proof.
  induction 1 as [|x l Hx _ IH]; simpl; [lia|].
  destruct (f x) eqn:Ef; [rewrite (Hx eq_refl); simpl; lia|].
  destruct (g x); simpl; lia.
Qed.

Lemma at_fetch_holds_slot (t : Task) :
  bracketed (past t ++ future t) -> at_fetch t = true -> holds_slot t = true.
Proof.
  intros Hb Hf. unfold at_fetch in Hf.
  destruct (future t) as [|e f] eqn:Ef; [discriminate|].
  rewrite <- Ef in Hb.
  destruct (bracketed_next t e f Hb Ef) as (ph & ph' & Hp & Hs & _).
  rewrite (holds_slot_phase _ _ Hp).
  apply phase_step_fetch in Hs. destruct e; try discriminate; now subst.
Qed.

Section SystemFacts.
Variable task_trace : list Event -> Prop.
Hypothesis task_trace_bracketed : forall tr, task_trace tr -> bracketed tr.
Variable capacity : nat.

(** What every reachable state of the run satisfies. *)
Lemma reachable_invariant (S : System) :
  reachable task_trace (initial_system capacity) S ->
  Chan.cap (limiter S) = capacity
  /\ slots_held S = length (Chan.buf (limiter S))
  /\ length (Chan.buf (limiter S)) <= capacity
  /\ Forall (fun t => bracketed (past t ++ future t)) (tasks S).
Proof.
  induction 1 as [|S S' _ IH Hstep].
  - simpl. repeat split; try reflexivity; [lia | constructor].
  - destruct IH as (Hcap & Hheld & Hle & Hall).
    assert (Hat : forall i t, tasks S !! i = Some t ->
                              bracketed (past t ++ future t)).
    { intros i t Hi. rewrite Forall_forall in Hall. apply Hall.
      eapply list_elem_of_lookup_2; eauto. }
    assert (Hins : forall i t, tasks S !! i = Some t ->
                     bracketed (past (advance t) ++ future (advance t)) ->
                     Forall (fun t => bracketed (past t ++ future t))
                            (<[i := advance t]> (tasks S))).
    { intros i t Hi Hb. apply Forall_insert; assumption. }
    unfold slots_held in *.
    destruct Hstep as [S tr Htr | S i t f Hi Hf Hroom | S i t f v q Hi Hf Hbuf
                      | S i t e f Hi Hf Hna Hnr]; cbn [limiter tasks Chan.cap Chan.buf].
    + split; [exact Hcap|]. split; [|split; [exact Hle|]].
      * rewrite List.filter_app, length_app. simpl. lia.
      * apply Forall_app. split; [exact Hall|]. constructor; [|constructor].
        simpl. now apply task_trace_bracketed.
    + destruct (bracketed_next t _ _ (Hat _ _ Hi) Hf)
        as (ph & ph' & Hp & Hs & Hp' & Hb').
      apply phase_step_acquire in Hs.
      pose proof (filter_length_insert holds_slot _ _ _ (advance t) Hi) as Hc.
      pose proof (holds_slot_phase _ _ Hp) as H1.
      pose proof (holds_slot_phase _ _ Hp') as H2.
      rewrite H1, H2 in Hc. destruct Hs as [-> ->].
      split; [exact Hcap|]. rewrite length_app. simpl.
      split; [lia|]. split; [lia | now apply Hins].
    + destruct (bracketed_next t _ _ (Hat _ _ Hi) Hf)
        as (ph & ph' & Hp & Hs & Hp' & Hb').
      apply phase_step_release in Hs.
      pose proof (filter_length_insert holds_slot _ _ _ (advance t) Hi) as Hc.
      pose proof (holds_slot_phase _ _ Hp) as H1.
      pose proof (holds_slot_phase _ _ Hp') as H2.
      rewrite H1, H2 in Hc. destruct Hs as [-> ->].
      rewrite Hbuf in Hheld, Hle. simpl in Hheld, Hle.
      split; [exact Hcap|]. split; [lia|]. split; [lia | now apply Hins].
    + destruct (bracketed_next t _ _ (Hat _ _ Hi) Hf)
        as (ph & ph' & Hp & Hs & Hp' & Hb').
      apply phase_step_local in Hs; [|assumption|assumption].
      pose proof (filter_length_insert holds_slot _ _ _ (advance t) Hi) as Hc.
      pose proof (holds_slot_phase _ _ Hp) as H1.
      pose proof (holds_slot_phase _ _ Hp') as H2.
      rewrite H1, H2 in Hc. subst ph'.
      split; [exact Hcap|]. split; [|split; [exact Hle | now apply Hins]].
      destruct ph; lia.
Qed.

(** In every reachable state the tasks holding a slot are as many as the
    values queued in the limiter, at most its capacity, and the tasks at a
    request or a body read are among them. *)
Lemma reachable_bounded (S : System) :
  reachable task_trace (initial_system capacity) S ->
  slots_held S = length (Chan.buf (limiter S))
  /\ slots_held S <= capacity
  /\ fetches_in_flight S <= slots_held S.
Proof.
  intros Hr. destruct (reachable_invariant S Hr) as (_ & Hheld & Hle & Hall).
  split; [exact Hheld|]. split; [lia|].
  apply filter_length_le. eapply Forall_impl; [exact Hall|].
  intros t Hb. now apply at_fetch_holds_slot.
Qed.
End SystemFacts.

Section BoundedConcurrency.
Variable url_String : URL -> string.
Variable url_Hostname : URL -> string.
Variable url_Parse : string -> URL + error.
Variable filepath_Clean : string -> string.
Variable PathSeparator : ascii.
Variable filepath_Split : string -> string * string.
Variable filepath_Ext : string -> string.
Variable mime_ExtensionsByType : string -> list string.
Variable http_DetectContentType : string -> string.
Variable html_Parse : string -> option Node.
Variable readTXT_links : string -> list URL.
Variable seed : URL.
Variable dir : string.
Variable RepeatsMax : Z.
Variable PARALLEL_REQUESTS_MAX : nat.

Abbreviation scan :=
  (scan url_String url_Hostname url_Parse filepath_Clean PathSeparator
        filepath_Split filepath_Ext mime_ExtensionsByType
        http_DetectContentType html_Parse readTXT_links seed dir RepeatsMax).
Abbreviation scan_trace :=
  (scan_trace url_String url_Hostname url_Parse filepath_Clean PathSeparator
        filepath_Split filepath_Ext mime_ExtensionsByType
        http_DetectContentType html_Parse readTXT_links seed dir RepeatsMax).

Lemma scan_trace_bracketed (tr : list Event) : scan_trace tr -> bracketed tr.
Proof.
  intros (h & s & url & env & h' & s' & st & Hscan).
  destruct (scan_phase _ _ _ _ _ _ _ _ _ _ _ _ _ _ _ _ _ _ _ _ _ _ Hscan)
    as (ph & Hph & _).
  exists ph. exact Hph.
Qed.

(** C2. Bounded concurrency: every call of [scan] keeps to the phases of
    the limiter: it sends to it at most once, receives from it only after
    that and at most once, requests, reads bodies and sleeps only in
    between, and registers, skips, hands links to new tasks and writes to
    disk only outside; when it returns it holds no slot.  The limiter
    [reset] makes has capacity [PARALLEL_REQUESTS_MAX] and is empty; and in
    every state that any number of tasks running [scan] can reach from it,
    in any interleaving, the tasks holding a slot are as many as the values
    queued in the limiter and at most [PARALLEL_REQUESTS_MAX], and every
    task at a request or a body read is one of them. *)
Theorem limiter_bounds_fetches :
  (forall h s url env h' s' tr st,
     scan h s url env = (h', s', tr, st) ->
     exists ph,
       phase_after BeforeSlot tr = Some ph
       /\ (st = Finished -> ph = BeforeSlot \/ ph = AfterSlot)
       /\ (st = Unfinished -> ph = InSlot))
  /\ (forall sc,
        Scanner.limiter (reset PARALLEL_REQUESTS_MAX sc)
        = Some (limiter (initial_system PARALLEL_REQUESTS_MAX)))
  /\ (forall S,
        reachable scan_trace (initial_system PARALLEL_REQUESTS_MAX) S ->
        slots_held S = length (Chan.buf (limiter S))
        /\ slots_held S <= PARALLEL_REQUESTS_MAX
        /\ fetches_in_flight S <= slots_held S
        /\ fetches_in_flight S <= PARALLEL_REQUESTS_MAX).
Proof.
  split; [|split].
  - intros h s url env h' s' tr st Hscan.
    exact (scan_phase _ _ _ _ _ _ _ _ _ _ _ _ _ _ _ _ _ _ _ _ _ _ Hscan).
  - reflexivity.
  - intros S Hr.
    destruct (reachable_bounded scan_trace scan_trace_bracketed
                                PARALLEL_REQUESTS_MAX S Hr)
      as (H1 & H2 & H3).
    repeat split; [exact H1 | exact H2 | exact H3 | lia].
Qed.
End BoundedConcurrency.

(** ** The properties at concrete inputs *)


Lemma scan_retry_ceiling_witness :
  exists h' s' o',
    example_scan 2 [] newSources (Some example_about)
                 (mkEnv [TransportError; TransportError; TransportError]
                        false false)
    = (h', s',
       [EvThreads 1; EvAdd "http://example.com/about" 0 true;
        EvLog LogNewLink; EvAcquire;
        EvState SourceRequest; EvGet "http://example.com/about";
        EvState SourceRequestWaitRepeat;
        EvState SourceRequest; EvGet "http://example.com/about";
        EvState SourceRequestWaitRepeat;
        EvState SourceRequest; EvGet "http://example.com/about";
        EvState SourceRequestError; EvRelease; EvLog LogRequestExhausted;
        EvThreads (-1); EvDone],
       Finished)
    /\ Source.state o' = SourceRequestError
    /\ Source.repeats o' = 3%Z.
Proof.
  assert (HA : Add ref_String ref_Hostname example_seed [] newSources
                   example_about
               = ([Source.mk example_about SourceWait "" 0 false true
                             None None 0],
                  Sources.mk (<["http://example.com/about" := 0]> ∅) [0],
                  (0, true))) by reflexivity.
  destruct (scan_retry_ceiling ref_String ref_Hostname ref_Parse ref_Clean "/"
              ref_Split ref_Ext example_ExtensionsByType
              example_DetectContentType example_html_Parse
              example_readTXT_links example_seed example_dir 2
              [] newSources example_about _ _ 0 [] false false HA)
    as [(o' & Hscan & Hst & Hr) _].
  - reflexivity.
  - reflexivity.
  - reflexivity.
  - unfold int_max. lia.
  - eexists _, _, o'. split; [exact Hscan|]. split; [exact Hst | exact Hr].
Defined.

Lemma scan_503_backoff_witness :
  exists h' s' o',
    example_scan 0 [] newSources (Some example_about)
                 (mkEnv (repeat (Response 503 0 "" false) 7) false false)
    = (h', s',
       [EvThreads 1; EvAdd "http://example.com/about" 0 true;
        EvLog LogNewLink; EvAcquire]
         ++ concat (map (fun d => [EvState SourceRequest;
                                   EvGet "http://example.com/about";
                                   EvState SourceRequestWaitRepeat;
                                   EvSleep (Millisecond * d)])
                        [200; 500; 1000; 2000; 5000; 8000; 8000]%Z),
       Unfinished)
    /\ Source.repeats o' = 7%Z.
Proof.
  assert (HA : Add ref_String ref_Hostname example_seed [] newSources
                   example_about
               = ([Source.mk example_about SourceWait "" 0 false true
                             None None 0],
                  Sources.mk (<["http://example.com/about" := 0]> ∅) [0],
                  (0, true))) by reflexivity.
  destruct (scan_503_backoff ref_String ref_Hostname ref_Parse ref_Clean "/"
              ref_Split ref_Ext example_ExtensionsByType
              example_DetectContentType example_html_Parse
              example_readTXT_links example_seed example_dir 0)
    as (_ & _ & H).
  destruct (H [] newSources example_about _ _ 0
              (repeat (Response 503 0 "" false) 7) false false HA)
    as (o' & Hscan & Hr & _).
  - reflexivity.
  - reflexivity.
  - reflexivity.
  - repeat constructor; eexists _, _, _; reflexivity.
  - unfold int_max. simpl. lia.
  - eexists _, _, o'. split; [exact Hscan | exact Hr].
Defined.

Lemma isParentPath_containment_witness :
  let o := Source.mk example_escape SourceRead "text/plain; charset=utf-8"
                     5 false true None None 0 in
  ref_Clean (example_dir +:+ "/../../etc/passwd.txt") = "/home/etc/passwd.txt"
  /\ snd (isParentPath ref_Clean "/" example_dir
                       (example_dir +:+ "/../../etc/passwd.txt"))
     = Returns (Some ErrPathOutside)
  /\ exists logs o',
       example_save_phase o "hello" (mkEnv [] false false)
       = (EvState SourceSave
            :: logs ++ [EvState SourceSaveError; EvLog LogBadPath],
          Returned o')
       /\ Source.state o' = SourceSaveError
       /\ Source.err o' = Some ErrPathOutside.
Proof.
  intros o. split; [reflexivity|]. split; [reflexivity|].
  destruct (isParentPath_containment ref_Clean "/" ref_Split ref_Ext
              example_ExtensionsByType example_dir
              example_dir example_dir o "hello" (mkEnv [] false false))
    as (_ & _ & H & _).
  destruct (H ErrPathOutside) as (logs & o' & Hs & _ & Hst & He).
  - reflexivity.
  - exists logs, o'. split; [exact Hs|]. split; [exact Hst | exact He].
Defined.

Lemma limiter_bounds_fetches_witness :
  exists S,
    reachable (example_scan_trace 10)
              (initial_system default_PARALLEL_REQUESTS_MAX) S
    /\ slots_held S = 1
    /\ fetches_in_flight S = 1
    /\ fetches_in_flight S <= default_PARALLEL_REQUESTS_MAX.
Proof.
  assert (Htr : example_scan_trace 10
                  (snd (fst (example_scan 10 [] newSources (Some example_about)
                               (mkEnv [Response 200 5 "hello" false]
                                      false false))))).
  { eexists [], newSources, (Some example_about),
            (mkEnv [Response 200 5 "hello" false] false false), _, _, _.
    vm_compute. reflexivity. }
  assert (Hreach :
            exists S, reachable (example_scan_trace 10)
                                (initial_system default_PARALLEL_REQUESTS_MAX) S
                      /\ slots_held S = 1 /\ fetches_in_flight S = 1).
  { eexists. split.
    - eapply reach_step;
        [eapply reach_step;
          [eapply reach_step;
            [eapply reach_step;
              [eapply reach_step;
                [eapply reach_step; [apply reach_refl|]|]|]|]|]|].
      + apply (step_go _ _ _ Htr).
      + eapply (step_local _ _ 0);
          [reflexivity | reflexivity | discriminate | discriminate].
      + eapply (step_local _ _ 0);
          [reflexivity | reflexivity | discriminate | discriminate].
      + eapply (step_local _ _ 0);
          [reflexivity | reflexivity | discriminate | discriminate].
      + eapply (step_send _ _ 0);
          [reflexivity | reflexivity | vm_compute; lia].
      + eapply (step_local _ _ 0);
          [reflexivity | reflexivity | discriminate | discriminate].
    - split; reflexivity. }
  destruct Hreach as (S & Hr & Hs & Hf).
  exists S. split; [exact Hr|]. split; [exact Hs|]. split; [exact Hf|].
  destruct (limiter_bounds_fetches ref_String ref_Hostname ref_Parse ref_Clean
              "/" ref_Split ref_Ext example_ExtensionsByType
              example_DetectContentType example_html_Parse
              example_readTXT_links example_seed example_dir 10
              default_PARALLEL_REQUESTS_MAX)
    as (_ & _ & H).
  destruct (H S Hr) as (_ & _ & _ & Hle). exact Hle.
Defined.

Example strings_Split_commas :
  strings_Split "a.png 1x, b.png 2x" "," = ["a.png 1x"; " b.png 2x"].
Proof. reflexivity. Qed.

Example strings_Split_empty : strings_Split "" "/" = [""].
Proof. reflexivity. Qed.

Example int_incr_wraps : int_incr 9223372036854775807 = (-9223372036854775808)%Z.
Proof. reflexivity. Qed.

Example waitRepeat_7 : waitRepeat 7 = [EvSleep 8000000000].
Proof. reflexivity. Qed.

Example waitRepeat_0 : waitRepeat 0 = [].
Proof. reflexivity. Qed.

Example isParentPath_inside :
  snd (isParentPath ref_Clean "/" example_dir
                    (example_dir +:+ "/img/" +:+ "logo.png"))
  = Returns None.
Proof. reflexivity. Qed.

Example isParentPath_sibling :
  snd (isParentPath ref_Clean "/" example_dir "/home/out/example.common/a")
  = Returns (Some ErrPathOutside).
Proof. reflexivity. Qed.

Example isParentPath_above :
  snd (isParentPath ref_Clean "/" example_dir (example_dir +:+ "/.."))
  = Returns (Some ErrPathShorter).
Proof. reflexivity. Qed.

Example parseURL_bare :
  parseURL ref_ToLower ref_Parse "Example.com"
  = inl (mkURL "http" "" "example.com" "" "" "").
Proof. reflexivity. Qed.

Example parseURL_short : parseURL ref_ToLower ref_Parse "a.b" = inr ErrTooShort.
Proof. reflexivity. Qed.

Example parseURL_no_host :
  parseURL ref_ToLower ref_Parse "/about" = inr ErrAmbiguous.
Proof. reflexivity. Qed.

Example scan_complete :
  snd (fst (example_scan 10 [] newSources (Some example_about)
                         (mkEnv [Response 200 5 "hello" false] false false)))
  = [EvThreads 1; EvAdd "http://example.com/about" 0 true;
     EvLog LogNewLink; EvAcquire;
     EvState SourceRequest; EvGet "http://example.com/about";
     EvState SourceDownload; EvReadAll; EvRelease;
     EvState SourceRead; EvState SourceSave;
     EvLog (LogPaths [""; "home"; "out"; "example.com"]
                     [""; "home"; "out"; "example.com"; "about.html"]);
     EvMkdirAll "/home/out/example.com/";
     EvWriteFile "/home/out/example.com/about.html" "hello";
     EvState SourceComplete; EvThreads (-1); EvDone].
Proof. vm_compute. reflexivity. Qed.

(** * Further properties *)

(** ** The registry and the listing *)

Section RegistryMore.
Variable url_String : URL -> string.
Variable url_Hostname : URL -> string.
Variable seed : URL.

Abbreviation Add := (Add url_String url_Hostname seed).
Abbreviation AddAll := (AddAll url_String url_Hostname seed).

Lemma AddAll_list (urls : list URL) :
  forall (h : Heap) (s : Sources.t),
  Sources_List (snd (fst (AddAll h s urls)))
  = Sources_List s
      ++ map fst (List.filter (fun r => snd r) (snd (AddAll h s urls))).
Proof.
  induction urls as [|u us IH]; intros h s; simpl.
  - now rewrite app_nil_r.
  - destruct (Add h s u) as [[h1 s1] [p c]] eqn:EA.
    specialize (IH h1 s1).
    destruct (AddAll h1 s1 us) as [[h2 s2] rs]. cbn [fst snd] in *.
    rewrite IH. unfold Add in EA.
    destruct (Sources.m s !! url_String u) as [v|].
    + injection EA as <- <- <- <-. reflexivity.
    + injection EA as <- <- <- <-. unfold Sources_List. cbn.
      now rewrite <- app_assoc.
Qed.

(** X1. [Sources.List] keeps the order of insertion: after any sequence
    of [Add] calls on a fresh registry it lists exactly the references that
    were returned with [created = true], in the order of the calls. *)
Theorem Sources_List_in_order (urls : list URL) (h0 : Heap) :
  Sources_List (snd (fst (AddAll h0 newSources urls)))
  = map fst (List.filter (fun r => snd r) (snd (AddAll h0 newSources urls))).
Proof. rewrite AddAll_list. reflexivity. Qed.

(** X2. Registering the same URL again changes nothing: the second
    [Add] returns the reference of the first with [created = false] and
    leaves the store and the registry as the first left them. *)
Theorem Add_again (h : Heap) (s : Sources.t) (u : URL) :
  let '(h1, s1, (p, _)) := Add h s u in
  Add h1 s1 u = (h1, s1, (p, false)).
Proof.
  unfold Add. destruct (Sources.m s !! url_String u) as [v|] eqn:E.
  - cbn. now rewrite E.
  - cbn. now rewrite lookup_insert_eq.
Qed.
End RegistryMore.

(** ** What a task leaves behind *)

Lemma repObjStatus_recorded (RepeatsMax : Z) (o : Source.t) :
  err_recorded o -> repObjStatus RepeatsMax o <> Panics.
Proof.
  unfold err_recorded, repObjStatus.
  destruct (Source.state o); try discriminate;
    (destruct (Source.err o); [discriminate | congruence]).
Qed.

Lemma registry_ok_update (url_String : URL -> string) (h : Heap)
      (s : Sources.t) (p : nat) (o o' : Source.t) :
  registry_ok url_String h s ->
  h !! p = Some o ->
  Source.url o' = Source.url o ->
  registry_ok url_String (<[p := o']> h) s.
Proof.
  intros Hok Hp Hu. split.
  - intros k q Hk. pose proof (ok_key _ _ _ Hok _ _ Hk) as Hq.
    unfold key_at in *. destruct (decide (q = p)) as [->|Hne].
    + rewrite list_lookup_insert_eq by (eapply lookup_lt_Some; eauto).
      rewrite Hp in Hq. simpl in *. now rewrite Hu.
    + now rewrite list_lookup_insert_ne by congruence.
  - apply (ok_listed _ _ _ Hok).
  - apply (ok_nodup _ _ _ Hok).
Qed.

Section TaskMore.
Variable url_String : URL -> string.
Variable url_Hostname : URL -> string.
Variable url_Parse : string -> URL + error.
Variable filepath_Clean : string -> string.
Variable PathSeparator : ascii.
Variable filepath_Split : string -> string * string.
Variable filepath_Ext : string -> string.
Variable mime_ExtensionsByType : string -> list string.
Variable http_DetectContentType : string -> string.
Variable html_Parse : string -> option Node.
Variable readTXT_links : string -> list URL.
Variable seed : URL.
Variable dir : string.
Variable RepeatsMax : Z.

Abbreviation Add := (Add url_String url_Hostname seed).
Abbreviation loop_body := (loop_body url_String RepeatsMax).
Abbreviation request_loop := (request_loop url_String RepeatsMax).
Abbreviation isParentPath := (isParentPath filepath_Clean PathSeparator).
Abbreviation file_name :=
  (file_name filepath_Split filepath_Ext mime_ExtensionsByType).
Abbreviation read_phase :=
  (read_phase url_Parse http_DetectContentType html_Parse readTXT_links seed).
Abbreviation save_phase :=
  (save_phase filepath_Clean PathSeparator filepath_Split filepath_Ext
              mime_ExtensionsByType dir).
Abbreviation scan_obj :=
  (scan_obj url_String url_Parse filepath_Clean PathSeparator filepath_Split
            filepath_Ext mime_ExtensionsByType http_DetectContentType
            html_Parse readTXT_links seed dir RepeatsMax).
Abbreviation scan :=
  (scan url_String url_Hostname url_Parse filepath_Clean PathSeparator
        filepath_Split filepath_Ext mime_ExtensionsByType
        http_DetectContentType html_Parse readTXT_links seed dir RepeatsMax).
Abbreviation new_Source u :=
  (Source.mk u SourceWait "" 0%Z
             (negb (String.eqb (url_Hostname seed) (url_Hostname u)))
             (IsInterstingProtocol u) None None 0%Z).

(** The fields of a resource that are fixed when it is created. *)
Abbreviation same_identity o o' :=
  (Source.url o' = Source.url o
   /\ Source.isExternal o' = Source.isExternal o
   /\ Source.isInteresting o' = Source.isInteresting o).

Lemma loop_body_keeps (o : Source.t) (att : Attempt) :
  match snd (loop_body o att) with
  | Continue o' | Break o' _ | Return o' =>
      same_identity o o' /\ (err_recorded o -> err_recorded o')
  end.
Proof.
  unfold loop_body, err_recorded.
  destruct att as [|code clen body readErr]; simpl.
  - destruct (_ >? _)%Z; simpl; repeat split; auto; discriminate.
  - destruct (code =? 503)%Z; [simpl; repeat split; auto|].
    destruct (code >=? 400)%Z; [simpl; repeat split; auto; discriminate|].
    destruct readErr.
    + destruct (_ >? _)%Z; destruct (clen >? 0)%Z; simpl; repeat split; auto;
        discriminate.
    + destruct (clen >? 0)%Z; simpl; repeat split; auto.
Qed.

Lemma request_loop_keeps (atts : list Attempt) :
  forall o,
  match snd (request_loop atts o) with
  | Fetched o' _ | Failed o' | Pending o' =>
      same_identity o o' /\ (err_recorded o -> err_recorded o')
  end.
Proof.
  induction atts as [|att atts IH]; intros o; [simpl; tauto|].
  rewrite request_loop_cons.
  pose proof (loop_body_keeps o att) as Hb.
  destruct (loop_body o att) as [tr [o1|o1 body|o1]]; cbn [snd] in *;
    try exact Hb.
  specialize (IH o1). destruct (request_loop atts o1) as [tr' r].
  cbn [snd] in *. destruct Hb as [(H1 & H2 & H3) He].
  destruct r; destruct IH as [(H1' & H2' & H3') He'];
    (split; [repeat split; congruence | tauto]).
Qed.

Lemma read_phase_keeps (o : Source.t) (body : string) :
  same_identity o (snd (read_phase o body))
  /\ Source.state (snd (read_phase o body)) = SourceRead
  /\ Source.mime (snd (read_phase o body)) = http_DetectContentType body
  /\ Source.size (snd (read_phase o body)) = Source.size o
  /\ Source.repeats (snd (read_phase o body)) = Source.repeats o
  /\ Source.err (snd (read_phase o body)) = Source.err o.
Proof.
  unfold read_phase, readHTML.
  destruct (strings_Contains _ "text/html").
  - destruct (html_Parse body); simpl; repeat split.
  - destruct (ignored_mime _); simpl; repeat split.
Qed.

Lemma isParentPath_returns (parent child : string) :
  exists r, snd (isParentPath parent child) = Returns r.
Proof.
  unfold isParentPath.
  set (p := strings_Split (filepath_Clean parent) PathSeparator).
  set (c := strings_Split (filepath_Clean child) PathSeparator).
  destruct (_ || _); [eexists; reflexivity|].
  destruct (_ <? _)%nat eqn:El; [eexists; reflexivity|].
  apply Nat.ltb_ge in El. cbn [snd].
  destruct (components_differ_spec p c (seq 0 (length p)) El) as (b & -> & _).
  - apply Forall_forall. intros i Hi. apply list_elem_of_In, in_seq in Hi. lia.
  - destruct b; eexists; reflexivity.
Qed.

Lemma save_phase_keeps (o : Source.t) (body : string) (env : Env) :
  match snd (save_phase o body env) with
  | Returned o' => same_identity o o' /\ err_recorded o'
  | Running _ | Crashed _ => False
  end.
Proof.
  unfold save_phase. destruct (file_name _ _) as [path name].
  destruct (isParentPath_returns dir (dir +:+ path +:+ name)) as [r Hr].
  destruct (isParentPath dir (dir +:+ path +:+ name)) as [logs r'].
  cbn [snd] in Hr. subst r'. unfold err_recorded.
  destruct r as [e|]; cbn [snd].
  - simpl. repeat split. discriminate.
  - destruct (mkdirAllErr env); [|destruct (writeFileErr env)]; simpl;
      repeat split; discriminate.
Qed.

(** The task body never stops by a panic, keeps the fields fixed at
    creation, and leaves an error recorded with every error state. *)
Lemma scan_obj_keeps (o : Source.t) (env : Env) :
  match snd (scan_obj o env) with
  | Returned o' | Running o' =>
      same_identity o o' /\ (err_recorded o -> err_recorded o')
  | Crashed _ => False
  end.
Proof.
  unfold scan_obj.
  destruct (_ >? _)%Z; [cbv [err_recorded]; simpl; repeat split; auto|].
  destruct (negb _); [cbv [err_recorded]; simpl; repeat split; auto|].
  destruct (Source.isExternal o) eqn:Ex;
    [cbv [err_recorded]; simpl; repeat split; auto|].
  pose proof (request_loop_keeps (attempts env) o) as Hl.
  destruct (request_loop (attempts env) o) as [tr [o1 body|o1|o1]];
    cbn [snd] in *;
    try (destruct Hl as [(A1 & A2 & A3) He];
         split; [repeat split; congruence | exact He]).
  pose proof (read_phase_keeps o1 body) as (Hr & _).
  destruct (read_phase o1 body) as [tr2 o2]. cbn [snd] in Hr.
  pose proof (save_phase_keeps o2 body env) as Hs.
  destruct (save_phase o2 body env) as [tr3 r]. cbn [snd] in *.
  destruct r as [o3|o3|o3]; try contradiction.
  destruct Hl as [(A1 & A2 & A3) _], Hr as (B1 & B2 & B3),
           Hs as [(C1 & C2 & C3) He].
  split; [repeat split; congruence | auto].
Qed.

(** X3. [scan] keeps the registry well formed and never stops by a panic;
    it leaves every resource that was in the store untouched, adding at
    most one resource at the end. *)
Theorem scan_keeps_registry (h : Heap) (s : Sources.t) (url : option URL)
        (env : Env) (h' : Heap) (s' : Sources.t) (tr : list Event)
        (st : Status) :
  registry_ok url_String h s ->
  scan h s url env = (h', s', tr, st) ->
  registry_ok url_String h' s'
  /\ (exists ext, h' = h ++ ext /\ length ext <= 1)
  /\ st <> Panicked.
Proof.
  intros Hok. unfold scan. destruct url as [u|].
  2:{ intros [= <- <- <- <-]. split; [exact Hok|].
      split; [exists nil; rewrite app_nil_r; simpl; auto | discriminate]. }
  destruct (Add h s u) as [[h1 s1] [p ok]] eqn:EA.
  destruct (Add_spec _ _ _ _ _ _ _ _ _ _ Hok EA)
    as (Hok1 & [ext Hext] & _ & Hc & Hnew & _).
  destruct ok; cbn [negb].
  2:{ intros [= <- <- <- <-]. split; [exact Hok1|].
      unfold Add in EA.
      destruct (Sources.m s !! url_String u); [|discriminate].
      injection EA as <- _ _. split; [|discriminate].
      exists nil. rewrite app_nil_r. simpl. auto. }
  destruct (Add_created _ _ _ _ _ _ _ _ _ EA) as (-> & -> & Hp & _).
  rewrite Hp.
  pose proof (scan_obj_keeps (new_Source u) env) as Hk.
  destruct (scan_obj (new_Source u) env) as [tr1 r]. cbn [snd] in Hk.
  assert (Hins : forall o', <[length h := o']> (h ++ [new_Source u])
                            = h ++ [o']).
  { intros o'. rewrite insert_app_r_alt by lia.
    now rewrite Nat.sub_diag. }
  destruct r as [o'|o'|o']; try contradiction;
    intros [= <- <- <- <-]; destruct Hk as [(Hu & _) _];
    (split; [eapply registry_ok_update; eauto|]);
    (split; [|discriminate]); exists [o']; (split; [apply Hins | simpl; lia]).
Qed.

(** X4. The fields fixed at creation stay as [Add] set them: whatever a
    task does on a newly registered URL, the resource it leaves has that
    URL, is external exactly when the URL's host name is not the seed's,
    and is interesting exactly when the scheme is [http], [https] or
    [file]. *)
Theorem scan_keeps_identity (h : Heap) (s : Sources.t) (u : URL) (env : Env)
        (h1 h' : Heap) (s1 s' : Sources.t) (p : nat) (tr : list Event)
        (st : Status) :
  Add h s u = (h1, s1, (p, true)) ->
  scan h s (Some u) env = (h', s', tr, st) ->
  exists o',
    h' !! p = Some o'
    /\ Source.url o' = u
    /\ (Source.isExternal o' = true <-> url_Hostname seed <> url_Hostname u)
    /\ (Source.isInteresting o' = true
        <-> Scheme u = "http" \/ Scheme u = "https" \/ Scheme u = "file").
Proof.
  intros HA. rewrite (scan_created _ _ _ _ _ _ _ _ _ _ _ _ _ _ _ _ _ _ _ _ _
                                   HA).
  destruct (Add_created _ _ _ _ _ _ _ _ _ HA) as (-> & -> & Hp & _).
  pose proof (scan_obj_keeps (new_Source u) env) as Hk.
  destruct (scan_obj (new_Source u) env) as [tr1 r]. cbn [snd] in Hk.
  assert (Hfin : forall o', same_identity (new_Source u) o' ->
     exists o'', <[length h := o']> (h ++ [new_Source u]) !! length h = Some o''
       /\ Source.url o'' = u
       /\ (Source.isExternal o'' = true
           <-> url_Hostname seed <> url_Hostname u)
       /\ (Source.isInteresting o'' = true
           <-> Scheme u = "http" \/ Scheme u = "https" \/ Scheme u = "file")).
  { intros o' (Hu & He & Hi). exists o'. split.
    - apply list_lookup_insert_eq. rewrite length_app. simpl. lia.
    - split; [exact Hu|]. rewrite He, Hi. cbn. split.
      + rewrite negb_true_iff. split.
        * intros H. now apply String.eqb_neq.
        * intros H. now apply String.eqb_neq.
      + apply IsInterstingProtocol_iff. }
  destruct r as [o'|o'|o']; try contradiction;
    intros [= <- <- <- <-]; apply Hfin; tauto.
Qed.

(** X5. Every error state comes with its error: if each resource of the
    store has an error recorded whenever its state is
    [SourceRequestError], [SourceDownloadError] or [SourceSaveError], the
    same holds after [scan], so [repObjStatus] can format every resource
    without calling [Error] on a nil error. *)
Theorem scan_records_errors (h : Heap) (s : Sources.t) (url : option URL)
        (env : Env) (h' : Heap) (s' : Sources.t) (tr : list Event)
        (st : Status) (shown_max : Z) :
  Forall err_recorded h ->
  scan h s url env = (h', s', tr, st) ->
  Forall err_recorded h'
  /\ Forall (fun o => repObjStatus shown_max o <> Panics) h'.
Proof.
  intros Hall Hscan.
  assert (Hrec : Forall err_recorded h').
  { revert Hscan. unfold scan. destruct url as [u|].
    2:{ intros [= <- <- <- <-]. exact Hall. }
    destruct (Add h s u) as [[h1 s1] [p ok]] eqn:EA.
    destruct ok; cbn [negb].
    2:{ unfold Add in EA. destruct (Sources.m s !! url_String u);
          [|discriminate].
        injection EA as <- _ _. intros [= <- <- <- <-]. exact Hall. }
    destruct (Add_created _ _ _ _ _ _ _ _ _ EA) as (-> & -> & Hp & _).
    rewrite Hp.
    pose proof (scan_obj_keeps (new_Source u) env) as Hk.
    destruct (scan_obj (new_Source u) env) as [tr1 r]. cbn [snd] in Hk.
    assert (Hnew : err_recorded (new_Source u)) by exact I.
    destruct r as [o'|o'|o']; try contradiction;
      intros [= <- <- <- <-]; destruct Hk as [_ He];
      (rewrite insert_app_r_alt by lia); rewrite Nat.sub_diag; cbn;
      (apply Forall_app; split; [exact Hall|]);
      (constructor; [auto | constructor]). }
  split; [exact Hrec|].
  eapply Forall_impl; [exact Hrec|]. intros o. apply repObjStatus_recorded.
Qed.

Lemma requests_app (t1 t2 : list Event) :
  requests (t1 ++ t2) = requests t1 + requests t2.
Proof. unfold requests. now rewrite List.filter_app, length_app. Qed.

Lemma requests_outside (tr : list Event) (ph : Phase) :
  phase_after AfterSlot tr = Some ph -> requests tr = 0.
Proof.
  revert ph. induction tr as [|e tr IH]; intros ph; [reflexivity|].
  cbn [phase_after].
  destruct (phase_step AfterSlot e) as [ph'|] eqn:Es;
    [|intros H; discriminate H].
  intros H. assert (ph' = AfterSlot) by (destruct e; simpl in Es; congruence).
  subst ph'. unfold requests in *. cbn [List.filter].
  destruct e; try (eapply IH; eassumption). simpl in Es. discriminate Es.
Qed.

(** X6. An error status other than 503 ends the task at once: for a
    response with a status of 400 or more that is not 503, the task makes
    that one request, sets [SourceRequestError] with the status as error,
    gives the slot back and returns; the attempt is not counted and
    [RepeatsMax] plays no part. *)
Theorem scan_error_status (h : Heap) (s : Sources.t) (u : URL)
        (h1 : Heap) (s1 : Sources.t) (p : nat)
        (code clen : Z) (body : string) (readErr : bool)
        (rest : list Attempt) (mk wr : bool) :
  Add h s u = (h1, s1, (p, true)) ->
  (len (url_String u) >? 1000)%Z = false ->
  IsInterstingProtocol u = true ->
  String.eqb (url_Hostname seed) (url_Hostname u) = true ->
  (400 <= code)%Z -> code <> 503%Z ->
  exists o',
    scan h s (Some u) (mkEnv (Response code clen body readErr :: rest) mk wr)
    = (<[p := o']> h1, s1,
       [EvThreads 1; EvAdd (url_String u) p true; EvLog LogNewLink;
        EvAcquire; EvState SourceRequest; EvGet (url_String u);
        EvState SourceRequestError; EvRelease; EvLog (LogStatus code);
        EvThreads (-1); EvDone],
       Finished)
    /\ Source.state o' = SourceRequestError
    /\ Source.err o' = Some (ErrStatus code)
    /\ Source.repeats o' = 0%Z.
Proof.
  intros HA Hlen Hint Hhost Hcode H503.
  rewrite (scan_created _ _ _ _ _ _ _ _ _ _ _ _ _ _ _ _ _ _ _ _ _ HA).
  rewrite scan_obj_fetches; [| exact Hlen | exact Hint | simpl; now rewrite Hhost].
  cbn [attempts]. rewrite request_loop_cons. unfold loop_body.
  destruct (code =? 503)%Z eqn:E1; [lia|].
  destruct (code >=? 400)%Z eqn:E2; [|lia].
  eexists. split; [reflexivity|]. repeat split.
Qed.

(** X7. A clean download is saved as it came: when the first response is
    accepted and its body is read without error, the path check passes and
    the file system reports no error, the task makes exactly one request,
    ends by creating the directory and writing the body read to
    [dir + path + name], and leaves the resource in [SourceComplete] with
    the length of the body as size, the sniffed type as mime, no error and
    a zero retry counter. *)
Theorem scan_saves_body (h : Heap) (s : Sources.t) (u : URL)
        (h1 : Heap) (s1 : Sources.t) (p : nat)
        (code clen : Z) (body : string) (rest : list Attempt) :
  let mim := http_DetectContentType body in
  let target :=
    dir +:+ fst (file_name (new_Source u) mim)
        +:+ snd (file_name (new_Source u) mim) in
  Add h s u = (h1, s1, (p, true)) ->
  (len (url_String u) >? 1000)%Z = false ->
  IsInterstingProtocol u = true ->
  String.eqb (url_Hostname seed) (url_Hostname u) = true ->
  accepted code ->
  snd (isParentPath dir target) = Returns None ->
  exists o' before,
    scan h s (Some u)
         (mkEnv (Response code clen body false :: rest) false false)
    = (<[p := o']> h1, s1,
       before ++ [EvMkdirAll (dir +:+ fst (file_name (new_Source u) mim));
                  EvWriteFile target body; EvState SourceComplete;
                  EvThreads (-1); EvDone],
       Finished)
    /\ requests before = 1
    /\ Source.state o' = SourceComplete
    /\ Source.size o' = len body
    /\ Source.mime o' = mim
    /\ Source.err o' = None
    /\ Source.repeats o' = 0%Z.
Proof.
  intros mim target HA Hlen Hint Hhost Hacc Hcheck.
  destruct (accepted_tests _ Hacc) as [E1 E2].
  rewrite (scan_created _ _ _ _ _ _ _ _ _ _ _ _ _ _ _ _ _ _ _ _ _ HA).
  rewrite scan_obj_fetches; [| exact Hlen | exact Hint | simpl; now rewrite Hhost].
  cbn [attempts]. rewrite request_loop_cons. unfold loop_body.
  rewrite E1, E2.
  match goal with
  | |- context [read_phase ?o1 body] =>
      pose proof (read_phase_keeps o1 body) as (Hid & Hst & Hm & Hsz & Hrp & Her);
      pose proof (read_phase_stays url_Parse http_DetectContentType html_Parse
                    readTXT_links seed o1 body) as Hstay;
      destruct (read_phase o1 body) as [tr2 o2] eqn:ER
  end.
  cbn [fst snd] in *.
  unfold save_phase.
  assert (Hfn : file_name (Source.set_state SourceSave o2)
                          (Source.mime (Source.set_state SourceSave o2))
                = file_name (new_Source u) mim).
  { unfold file_name. cbn [Source.mime Source.url Source.set_state].
    destruct Hid as (-> & _). rewrite Hm.
    destruct (clen >? 0)%Z; reflexivity. }
  rewrite Hfn. unfold target in Hcheck.
  destruct (file_name (new_Source u) mim) as [path name]. cbn [fst snd] in *.
  pose proof (isParentPath_logs filepath_Clean PathSeparator dir
                                (dir +:+ path +:+ name)) as Hlogs.
  destruct (isParentPath dir (dir +:+ path +:+ name)) as [logs r].
  cbn [fst snd] in *. subst r. cbn [mkdirAllErr writeFileErr].
  eexists _, ([EvThreads 1; EvAdd (url_String u) p true; EvLog LogNewLink;
               EvAcquire; EvState SourceRequest; EvGet (url_String u);
               EvState SourceDownload; EvReadAll; EvRelease]
                ++ tr2 ++ EvState SourceSave :: logs).
  split; [|split].
  - cbn [app Source.url Source.set_state]. 
    destruct (clen >? 0)%Z; cbn [Source.url Source.set_state Source.set_size];
      repeat (rewrite <- ?app_assoc; cbn [app]); reflexivity.
  - rewrite requests_app. cbn. rewrite requests_app.
    rewrite (requests_outside tr2 _ Hstay).
    apply (logs_stay AfterSlot) in Hlogs. apply phase_after_stays in Hlogs.
    change (EvState SourceSave :: logs) with ([EvState SourceSave] ++ logs).
    rewrite requests_app, (requests_outside logs _ Hlogs). reflexivity.
  - cbn. rewrite Hm, Hsz, Hrp, Her.
    destruct (clen >? 0)%Z; repeat split.
Qed.

Lemma requests_cons (e : Event) (tr : list Event) :
  requests (e :: tr)
  = (match e with EvGet _ => 1 | _ => 0 end + requests tr)%nat.
Proof. unfold requests. simpl. destruct e; reflexivity. Qed.

Lemma loop_body_requests (o : Source.t) (att : Attempt) :
  requests (fst (loop_body o att)) = 1.
Proof.
  unfold loop_body. destruct att as [|code clen body readErr].
  - destruct (_ >? _)%Z; reflexivity.
  - destruct (code =? 503)%Z.
    { cbn [fst]. rewrite requests_app. unfold waitRepeat.
      repeat match goal with
             | |- context [if ?b then _ else _] => destruct b
             end; reflexivity. }
    destruct (code >=? 400)%Z; [reflexivity|].
    destruct readErr; [|reflexivity].
    destruct (_ >? _)%Z; reflexivity.
Qed.

(** Without 503 answers the counter bounds the loop: the requests made
    and the failures counted before stay within [RepeatsMax + 1], and the
    answers can only run out before the loop ends when fewer than
    [RepeatsMax + 1] of them were left. *)
Lemma request_loop_bound (atts : list Attempt) :
  forall o,
  forallb (fun a => negb (is_503 a)) atts = true ->
  (0 <= Source.repeats o <= RepeatsMax)%Z ->
  (RepeatsMax < int_max)%Z ->
  (Z.of_nat (requests (fst (request_loop atts o))) + Source.repeats o
   <= RepeatsMax + 1)%Z
  /\ match snd (request_loop atts o) with
     | Pending _ =>
         (Z.of_nat (length atts) + Source.repeats o <= RepeatsMax)%Z
     | _ => True
     end.
Proof.
  induction atts as [|att atts IH]; intros o Hno Hr Hmax.
  - simpl. split; [unfold requests; simpl; lia | lia].
  - simpl in Hno. apply andb_true_iff in Hno. destruct Hno as [Hno1 Hno].
    rewrite request_loop_cons.
    pose proof (loop_body_requests o att) as Hone.
    assert (Hcont : forall o1, snd (loop_body o att) = Continue o1 ->
                               Source.repeats o1 = (Source.repeats o + 1)%Z
                               /\ (Source.repeats o + 1 <= RepeatsMax)%Z).
    { intros o1. unfold loop_body.
      destruct att as [|code clen body readErr]; simpl in Hno1 |- *.
      - rewrite int_incr_in_range by (unfold int_min, int_max in *; simpl; lia).
        destruct (_ >? _)%Z eqn:E; [discriminate|].
        intros [= <-]; simpl. lia.
      - apply negb_true_iff in Hno1. rewrite Hno1.
        destruct (code >=? 400)%Z; [discriminate|].
        destruct readErr; [|discriminate].
        destruct (clen >? 0)%Z; simpl;
          rewrite int_incr_in_range by (unfold int_min, int_max in *; simpl; lia);
          (destruct (_ >? _)%Z eqn:E; [discriminate|]);
          intros [= <-]; simpl; lia. }
    destruct (loop_body o att) as [tr [o1|o1 body|o1]]; cbn [fst snd] in *.
    + destruct (Hcont o1 eq_refl) as [Hr1 Hle].
      destruct (IH o1 Hno) as [Hreq Hpend]; [lia | exact Hmax |].
      destruct (request_loop atts o1) as [tr' r]. cbn [fst snd] in *.
      rewrite requests_app, Hone. split; [lia|].
      destruct r; auto. simpl length. lia.
    + rewrite Hone. split; [lia | exact I].
    + rewrite Hone. split; [lia | exact I].
Qed.

(** X8. Without 503 answers the retry limit bounds the whole task: with
    [0 <= RepeatsMax] (below the largest [int]) and at least
    [RepeatsMax + 1] answers at hand, none of them 503, a task on a newly
    registered URL returns, whatever mix of transport failures, error
    statuses, failed and successful reads the answers are, and it makes at
    most [RepeatsMax + 1] requests. *)
Theorem scan_without_503_ends (h : Heap) (s : Sources.t) (u : URL)
        (h1 h' : Heap) (s1 s' : Sources.t) (p : nat)
        (atts : list Attempt) (mk wr : bool) (tr : list Event) (st : Status) :
  Add h s u = (h1, s1, (p, true)) ->
  (0 <= RepeatsMax < int_max)%Z ->
  forallb (fun a => negb (is_503 a)) atts = true ->
  (RepeatsMax + 1 <= Z.of_nat (length atts))%Z ->
  scan h s (Some u) (mkEnv atts mk wr) = (h', s', tr, st) ->
  st = Finished /\ (Z.of_nat (requests tr) <= RepeatsMax + 1)%Z.
Proof.
  intros HA Hmax Hno Hlen.
  rewrite (scan_created _ _ _ _ _ _ _ _ _ _ _ _ _ _ _ _ _ _ _ _ _ HA).
  unfold scan_obj.
  destruct (_ >? _)%Z;
    [intros [= <- <- <- <-]; split; [reflexivity | unfold requests; simpl; lia]|].
  destruct (negb _);
    [intros [= <- <- <- <-]; split; [reflexivity | unfold requests; simpl; lia]|].
  destruct (Source.isExternal _);
    [intros [= <- <- <- <-]; split; [reflexivity | unfold requests; simpl; lia]|].
  cbn [attempts].
  destruct (request_loop_bound atts (new_Source u) Hno) as [Hreq Hpend];
    [simpl; lia | lia |].
  cbn [Source.repeats] in Hreq, Hpend.
  destruct (request_loop atts (new_Source u)) as [tr1 [o1 body|o1|o1]];
    cbn [fst snd] in *.
  - pose proof (read_phase_stays url_Parse http_DetectContentType html_Parse
                  readTXT_links seed o1 body) as Hr.
    destruct (read_phase o1 body) as [tr2 o2].
    pose proof (save_phase_stays filepath_Clean PathSeparator filepath_Split
                  filepath_Ext mime_ExtensionsByType dir o2 body
                  (mkEnv atts mk wr)) as Hs.
    pose proof (save_phase_keeps o2 body (mkEnv atts mk wr)) as Hk.
    destruct (save_phase o2 body (mkEnv atts mk wr)) as [tr3 r].
    cbn [fst snd] in *.
    destruct r as [o3|o3|o3]; try contradiction.
    intros [= <- <- <- <-]. split; [reflexivity|].
    repeat (rewrite requests_cons || rewrite requests_app).
    rewrite (requests_outside _ _ Hr), (requests_outside _ _ Hs).
    change (requests []) with 0%nat. lia.
  - intros [= <- <- <- <-]. split; [reflexivity|].
    repeat (rewrite requests_cons || rewrite requests_app).
    change (requests []) with 0%nat. lia.
  - lia.
Qed.
End TaskMore.

(** ** The task's properties at concrete inputs *)

Lemma scan_keeps_registry_witness :
  let '(h', s', tr, st) :=
    example_scan 10 [] newSources (Some example_about)
                 (mkEnv [Response 200 5 "hello" false] false false) in
  registry_ok ref_String h' s'
  /\ (exists ext, h' = [] ++ ext /\ length ext <= 1)
  /\ st <> Panicked.
Proof.
  destruct (example_scan 10 [] newSources (Some example_about)
              (mkEnv [Response 200 5 "hello" false] false false))
    as [[[h' s'] tr] st] eqn:HS.
  exact (scan_keeps_registry ref_String ref_Hostname ref_Parse ref_Clean "/"
           ref_Split ref_Ext example_ExtensionsByType
           example_DetectContentType example_html_Parse
           example_readTXT_links example_seed example_dir 10
           [] newSources (Some example_about) _ _ _ _ _
           (registry_ok_new ref_String []) HS).
Defined.

Lemma scan_keeps_identity_witness :
  exists o',
    fst (fst (fst (example_scan 10 [] newSources (Some example_logo)
                     (mkEnv [Response 503 0 "" false; TransportError]
                            false true)))) !! 0
    = Some o'
    /\ Source.url o' = example_logo
    /\ (Source.isExternal o' = true
        <-> ref_Hostname example_seed <> ref_Hostname example_logo)
    /\ (Source.isInteresting o' = true
        <-> Scheme example_logo = "http" \/ Scheme example_logo = "https"
            \/ Scheme example_logo = "file").
Proof.
  assert (HA : Add ref_String ref_Hostname example_seed [] newSources
                   example_logo
               = ([Source.mk example_logo SourceWait "" 0 false true
                             None None 0],
                  Sources.mk (<["http://example.com/logo.png" := 0]> ∅) [0],
                  (0, true))) by reflexivity.
  destruct (example_scan 10 [] newSources (Some example_logo)
              (mkEnv [Response 503 0 "" false; TransportError] false true))
    as [[[h' s'] tr] st] eqn:HS.
  exact (scan_keeps_identity ref_String ref_Hostname ref_Parse ref_Clean "/"
           ref_Split ref_Ext example_ExtensionsByType
           example_DetectContentType example_html_Parse
           example_readTXT_links example_seed example_dir 10
           [] newSources example_logo _ _ _ _ _ 0 _ _ HA HS).
Defined.

Lemma scan_records_errors_witness :
  let '(h', s', tr, st) :=
    example_scan 0 [] newSources (Some example_about)
                 (mkEnv [TransportError] false false) in
  Forall err_recorded h'
  /\ Forall (fun o => repObjStatus 0 o <> Panics) h'.
Proof.
  destruct (example_scan 0 [] newSources (Some example_about)
              (mkEnv [TransportError] false false))
    as [[[h' s'] tr] st] eqn:HS.
  exact (scan_records_errors ref_String ref_Hostname ref_Parse ref_Clean "/"
           ref_Split ref_Ext example_ExtensionsByType
           example_DetectContentType example_html_Parse
           example_readTXT_links example_seed example_dir 0
           [] newSources (Some example_about) _ _ _ _ _ 0
           ltac:(constructor) HS).
Defined.

Lemma scan_error_status_witness :
  exists o',
    example_scan 10 [] newSources (Some example_about)
                 (mkEnv [Response 404 0 "" false] false false)
    = (<[0 := o']> [Source.mk example_about SourceWait "" 0 false true
                              None None 0],
       Sources.mk (<["http://example.com/about" := 0]> ∅) [0],
       [EvThreads 1; EvAdd "http://example.com/about" 0 true;
        EvLog LogNewLink; EvAcquire; EvState SourceRequest;
        EvGet "http://example.com/about"; EvState SourceRequestError;
        EvRelease; EvLog (LogStatus 404); EvThreads (-1); EvDone],
       Finished)
    /\ Source.state o' = SourceRequestError
    /\ Source.err o' = Some (ErrStatus 404)
    /\ Source.repeats o' = 0%Z.
Proof.
  assert (HA : Add ref_String ref_Hostname example_seed [] newSources
                   example_about
               = ([Source.mk example_about SourceWait "" 0 false true
                             None None 0],
                  Sources.mk (<["http://example.com/about" := 0]> ∅) [0],
                  (0, true))) by reflexivity.
  apply (scan_error_status ref_String ref_Hostname ref_Parse ref_Clean "/"
           ref_Split ref_Ext example_ExtensionsByType
           example_DetectContentType example_html_Parse
           example_readTXT_links example_seed example_dir 10
           [] newSources example_about _ _ 0 404 0 "" false [] false false HA).
  - reflexivity.
  - reflexivity.
  - reflexivity.
  - lia.
  - lia.
Defined.

Lemma scan_saves_body_witness :
  exists o' before,
    example_scan 10 [] newSources (Some example_logo)
                 (mkEnv [Response 200 5 "hello" false] false false)
    = (<[0 := o']> [Source.mk example_logo SourceWait "" 0 false true
                              None None 0],
       Sources.mk (<["http://example.com/logo.png" := 0]> ∅) [0],
       before ++ [EvMkdirAll "/home/out/example.com/";
                  EvWriteFile "/home/out/example.com/logo.png" "hello";
                  EvState SourceComplete; EvThreads (-1); EvDone],
       Finished)
    /\ requests before = 1
    /\ Source.state o' = SourceComplete
    /\ Source.size o' = 5%Z
    /\ Source.mime o' = "text/plain; charset=utf-8"
    /\ Source.err o' = None
    /\ Source.repeats o' = 0%Z.
Proof.
  assert (HA : Add ref_String ref_Hostname example_seed [] newSources
                   example_logo
               = ([Source.mk example_logo SourceWait "" 0 false true
                             None None 0],
                  Sources.mk (<["http://example.com/logo.png" := 0]> ∅) [0],
                  (0, true))) by reflexivity.
  apply (scan_saves_body ref_String ref_Hostname ref_Parse ref_Clean "/"
           ref_Split ref_Ext example_ExtensionsByType
           example_DetectContentType example_html_Parse
           example_readTXT_links example_seed example_dir 10
           [] newSources example_logo _ _ 0 200 5 "hello" [] HA).
  - reflexivity.
  - reflexivity.
  - reflexivity.
  - unfold accepted. lia.
  - vm_compute. reflexivity.
Defined.

Lemma scan_without_503_ends_witness :
  let '(h', s', tr, st) :=
    example_scan 2 [] newSources (Some example_about)
                 (mkEnv [TransportError; Response 200 5 "hello" true;
                         Response 404 0 "" false] false false) in
  st = Finished /\ (Z.of_nat (requests tr) <= 2 + 1)%Z.
Proof.
  assert (HA : Add ref_String ref_Hostname example_seed [] newSources
                   example_about
               = ([Source.mk example_about SourceWait "" 0 false true
                             None None 0],
                  Sources.mk (<["http://example.com/about" := 0]> ∅) [0],
                  (0, true))) by reflexivity.
  destruct (example_scan 2 [] newSources (Some example_about)
              (mkEnv [TransportError; Response 200 5 "hello" true;
                      Response 404 0 "" false] false false))
    as [[[h' s'] tr] st] eqn:HS.
  apply (scan_without_503_ends ref_String ref_Hostname ref_Parse ref_Clean "/"
           ref_Split ref_Ext example_ExtensionsByType
           example_DetectContentType example_html_Parse
           example_readTXT_links example_seed example_dir 2
           [] newSources example_about _ h' _ s' 0
           [TransportError; Response 200 5 "hello" true;
            Response 404 0 "" false] false false tr st HA);
    [unfold int_max; lia | reflexivity | simpl; lia | exact HS].
Defined.

(** * The preparation of a run *)

Section PrepareFacts.
Variable PARALLEL_REQUESTS_MAX : nat.
Variable strings_ToLower : string -> string.
Variable url_Parse : string -> URL + error.
Variable url_String : URL -> string.
Variable filepath_Dir : string -> string.
Variable path_Clean : string -> string.
Variable PathSeparator : ascii.

Abbreviation parseURL := (parseURL strings_ToLower url_Parse).
Abbreviation rootFile := (rootFile url_Parse url_String).
Abbreviation work_launch := (work_launch url_Parse url_String).
Abbreviation work_log := (work_log url_Parse url_String path_Clean
                                   PathSeparator).
Abbreviation work :=
  (work strings_ToLower url_Parse url_String filepath_Dir path_Clean
        PathSeparator).
Abbreviation Start := (Start PARALLEL_REQUESTS_MAX).

(** The calls of a launch: the calls made before it, then the tasks. *)
Lemma work_launch_spec (calls : list WorkCall) (s : Scanner.t) (u : URL) :
  work_scanner (work_launch calls s u) = s
  /\ work_err (work_launch calls s u) = None
  /\ work_status (work_launch calls s u) <> Finished
  /\ exists tasks,
       work_calls (work_launch calls s u)
       = calls ++ WorkersAdd 3 :: GoScan u :: map GoScan tasks
       /\ (work_status (work_launch calls s u) = Unfinished
           <-> exists robots sitemap,
                 rootFile u "/robots.txt" = Returns robots
                 /\ rootFile u "/sitemap.xml" = Returns sitemap
                 /\ tasks = [robots; sitemap]).
Proof.
  unfold work_launch.
  destruct (rootFile u "/robots.txt") as [robots|].
  - destruct (rootFile u "/sitemap.xml") as [sitemap|]; cbn.
    + repeat split; try discriminate. exists [robots; sitemap].
      split; [reflexivity|]. split; [|reflexivity]. intros _.
      exists robots, sitemap. auto.
    + repeat split; try discriminate. exists [robots].
      split; [reflexivity|]. split; [discriminate|].
      intros (r & m & _ & H & _). discriminate H.
  - cbn. repeat split; try discriminate. exists [].
    split; [reflexivity|]. split; [discriminate|].
    intros (r & m & H & _). discriminate H.
Qed.

(** What [work_log] leaves: a failure on the log file, or the scan
    started. *)
Lemma work_log_spec (now : Z) (os : Os) (calls : list WorkCall)
      (s : Scanner.t) (u : URL) :
  let w := work_log now os calls s u in
  let p := path_Clean (Scanner.home s +:+ String PathSeparator ""
                         +:+ Host u +:+ ".log") in
  (os_OpenFileErr os = true
   /\ w = work_fails ScannerOutputDirError (ErrLogFile p) now
                     (calls ++ [OsTruncate p; OsOpenFile p]) s)
  \/ (os_OpenFileErr os = false
      /\ w = work_launch
               ((calls ++ [OsTruncate p; OsOpenFile p]) ++ [LogSetOutput p])
               (Scanner_set_dateScan now
                  (Scanner_set_state ScannerScanning s)) u).
Proof.
  unfold work_log. destruct (os_OpenFileErr os); [left | right]; auto.
Qed.

(** The paths of [work]: a failure, or the launch of the tasks. *)
Lemma work_paths (now : Z) (os : Os) (params : ScannerParams.t)
      (s : Scanner.t) :
  (exists st e calls s',
      work now os params s = work_fails st e now calls s'
      /\ Scanner.dateScan s' = Scanner.dateScan s
      /\ Forall (fun c => launches c = false) calls
      /\ (st = ScannerIncorrectURL \/ st = ScannerOutputDirExist
          \/ st = ScannerOutputDirError))
  \/ (exists calls s' u,
        work now os params s
        = work_launch calls
            (Scanner_set_dateScan now (Scanner_set_state ScannerScanning s'))
            u
        /\ Scanner.dateFinish s' = Scanner.dateFinish s
        /\ Scanner.url s' = Some u
        /\ Forall (fun c => launches c = false) calls).
Proof.
  assert (Hlog : forall calls s' u,
             Scanner.dateScan s' = Scanner.dateScan s ->
             Scanner.dateFinish s' = Scanner.dateFinish s ->
             Scanner.url s' = Some u ->
             Forall (fun c => launches c = false) calls ->
             (exists st e calls' s'',
                 work_log now os calls s' u = work_fails st e now calls' s''
                 /\ Scanner.dateScan s'' = Scanner.dateScan s
                 /\ Forall (fun c => launches c = false) calls'
                 /\ (st = ScannerIncorrectURL \/ st = ScannerOutputDirExist
                     \/ st = ScannerOutputDirError))
             \/ (exists calls' s'' u',
                   work_log now os calls s' u
                   = work_launch calls'
                       (Scanner_set_dateScan now
                          (Scanner_set_state ScannerScanning s'')) u'
                   /\ Scanner.dateFinish s'' = Scanner.dateFinish s
                   /\ Scanner.url s'' = Some u'
                   /\ Forall (fun c => launches c = false) calls')).
  { intros calls s' u H1 H2 H3 Hc.
    destruct (work_log_spec now os calls s' u) as [[_ ->] | [_ ->]].
    - left. do 4 eexists. split; [reflexivity|]. split; [exact H1|].
      split; [|auto]. apply Forall_app. split; [exact Hc|].
      repeat constructor.
    - right. do 3 eexists. split; [reflexivity|]. split; [exact H2|].
      split; [exact H3|]. apply Forall_app. split; [|repeat constructor].
      apply Forall_app. split; [exact Hc | repeat constructor]. }
  assert (Hfail : forall st e calls s',
             Scanner.dateScan s' = Scanner.dateScan s ->
             Forall (fun c => launches c = false) calls ->
             (st = ScannerIncorrectURL \/ st = ScannerOutputDirExist
              \/ st = ScannerOutputDirError) ->
             exists st0 e0 calls0 s0,
               work_fails st e now calls s' = work_fails st0 e0 now calls0 s0
               /\ Scanner.dateScan s0 = Scanner.dateScan s
               /\ Forall (fun c => launches c = false) calls0
               /\ (st0 = ScannerIncorrectURL \/ st0 = ScannerOutputDirExist
                   \/ st0 = ScannerOutputDirError)).
  { intros st e calls s' H1 H2 H3. exists st, e, calls, s'. auto. }
  unfold work.
  destruct (parseURL (ScannerParams.URL params)) as [u|e].
  2:{ left. apply Hfail; [reflexivity | constructor | auto]. }
  unfold binPath. destruct (os_Executable os) as [path|].
  2:{ left. apply Hfail; [reflexivity | constructor | auto]. }
  cbn [Scanner.dir Scanner_set_dir Scanner.home Scanner_set_home
       Scanner.params Scanner_set_url].
  destruct (os_Stat os).
  - destruct (os_MkdirErr os).
    + left. apply Hfail; [reflexivity | repeat constructor | auto].
    + apply Hlog; try reflexivity. repeat constructor.
  - left. apply Hfail; [reflexivity | repeat constructor | auto].
  - destruct (ScannerParams.ReplaceOutDir (Scanner.params s)).
    + destruct (os_RemoveAllErr os).
      * left. apply Hfail; [reflexivity | repeat constructor | auto].
      * destruct (os_MkdirErr os).
        -- left. apply Hfail; [reflexivity | repeat constructor | auto].
        -- apply Hlog; try reflexivity. repeat constructor.
    + left. apply Hfail; [reflexivity | repeat constructor | auto].
  - left. apply Hfail; [reflexivity | repeat constructor | auto].
Qed.

Lemma not_launches (calls : list WorkCall) :
  Forall (fun c => launches c = false) calls ->
  forall c, In c calls -> c <> WorkersAdd 3 /\ forall u, c <> GoScan u.
Proof.
  intros H c Hc. rewrite List.Forall_forall in H. specialize (H c Hc).
  split; [intros -> | intros u ->]; discriminate H.
Qed.

(** X9. The preparation always leaves [ScannerPreparing], and its end is
    told by the state: it stores an error exactly when it does not reach
    [ScannerScanning]; a failure ends in [ScannerIncorrectURL],
    [ScannerOutputDirExist] or [ScannerOutputDirError], stamps the
    finishing date, leaves the scan date alone, returns, and launches no
    task; a success stamps the scan date, leaves the finishing date alone
    and launches the task of the seed URL first. *)
Theorem work_outcome (now : Z) (os : Os) (params : ScannerParams.t)
        (s : Scanner.t) :
  let w := work now os params s in
  let st := Scanner.state (work_scanner w) in
  (work_err w = None <-> st = ScannerScanning)
  /\ (work_err w <> None ->
      (st = ScannerIncorrectURL \/ st = ScannerOutputDirExist
       \/ st = ScannerOutputDirError)
      /\ work_status w = Finished
      /\ Scanner.dateFinish (work_scanner w) = now
      /\ Scanner.dateScan (work_scanner w) = Scanner.dateScan s
      /\ forall c, In c (work_calls w) ->
                   c <> WorkersAdd 3 /\ forall u, c <> GoScan u)
  /\ (work_err w = None ->
      work_status w <> Finished
      /\ Scanner.dateScan (work_scanner w) = now
      /\ Scanner.dateFinish (work_scanner w) = Scanner.dateFinish s
      /\ exists u before tasks,
           Scanner.url (work_scanner w) = Some u
           /\ work_calls w
              = before ++ WorkersAdd 3 :: GoScan u :: map GoScan tasks).
Proof.
  intros w st. subst st w.
  destruct (work_paths now os params s)
    as [(st & e & calls & s' & -> & Hd & Hc & Hst)
       | (calls & s' & u & -> & Hd & Hu & Hc)].
  - cbn. split; [|split].
    + split; [discriminate|]. intros ->.
      destruct Hst as [H | [H | H]]; discriminate H.
    + intros _. split; [exact Hst|]. repeat split; auto;
        now apply (not_launches calls Hc).
    + intros H; discriminate H.
  - destruct (work_launch_spec calls
                (Scanner_set_dateScan now
                   (Scanner_set_state ScannerScanning s')) u)
      as (-> & -> & Hst & tasks & -> & _).
    cbn. split; [|split].
    + split; reflexivity.
    + intros H. now contradiction H.
    + intros _. split; [exact Hst|]. split; [reflexivity|].
      split; [exact Hd|]. exists u, calls, tasks. auto.
Qed.

(** The calls of [work], path by path. *)
Lemma work_calls_cases (now : Z) (os : Os) (params : ScannerParams.t)
      (s : Scanner.t) :
  let w := work now os params s in
  (work_calls w = [] /\ Scanner.state (work_scanner w) <> ScannerScanning)
  \/ exists u path,
       parseURL (ScannerParams.URL params) = inl u
       /\ os_Executable os = Some path
       /\ Scanner.url (work_scanner w) = Some u
       /\ Scanner.home (work_scanner w) = filepath_Dir path
       /\ Scanner.dir (work_scanner w)
          = filepath_Dir path +:+ String PathSeparator "" +:+ Host u
       /\ let dir := filepath_Dir path +:+ String PathSeparator ""
                       +:+ Host u in
          let p := path_Clean (filepath_Dir path +:+ String PathSeparator ""
                                 +:+ Host u +:+ ".log") in
          ((work_calls w = [OsStat dir]
            \/ work_calls w = [OsStat dir; OsMkdir dir]
            \/ work_calls w = [OsStat dir; OsMkdir dir; OsTruncate p;
                               OsOpenFile p])
           /\ Scanner.state (work_scanner w) <> ScannerScanning
           /\ (os_Stat os = StatIsDir ->
               ScannerParams.ReplaceOutDir (Scanner.params s) = false))
          \/ (((work_calls w = [OsStat dir; OsRemoveAll dir]
                \/ work_calls w = [OsStat dir; OsRemoveAll dir; OsMkdir dir]
                \/ work_calls w = [OsStat dir; OsRemoveAll dir; OsMkdir dir;
                                   OsTruncate p; OsOpenFile p])
               /\ Scanner.state (work_scanner w) <> ScannerScanning
               \/ (exists tasks,
                     work_calls w
                     = [OsStat dir; OsRemoveAll dir; OsMkdir dir;
                        OsTruncate p; OsOpenFile p; LogSetOutput p;
                        WorkersAdd 3; GoScan u] ++ map GoScan tasks)
                  /\ Scanner.state (work_scanner w) = ScannerScanning)
              /\ os_Stat os = StatIsDir
              /\ ScannerParams.ReplaceOutDir (Scanner.params s) = true)
          \/ ((exists tasks,
                 work_calls w
                 = [OsStat dir; OsMkdir dir; OsTruncate p; OsOpenFile p;
                    LogSetOutput p; WorkersAdd 3; GoScan u]
                     ++ map GoScan tasks)
              /\ Scanner.state (work_scanner w) = ScannerScanning
              /\ os_Stat os = StatNotExist).
Proof.
  intros w. subst w. unfold work.
  destruct (parseURL (ScannerParams.URL params)) as [u|e];
    [|left; split; [reflexivity | discriminate]].
  unfold binPath. destruct (os_Executable os) as [path|];
    [|left; split; [reflexivity | discriminate]].
  right. exists u, path. split; [reflexivity|]. split; [reflexivity|].
  cbn [Scanner.dir Scanner_set_dir Scanner.home Scanner_set_home
       Scanner.params Scanner_set_url].
  set (dir := filepath_Dir path +:+ String PathSeparator "" +:+ Host u).
  set (p := path_Clean (filepath_Dir path +:+ String PathSeparator ""
                          +:+ Host u +:+ ".log")).
  assert (Hlog : forall calls s',
     Scanner.home s' = filepath_Dir path ->
     let w := work_log now os calls s' u in
     (work_calls w = calls ++ [OsTruncate p; OsOpenFile p]
      /\ Scanner.state (work_scanner w) <> ScannerScanning
      /\ Scanner.url (work_scanner w) = Scanner.url s'
      /\ Scanner.home (work_scanner w) = Scanner.home s'
      /\ Scanner.dir (work_scanner w) = Scanner.dir s')
     \/ ((exists tasks,
            work_calls w
            = calls ++ [OsTruncate p; OsOpenFile p; LogSetOutput p;
                        WorkersAdd 3; GoScan u] ++ map GoScan tasks)
         /\ Scanner.state (work_scanner w) = ScannerScanning
         /\ Scanner.url (work_scanner w) = Scanner.url s'
         /\ Scanner.home (work_scanner w) = Scanner.home s'
         /\ Scanner.dir (work_scanner w) = Scanner.dir s')).
  { intros calls s' Hh w. subst w.
    destruct (work_log_spec now os calls s' u) as [[_ ->] | [_ ->]];
      rewrite Hh; fold p.
    - left. cbn. repeat split; auto; discriminate.
    - right.
      destruct (work_launch_spec
                  ((calls ++ [OsTruncate p; OsOpenFile p])
                     ++ [LogSetOutput p])
                  (Scanner_set_dateScan now
                     (Scanner_set_state ScannerScanning s')) u)
        as (-> & _ & _ & tasks & -> & _).
      cbn. repeat split; auto. exists tasks.
      rewrite <- !app_assoc. reflexivity. }
  destruct (os_Stat os) eqn:ES.
  - destruct (os_MkdirErr os).
    + cbn. do 3 (split; [reflexivity|]). left.
      split; [auto|]. split; discriminate.
    + match goal with
      | |- context [work_log now os ?c ?s'] =>
          destruct (Hlog c s' eq_refl) as [(-> & Hs & -> & -> & ->)
                                          | (Ht & Hs & -> & -> & ->)]
      end.
      * cbn. do 3 (split; [reflexivity|]). left.
        split; [auto|]. split; [exact Hs | discriminate].
      * cbn. do 3 (split; [reflexivity|]). right. right. auto.
  - cbn. do 3 (split; [reflexivity|]). left.
    split; [auto|]. split; discriminate.
  - destruct (ScannerParams.ReplaceOutDir (Scanner.params s)) eqn:ER.
    + destruct (os_RemoveAllErr os).
      * cbn. do 3 (split; [reflexivity|]). right. left. split; [|auto].
        left. split; [auto | discriminate].
      * destruct (os_MkdirErr os).
        -- cbn. do 3 (split; [reflexivity|]). right. left. split; [|auto].
           left. split; [auto | discriminate].
        -- match goal with
           | |- context [work_log now os ?c ?s'] =>
               destruct (Hlog c s' eq_refl) as [(-> & Hs & -> & -> & ->)
                                               | (Ht & Hs & -> & -> & ->)]
           end.
           ++ cbn. do 3 (split; [reflexivity|]). right. left.
              split; [|auto]. left. split; auto.
           ++ cbn. do 3 (split; [reflexivity|]). right. left.
              split; [|auto]. right. auto.
    + cbn. do 3 (split; [reflexivity|]). left.
      split; [auto|]. split; [discriminate | auto].
  - cbn. do 3 (split; [reflexivity|]). left.
    split; [auto|]. split; discriminate.
Qed.

(** X10. The old data is removed only on request: [work] calls
    [os.RemoveAll] only when [ReplaceOutDir] is set and [os.Stat] found a
    directory, only on the output directory [home + separator + host] of
    the parsed URL, and only right after the [os.Stat] of that directory,
    as its second call. *)
Theorem work_removes_on_request (now : Z) (os : Os)
        (params : ScannerParams.t) (s : Scanner.t) (d : string) :
  In (OsRemoveAll d) (work_calls (work now os params s)) ->
  ScannerParams.ReplaceOutDir (Scanner.params s) = true
  /\ os_Stat os = StatIsDir
  /\ d = Scanner.dir (work_scanner (work now os params s))
  /\ (exists u path,
        parseURL (ScannerParams.URL params) = inl u
        /\ os_Executable os = Some path
        /\ d = filepath_Dir path +:+ String PathSeparator "" +:+ Host u)
  /\ exists rest,
       work_calls (work now os params s) = OsStat d :: OsRemoveAll d :: rest
       /\ forall d', ~ In (OsRemoveAll d') rest.
Proof.
  intros Hin.
  assert (Hno : forall tasks d', ~ In (OsRemoveAll d') (map GoScan tasks)).
  { intros tasks d' H. apply in_map_iff in H.
    destruct H as (x & Hx & _). discriminate Hx. }
  destruct (work_calls_cases now os params s)
    as [[E _] | (u & path & Hp & He & Hu & Hh & Hd & H)].
  { rewrite E in Hin. destruct Hin. }
  cbn zeta in H. rewrite Hd.
  destruct H as [([E | [E | E]] & _) | [(H & Hst & Hr) | ((tasks & E) & _)]].
  1-3: rewrite E in Hin; cbn in Hin; intuition discriminate.
  2:{ rewrite E in Hin. cbn in Hin.
      destruct Hin as [H | [H | [H | [H | [H | [H | [H | H]]]]]]];
        try discriminate H. now apply Hno in H. }
  assert (Hd' : d = filepath_Dir path +:+ String PathSeparator ""
                      +:+ Host u).
  { destruct H as [([E | [E | E]] & _) | ((tasks & E) & _)];
      rewrite E in Hin; cbn in Hin.
    1-3: intuition congruence.
    destruct Hin as [H | [H | [H | [H | [H | [H | [H | [H | H]]]]]]]];
      try discriminate H; try congruence. now apply Hno in H. }
  subst d. repeat split; auto.
  - exists u, path. auto.
  - destruct H as [([E | [E | E]] & _) | ((tasks & E) & _)]; rewrite E;
      eexists; (split; [reflexivity|]); intros d' H'; cbn in H'.
    1-3: intuition discriminate.
    destruct H' as [H | [H | [H | [H | [H | [H | H]]]]]];
      try discriminate H. now apply Hno in H.
Qed.

(** X11. A scan always works in a directory made by its own run: if
    [work] reaches [ScannerScanning], the URL was parsed, the output
    directory is [home + separator + host], [os.Stat] found nothing there
    or found a directory that [ReplaceOutDir] let it remove, and the calls
    were, in this order: the [os.Stat], the [os.RemoveAll] in the second
    case, the [os.Mkdir] of the directory, the truncation and opening of
    the log file beside it, and the launch of the tasks, the seed's
    first. *)
Theorem work_scanning_fresh_dir (now : Z) (os : Os)
        (params : ScannerParams.t) (s : Scanner.t) :
  let w := work now os params s in
  Scanner.state (work_scanner w) = ScannerScanning ->
  exists u path tasks,
    parseURL (ScannerParams.URL params) = inl u
    /\ os_Executable os = Some path
    /\ Scanner.url (work_scanner w) = Some u
    /\ Scanner.home (work_scanner w) = filepath_Dir path
    /\ Scanner.dir (work_scanner w)
       = filepath_Dir path +:+ String PathSeparator "" +:+ Host u
    /\ (os_Stat os = StatNotExist
        \/ os_Stat os = StatIsDir
           /\ ScannerParams.ReplaceOutDir (Scanner.params s) = true)
    /\ let dir := Scanner.dir (work_scanner w) in
       let p := path_Clean (filepath_Dir path +:+ String PathSeparator ""
                              +:+ Host u +:+ ".log") in
       work_calls w
       = OsStat dir
           :: match os_Stat os with
              | StatIsDir => [OsRemoveAll dir]
              | _ => []
              end
           ++ [OsMkdir dir; OsTruncate p; OsOpenFile p; LogSetOutput p;
               WorkersAdd 3; GoScan u]
           ++ map GoScan tasks.
Proof.
  intros w Hst. subst w.
  destruct (work_calls_cases now os params s)
    as [[_ E] | (u & path & Hp & He & Hu & Hh & Hd & H)];
    [contradiction|].
  cbn zeta in H.
  destruct H as [(_ & E & _) | [(H & Hs & Hr) | ((tasks & E) & _ & Hs)]];
    [contradiction | |].
  - destruct H as [(_ & E) | ((tasks & E) & _)]; [contradiction|].
    exists u, path, tasks. repeat split; auto.
    cbn zeta. rewrite Hd, Hs, E. reflexivity.
  - exists u, path, tasks. repeat split; auto.
    cbn zeta. rewrite Hd, Hs, E. reflexivity.
Qed.

(** X12. A failed preparation can be started again exactly when it failed
    on the URL or on an existing directory that was not to be replaced:
    after any other failure (the executable's location, [os.Stat],
    [os.Mkdir], [os.RemoveAll], a file in the way, the log file) every
    further [Start] is refused and changes nothing.  While the tasks run
    [Start] is refused too, and once [work] has finished it is accepted. *)
Theorem Start_after_work (now now' : Z) (os : Os)
        (params params' : ScannerParams.t) (s : Scanner.t) :
  let w := work now os params s in
  (work_err w <> None ->
   (snd (Start now' params' (work_scanner w)) = None
    <-> (exists e, work_err w = Some (ErrStartURL e))
        \/ (exists d, work_err w = Some (ErrDirExists d)))
   /\ (snd (Start now' params' (work_scanner w)) <> None ->
       fst (Start now' params' (work_scanner w)) = work_scanner w))
  /\ (work_err w = None ->
      Start now' params' (work_scanner w)
      = (work_scanner w, Some (ErrRunning "Сканирование"))
      /\ snd (Start now' params' (work_finish now' (work_scanner w))) = None).
Proof.
  intros w. subst w. split.
  - intros Herr. unfold work in *.
    destruct (parseURL (ScannerParams.URL params)) as [u|e].
    2:{ cbn. split; [|intros H; now contradiction H].
        split; [intros _; left; eauto | reflexivity]. }
    unfold binPath in *. destruct (os_Executable os) as [path|].
    2:{ cbn. split; [|reflexivity].
        split; [discriminate | intros [[e H] | [d H]]; discriminate H]. }
    cbn [Scanner.dir Scanner_set_dir Scanner.home Scanner_set_home
         Scanner.params Scanner_set_url] in *.
    assert (Hfail : forall e calls s',
      (match e with ErrStartURL _ | ErrDirExists _ => False | _ => True end) ->
      let w := work_fails ScannerOutputDirError e now calls s' in
      (snd (Start now' params' (work_scanner w)) = None
       <-> (exists e, work_err w = Some (ErrStartURL e))
           \/ (exists d, work_err w = Some (ErrDirExists d)))
      /\ (snd (Start now' params' (work_scanner w)) <> None ->
          fst (Start now' params' (work_scanner w)) = work_scanner w)).
    { intros e calls s' He. cbn. split; [|reflexivity].
      split; [discriminate|].
      intros [[e' H] | [d H]]; injection H as ->; destruct He. }
    assert (Hlog : forall calls s',
      let w := work_log now os calls s' u in
      work_err w <> None ->
      (snd (Start now' params' (work_scanner w)) = None
       <-> (exists e, work_err w = Some (ErrStartURL e))
           \/ (exists d, work_err w = Some (ErrDirExists d)))
      /\ (snd (Start now' params' (work_scanner w)) <> None ->
          fst (Start now' params' (work_scanner w)) = work_scanner w)).
    { intros calls s' w. subst w.
      destruct (work_log_spec now os calls s' u) as [[_ ->] | [_ ->]].
      - intros _. now apply Hfail.
      - destruct (work_launch_spec
                    ((calls ++ [OsTruncate
                                  (path_Clean (Scanner.home s'
                                     +:+ String PathSeparator ""
                                     +:+ Host u +:+ ".log"));
                                OsOpenFile
                                  (path_Clean (Scanner.home s'
                                     +:+ String PathSeparator ""
                                     +:+ Host u +:+ ".log"))])
                       ++ [LogSetOutput
                             (path_Clean (Scanner.home s'
                                +:+ String PathSeparator ""
                                +:+ Host u +:+ ".log"))])
                    (Scanner_set_dateScan now
                       (Scanner_set_state ScannerScanning s')) u)
          as (_ & -> & _).
        intros H. now contradiction H. }
    destruct (os_Stat os).
    + destruct (os_MkdirErr os); [now apply Hfail | now apply Hlog].
    + now apply Hfail.
    + destruct (ScannerParams.ReplaceOutDir (Scanner.params s)).
      * destruct (os_RemoveAllErr os); [now apply Hfail|].
        destruct (os_MkdirErr os); [now apply Hfail | now apply Hlog].
      * cbn. split; [|intros H; now contradiction H].
        split; [intros _; right; eauto | reflexivity].
    + now apply Hfail.
  - intros Herr.
    assert (Hst : Scanner.state (work_scanner (work now os params s))
                  = ScannerScanning).
    { destruct (work_paths now os params s)
        as [(st & e & calls & s' & E & _) | (calls & s' & u & E & _)].
      - rewrite E in Herr. discriminate Herr.
      - rewrite E.
        destruct (work_launch_spec calls
                    (Scanner_set_dateScan now
                       (Scanner_set_state ScannerScanning s')) u)
          as (-> & _). reflexivity. }
    unfold Start, work_finish. rewrite Hst. cbn.
    split; reflexivity.
Qed.

(** X13. The first tasks of a scan: when [work] reaches
    [ScannerScanning] for the parsed URL [u], it launches the task of [u],
    then, if [url.Parse] reads [u.String()] back as [u2], the tasks of [u2]
    with the paths [/robots.txt] and [/sitemap.xml] (scheme, host, query
    and fragment kept), and waits for them; if [url.Parse] fails on
    [u.String()], it stops by a panic with only the task of [u]
    launched. *)
Theorem work_launches_root_files (now : Z) (os : Os)
        (params : ScannerParams.t) (s : Scanner.t) (u : URL) :
  let w := work now os params s in
  Scanner.state (work_scanner w) = ScannerScanning ->
  parseURL (ScannerParams.URL params) = inl u ->
  exists before,
    (forall c, In c before -> c <> WorkersAdd 3 /\ forall t, c <> GoScan t)
    /\ match url_Parse (url_String u) with
       | inl u2 =>
           work_status w = Unfinished
           /\ work_calls w
              = before
                  ++ [WorkersAdd 3; GoScan u;
                      GoScan (mkURL (Scheme u2) (Opaque u2) (Host u2)
                                    "/robots.txt" (RawQuery u2)
                                    (Fragment u2));
                      GoScan (mkURL (Scheme u2) (Opaque u2) (Host u2)
                                    "/sitemap.xml" (RawQuery u2)
                                    (Fragment u2))]
       | inr _ =>
           work_status w = Panicked
           /\ work_calls w = before ++ [WorkersAdd 3; GoScan u]
       end.
Proof.
  intros w Hst Hp. subst w.
  destruct (work_calls_cases now os params s)
    as [[_ E] | (u' & path & Hp' & He & Hu & _)]; [contradiction|].
  assert (u' = u) by congruence. subst u'.
  destruct (work_paths now os params s)
    as [(st & e & calls & s' & E & Hd & Hc & Hs)
       | (calls & s' & u' & E & _ & Hu' & Hc)].
  { rewrite E in Hst. cbn in Hst.
    destruct Hs as [H | [H | H]]; congruence. }
  rewrite E in Hu |- *.
  assert (u' = u).
  { destruct (work_launch_spec calls
                (Scanner_set_dateScan now
                   (Scanner_set_state ScannerScanning s')) u')
      as (Hw & _). rewrite Hw in Hu. cbn in Hu. congruence. }
  subst u'.
  exists calls. split; [exact (not_launches calls Hc)|].
  unfold work_launch, rootFile.
  destruct (url_Parse (url_String u)) as [u2|e]; cbn; auto.
Qed.
End PrepareFacts.

(** ** The preparation at concrete inputs *)

Lemma work_outcome_witness :
  let params := ScannerParams.mk "Example.com/A" false 10 in
  let s := fst (Start default_PARALLEL_REQUESTS_MAX 1 params NewScanner) in
  let w := example_work 7 (example_Os StatIsFile) params s in
  work_err w = Some (ErrIsFile "/home/out/example.com")
  /\ Scanner.state (work_scanner w) = ScannerOutputDirError
  /\ work_status w = Finished
  /\ Scanner.dateFinish (work_scanner w) = 7%Z.
Proof.
  intros params s w.
  destruct (work_outcome ref_ToLower ref_Parse ref_String example_Dir
              ref_Clean "/" 7 (example_Os StatIsFile) params s)
    as (_ & H & _).
  destruct H as (_ & Hst & Hd & _); [discriminate|].
  split; [reflexivity|]. split; [reflexivity|].
  split; [exact Hst | exact Hd].
Defined.

Lemma work_removes_on_request_witness :
  let params := ScannerParams.mk "Example.com/A" true 10 in
  let s := fst (Start default_PARALLEL_REQUESTS_MAX 1 params NewScanner) in
  let w := example_work 7 (example_Os StatIsDir) params s in
  In (OsRemoveAll "/home/out/example.com") (work_calls w)
  /\ exists rest,
       work_calls w
       = OsStat "/home/out/example.com"
           :: OsRemoveAll "/home/out/example.com" :: rest
       /\ forall d', ~ In (OsRemoveAll d') rest.
Proof.
  intros params s w.
  assert (Hin : In (OsRemoveAll "/home/out/example.com") (work_calls w)).
  { right. left. reflexivity. }
  split; [exact Hin|].
  destruct (work_removes_on_request ref_ToLower ref_Parse ref_String
              example_Dir ref_Clean "/" 7 (example_Os StatIsDir) params s
              "/home/out/example.com" Hin)
    as (_ & _ & _ & _ & H).
  exact H.
Defined.

Lemma work_scanning_fresh_dir_witness :
  let params := ScannerParams.mk "Example.com/A" false 10 in
  let s := fst (Start default_PARALLEL_REQUESTS_MAX 1 params NewScanner) in
  let w := example_work 7 (example_Os StatNotExist) params s in
  Scanner.state (work_scanner w) = ScannerScanning
  /\ exists u path tasks,
       ref_Parse "http://example.com/a" = inl u
       /\ Scanner.url (work_scanner w) = Some u
       /\ Scanner.dir (work_scanner w)
          = example_Dir path +:+ "/" +:+ Host u
       /\ work_calls w
          = OsStat (Scanner.dir (work_scanner w))
              :: [OsMkdir (Scanner.dir (work_scanner w));
                  OsTruncate (ref_Clean (example_Dir path +:+ "/"
                                           +:+ Host u +:+ ".log"));
                  OsOpenFile (ref_Clean (example_Dir path +:+ "/"
                                           +:+ Host u +:+ ".log"));
                  LogSetOutput (ref_Clean (example_Dir path +:+ "/"
                                             +:+ Host u +:+ ".log"));
                  WorkersAdd 3; GoScan u]
              ++ map GoScan tasks.
Proof.
  intros params s w.
  assert (Hst : Scanner.state (work_scanner w) = ScannerScanning)
    by reflexivity.
  split; [exact Hst|].
  destruct (work_scanning_fresh_dir ref_ToLower ref_Parse ref_String
              example_Dir ref_Clean "/" 7 (example_Os StatNotExist) params s
              Hst)
    as (u & path & tasks & Hp & _ & Hu & _ & Hd & _ & Hc).
  exists u, path, tasks. split; [exact Hp|]. split; [exact Hu|].
  split; [exact Hd | exact Hc].
Defined.

Lemma Start_after_work_witness :
  let params := ScannerParams.mk "Example.com/A" false 10 in
  let s := fst (Start default_PARALLEL_REQUESTS_MAX 1 params NewScanner) in
  let w := example_work 7 (example_Os StatIsFile) params s in
  work_err w = Some (ErrIsFile "/home/out/example.com")
  /\ snd (Start default_PARALLEL_REQUESTS_MAX 9 params (work_scanner w))
     <> None.
Proof.
  intros params s w. split; [reflexivity|].
  destruct (Start_after_work default_PARALLEL_REQUESTS_MAX ref_ToLower
              ref_Parse ref_String example_Dir ref_Clean "/" 7 9
              (example_Os StatIsFile) params params s)
    as (H & _).
  destruct H as ((H & _) & _); [discriminate|].
  intros Hs. apply H in Hs.
  destruct Hs as [[e He] | [d He]]; discriminate He.
Defined.

Lemma work_launches_root_files_witness :
  let params := ScannerParams.mk "Example.com/A?x=1" false 10 in
  let s := fst (Start default_PARALLEL_REQUESTS_MAX 1 params NewScanner) in
  let w := example_work 7 (example_Os StatNotExist) params s in
  let u := mkURL "http" "" "example.com" "/a" "x=1" "" in
  exists before,
    work_status w = Unfinished
    /\ work_calls w
       = before
           ++ [WorkersAdd 3; GoScan u;
               GoScan (mkURL "http" "" "example.com" "/robots.txt" "x=1" "");
               GoScan (mkURL "http" "" "example.com" "/sitemap.xml" "x=1" "")].
Proof.
  intros params s w u.
  destruct (work_launches_root_files ref_ToLower ref_Parse ref_String
              example_Dir ref_Clean "/" 7 (example_Os StatNotExist) params s
              u eq_refl eq_refl)
    as (before & _ & H).
  exists before. exact H.
Defined.

(** * Links in text *)

Lemma seq_next (pre : list ascii) (x : ascii) (n : nat) :
  seq (S (length pre)) n = seq (length (pre ++ [x])) n.
Proof. rewrite length_app. simpl. f_equal. lia. Qed.

Lemma app_next (pre : list ascii) (x : ascii) (l : list ascii) :
  pre ++ x :: l = (pre ++ [x]) ++ l.
Proof. now rewrite <- app_assoc. Qed.

Lemma is_quote_not_space (q : ascii) :
  is_quote q = true -> Ascii.eqb q byte_space = false /\ q <> zero.
Proof.
  unfold is_quote. intros H.
  apply orb_true_iff in H. destruct H as [H | H];
    [apply orb_true_iff in H; destruct H as [H | H]|];
    apply Ascii.eqb_eq in H; subst q; split; (reflexivity || discriminate).
Qed.

(** The first loop skips the spaces and looks at one byte. *)
Lemma quote_from_found (blanks : list ascii) :
  forall (pre : list ascii) (r : ascii) (rest : list ascii),
  Forall (eq byte_space) blanks ->
  Ascii.eqb r byte_space = false ->
  quote_from (pre ++ blanks ++ r :: rest)
             (seq (length pre) (length (blanks ++ r :: rest)))
  = Returns (if is_quote r then r else zero).
Proof.
  induction blanks as [|x blanks IH]; intros pre r rest Hb Hr.
  - cbn [app length seq quote_from].
    rewrite list_lookup_middle by reflexivity. now rewrite Hr.
  - inversion Hb as [|? ? Hx Hb']; subst.
    cbn [app length seq quote_from].
    rewrite list_lookup_middle by reflexivity.
    rewrite Ascii.eqb_refl.
    rewrite (app_next pre), (seq_next pre byte_space).
    now apply IH.
Qed.

Lemma quote_from_blank (blanks : list ascii) :
  forall (pre : list ascii),
  Forall (eq byte_space) blanks ->
  quote_from (pre ++ blanks) (seq (length pre) (length blanks))
  = Returns zero.
Proof.
  induction blanks as [|x blanks IH]; intros pre Hb; [reflexivity|].
  inversion Hb as [|? ? Hx Hb']; subst.
  cbn [length seq quote_from].
  rewrite list_lookup_middle by reflexivity.
  rewrite Ascii.eqb_refl.
  rewrite (app_next pre), (seq_next pre byte_space).
  now apply IH.
Qed.

Lemma split_blanks (l : list ascii) :
  Forall (eq byte_space) l
  \/ exists blanks r rest,
       l = blanks ++ r :: rest
       /\ Forall (eq byte_space) blanks
       /\ Ascii.eqb r byte_space = false.
Proof.
  induction l as [|x l IH]; [left; constructor|].
  destruct (Ascii.eqb x byte_space) eqn:E.
  - apply Ascii.eqb_eq in E. subst x.
    destruct IH as [H | (blanks & r & rest & -> & Hb & Hr)].
    + left. now constructor.
    + right. exists (byte_space :: blanks), r, rest.
      split; [reflexivity|]. split; [now constructor | exact Hr].
  - right. exists [], x, l. split; [reflexivity|].
    split; [constructor | exact E].
Qed.

(** The first loop never panics on the bytes from [s] on; a quote is
    found only in a suffix that is not empty. *)
Lemma quote_from_returns (pre l : list ascii) :
  exists sep,
    quote_from (pre ++ l) (seq (length pre) (length l)) = Returns sep
    /\ (Ascii.eqb sep zero = false -> l <> []).
Proof.
  destruct (split_blanks l) as [H | (blanks & r & rest & -> & Hb & Hr)].
  - exists zero. split; [now apply quote_from_blank | discriminate].
  - eexists. split; [now apply quote_from_found|].
    intros _. now destruct blanks.
Qed.

(** The loop of a bare link never panics, and breaks inside the bytes it
    was given. *)
Lemma bare_end_returns (l : list ascii) :
  forall (pre : list ascii) (c : bool) (br : Z * Z * Z),
  exists r,
    bare_end (pre ++ l) (seq (length pre) (length l)) c br = Returns r
    /\ forall i, r = Some i -> length pre <= i < length pre + length l.
Proof.
  induction l as [|x l IH]; intros pre c br.
  - exists None. split; [reflexivity | discriminate].
  - cbn [length seq bare_end].
    rewrite list_lookup_middle by reflexivity.
    rewrite (app_next pre), (seq_next pre x).
    destruct (Ascii.eqb x byte_space && negb c).
    + destruct (IH (pre ++ [x]) c br) as (r & -> & Hr).
      exists r. split; [reflexivity|]. intros i Hi.
      specialize (Hr i Hi). rewrite length_app in Hr. simpl in Hr. lia.
    + destruct (count_brackets x br) as [[br1 br2] br3].
      destruct (is_stop x && _).
      * exists (Some (length pre)). split; [reflexivity|].
        intros i [= <-]. lia.
      * destruct (IH (pre ++ [x]) true (br1, br2, br3)) as (r & -> & Hr).
        exists r. split; [reflexivity|]. intros i Hi.
        specialize (Hr i Hi). rewrite length_app in Hr. simpl in Hr. lia.
Qed.

(** The loop of a quoted link never panics, given a byte before the first
    index, and breaks inside the bytes it was given. *)
Lemma quoted_end_returns (sep : ascii) (l : list ascii) :
  forall (pre : list ascii) (p : ascii),
  exists r,
    quoted_end ((pre ++ [p]) ++ l) sep
               (seq (length (pre ++ [p])) (length l))
    = Returns r
    /\ forall i, r = Some i ->
         length (pre ++ [p]) <= i < length (pre ++ [p]) + length l.
Proof.
  induction l as [|x l IH]; intros pre p.
  - exists None. split; [reflexivity | discriminate].
  - cbn [length seq quoted_end].
    rewrite list_lookup_middle by reflexivity.
    assert (Hp : ((pre ++ [p]) ++ x :: l) !! (length (pre ++ [p]) - 1)
                 = Some p).
    { rewrite <- app_assoc. cbn [app].
      rewrite length_app. cbn [length].
      apply list_lookup_middle. lia. }
    rewrite Hp.
    destruct (Ascii.eqb x sep && _).
    + exists (Some (length (pre ++ [p]))). split; [reflexivity|].
      intros i [= <-]. lia.
    + rewrite (app_next (pre ++ [p])), (seq_next (pre ++ [p]) x).
      destruct (IH (pre ++ [p]) x) as (r & -> & Hr).
      exists r. split; [reflexivity|]. intros i Hi.
      specialize (Hr i Hi). rewrite length_app in Hr. simpl in Hr. lia.
Qed.

(** The loop of a quoted link breaks at the first [sep] whose byte before
    is no apostrophe. *)
Lemma quoted_end_found (sep : ascii) (body : list ascii) :
  forall (pre : list ascii) (p : ascii) (rest : list ascii),
  ~ In sep body ->
  List.last (p :: body) zero <> byte_quote ->
  quoted_end ((pre ++ [p]) ++ body ++ sep :: rest) sep
             (seq (length (pre ++ [p])) (length (body ++ sep :: rest)))
  = Returns (Some (length (pre ++ [p]) + length body)).
Proof.
  induction body as [|x body IH]; intros pre p rest Hnot Hlast.
  - cbn [app length seq quoted_end].
    rewrite list_lookup_middle by reflexivity.
    assert (Hp : ((pre ++ [p]) ++ sep :: rest) !! (length (pre ++ [p]) - 1)
                 = Some p).
    { rewrite <- app_assoc. cbn [app].
      rewrite length_app. cbn [length].
      apply list_lookup_middle. lia. }
    rewrite Hp, Ascii.eqb_refl.
    cbn in Hlast. apply Ascii.eqb_neq in Hlast. rewrite Hlast.
    cbn. do 2 f_equal. lia.
  - cbn [app length seq quoted_end].
    rewrite list_lookup_middle by reflexivity.
    assert (Hp : ((pre ++ [p]) ++ x :: body ++ sep :: rest)
                   !! (length (pre ++ [p]) - 1)
                 = Some p).
    { rewrite <- app_assoc. cbn [app].
      rewrite length_app. cbn [length].
      apply list_lookup_middle. lia. }
    rewrite Hp.
    assert (Hx : Ascii.eqb x sep = false).
    { apply Ascii.eqb_neq. intros ->. apply Hnot. now left. }
    rewrite Hx. cbn [andb].
    rewrite (app_next (pre ++ [p])), (seq_next (pre ++ [p]) x).
    rewrite IH.
    + do 2 f_equal. rewrite (length_app (pre ++ [p])). simpl. lia.
    + intros H. apply Hnot. now right.
    + exact Hlast.
Qed.

Lemma is_plain_spec (r : ascii) :
  is_plain r = true ->
  Ascii.eqb r byte_space = false
  /\ is_stop r = false
  /\ forall br, count_brackets r br = br.
Proof.
  intros H.
  destruct r as [[] [] [] [] [] [] [] []]; try discriminate H;
    (split; [reflexivity|]; split; [reflexivity|];
     intros [[br1 br2] br3]; reflexivity).
Qed.

Lemma is_stop_closes (t : ascii) :
  is_stop t = true ->
  exists br1 br2 br3,
    count_brackets t (0, 0, 0)%Z = (br1, br2, br3)
    /\ ((br1 <=? 0)%Z && (br2 <=? 0)%Z && (br3 <=? 0)%Z) = true.
Proof.
  intros H.
  destruct t as [[] [] [] [] [] [] [] []]; try discriminate H;
    do 3 eexists; (split; [reflexivity|]); reflexivity.
Qed.

(** After its first byte, a run of plain bytes is read up to the byte
    that ends it. *)
Lemma bare_end_run (body : list ascii) :
  forall (pre : list ascii) (t : ascii) (rest : list ascii),
  Forall (fun r => is_plain r = true) body ->
  is_stop t = true ->
  bare_end (pre ++ body ++ t :: rest)
           (seq (length pre) (length (body ++ t :: rest))) true (0, 0, 0)%Z
  = Returns (Some (length pre + length body)).
Proof.
  induction body as [|x body IH]; intros pre t rest Hb Ht.
  - cbn [app length seq bare_end].
    rewrite list_lookup_middle by reflexivity.
    cbn [negb]. rewrite andb_false_r.
    destruct (is_stop_closes t Ht) as (br1 & br2 & br3 & -> & ->).
    rewrite Ht. cbn. do 2 f_equal. lia.
  - inversion Hb as [|? ? Hx Hb']; subst.
    destruct (is_plain_spec x Hx) as (Hsp & Hst & Hbr).
    cbn [app length seq bare_end].
    rewrite list_lookup_middle by reflexivity.
    rewrite Hsp, Hbr, Hst. cbn [andb].
    rewrite (app_next pre), (seq_next pre x).
    rewrite IH by assumption.
    do 2 f_equal. rewrite length_app. simpl. lia.
Qed.

(** The leading spaces are passed over, and the first plain byte starts
    the run. *)
Lemma bare_end_start (blanks : list ascii) :
  forall (pre : list ascii) (r0 : ascii) (body : list ascii) (t : ascii)
         (rest : list ascii),
  Forall (eq byte_space) blanks ->
  Forall (fun r => is_plain r = true) (r0 :: body) ->
  is_stop t = true ->
  bare_end (pre ++ blanks ++ r0 :: body ++ t :: rest)
           (seq (length pre) (length (blanks ++ r0 :: body ++ t :: rest)))
           false (0, 0, 0)%Z
  = Returns (Some (length pre + length (blanks ++ r0 :: body))).
Proof.
  induction blanks as [|x blanks IH]; intros pre r0 body t rest Hb Hp Ht.
  - inversion Hp as [|? ? H0 Hp']; subst.
    destruct (is_plain_spec r0 H0) as (Hsp & Hst & Hbr).
    cbn [app length seq bare_end].
    rewrite list_lookup_middle by reflexivity.
    rewrite Hsp, Hbr, Hst. cbn [andb].
    rewrite (app_next pre), (seq_next pre r0).
    rewrite bare_end_run by assumption.
    do 2 f_equal. rewrite length_app. simpl. lia.
  - inversion Hb as [|? ? Hx Hb']; subst.
    cbn [app length seq bare_end].
    rewrite list_lookup_middle by reflexivity.
    rewrite Ascii.eqb_refl. cbn [negb andb].
    rewrite (app_next pre), (seq_next pre byte_space).
    rewrite IH by assumption.
    do 2 f_equal. rewrite length_app. simpl. lia.
Qed.

(** [link_text] at the end of a prefix [pre]: the loops run over the
    bytes after it. *)
Lemma link_text_at (pre l : list ascii) :
  link_text (pre ++ l) (Z.of_nat (length pre))
  = match quote_from (pre ++ l) (seq (length pre) (length l)) with
    | Panics => Panics
    | Returns sep =>
        if Ascii.eqb sep zero then
          match bare_end (pre ++ l) (seq (length pre) (length l)) false
                         (0, 0, 0)%Z with
          | Panics => Panics
          | Returns (Some i) => slice (pre ++ l) (length pre) i
          | Returns None => slice_from (pre ++ l) (length pre)
          end
        else
          match quoted_end (pre ++ l) sep
                           (seq (length pre + 1) (length l - 1)) with
          | Panics => Panics
          | Returns (Some i) => slice (pre ++ l) (length pre + 1) i
          | Returns None => slice_from (pre ++ l) (length pre + 1)
          end
    end.
Proof.
  unfold link_text.
  destruct (Z.ltb_spec (Z.of_nat (length pre)) 0) as [H|_]; [lia|].
  rewrite Nat2Z.id, length_app.
  replace (length pre + length l - length pre) with (length l) by lia.
  replace (length pre + length l - (length pre + 1)) with (length l - 1)
    by lia.
  reflexivity.
Qed.

Lemma slice_middle (pre mid rest : list ascii) :
  slice (pre ++ mid ++ rest) (length pre) (length pre + length mid)
  = Returns mid.
Proof.
  unfold slice.
  destruct (Nat.leb_spec (length pre) (length pre + length mid)); [|lia].
  rewrite drop_app_length.
  replace (length pre + length mid - length pre) with (length mid) by lia.
  now rewrite take_app_length.
Qed.

Lemma link_text_returns_at (pre l : list ascii) :
  exists str lo k,
    link_text (pre ++ l) (Z.of_nat (length pre)) = Returns str
    /\ (lo = length pre \/ lo = length pre + 1)
    /\ str = take k (drop lo (pre ++ l)).
Proof.
  rewrite link_text_at.
  destruct (quote_from_returns pre l) as (sep & -> & Hne).
  destruct (Ascii.eqb sep zero) eqn:Ez.
  - destruct (bare_end_returns l pre false (0, 0, 0)%Z) as (r & -> & Hi).
    destruct r as [i|].
    + specialize (Hi i eq_refl). unfold slice.
      destruct (Nat.leb_spec (length pre) i); [|lia].
      do 3 eexists. split; [reflexivity|]. split; [left; reflexivity|].
      reflexivity.
    + unfold slice_from. rewrite length_app.
      destruct (Nat.leb_spec (length pre) (length pre + length l)); [|lia].
      exists (drop (length pre) (pre ++ l)), (length pre), (length l).
      split; [reflexivity|]. split; [auto|].
      rewrite take_ge; [reflexivity|]. rewrite length_drop, length_app. lia.
  - specialize (Hne eq_refl). destruct l as [|p l']; [congruence|].
    cbn [length]. rewrite Nat.sub_succ, Nat.sub_0_r.
    rewrite (app_next pre p).
    assert (Hl' : length (pre ++ [p]) = length pre + 1)
      by (rewrite length_app; reflexivity).
    destruct (quoted_end_returns sep l' pre p) as (r & Hr & Hi).
    rewrite Hl' in Hr. rewrite Hr. destruct r as [i|].
    + specialize (Hi i eq_refl). unfold slice.
      destruct (Nat.leb_spec (length pre + 1) i); [|lia].
      do 3 eexists. split; [reflexivity|]. split; [right; reflexivity|].
      reflexivity.
    + unfold slice_from. rewrite length_app, Hl'.
      destruct (Nat.leb_spec (length pre + 1) (length pre + 1 + length l'));
        [|lia].
      exists (drop (length pre + 1) ((pre ++ [p]) ++ l')),
             (length pre + 1), (length l').
      split; [reflexivity|]. split; [auto|].
      rewrite take_ge; [reflexivity|].
      rewrite length_drop, length_app, Hl'. lia.
Qed.

(** [link_text] returns for every offset inside the bytes, with a piece of
    them that starts at the offset or one byte after it. *)
Lemma link_text_returns (b : list ascii) (s : Z) :
  (0 <= s <= Z.of_nat (length b))%Z ->
  exists str lo k,
    link_text b s = Returns str
    /\ (lo = Z.to_nat s \/ lo = Z.to_nat s + 1)
    /\ str = take k (drop lo b).
Proof.
  intros Hs.
  assert (Hl : length (take (Z.to_nat s) b) = Z.to_nat s)
    by (rewrite length_take; lia).
  pose proof (link_text_returns_at (take (Z.to_nat s) b)
                                   (drop (Z.to_nat s) b)) as H.
  rewrite take_drop, Hl, Z2Nat.id in H by lia. exact H.
Qed.

Lemma link_text_outside (b : list ascii) (s : Z) :
  (s < 0 \/ Z.of_nat (length b) < s)%Z -> link_text b s = Panics.
Proof.
  intros Hs. unfold link_text.
  destruct (Z.ltb_spec s 0) as [H|H]; [reflexivity|].
  replace (length b - Z.to_nat s) with 0 by lia.
  cbn. unfold slice_from.
  destruct (Nat.leb_spec (Z.to_nat s) (length b)); [lia | reflexivity].
Qed.

Lemma length_list_ascii (body : string) :
  Z.of_nat (length (list_ascii_of_string body)) = len body.
Proof.
  unfold len. f_equal.
  induction body as [|c body IH]; [reflexivity|].
  cbn [list_ascii_of_string length String.length]. now rewrite IH.
Qed.

Section TextLinkFacts.
Variable url_Parse : string -> URL + error.
Variable seed : URL.

Abbreviation searchLink := (searchLink url_Parse seed).
Abbreviation search_matches := (search_matches url_Parse seed).
Abbreviation readTXT_search := (readTXT_search url_Parse seed).
Abbreviation resolve := (resolve seed).

Lemma resolve_IsAbs (u : URL) :
  IsAbs seed = true -> IsAbs (resolve u) = true.
Proof.
  intros Hs. unfold resolve. destruct (IsAbs u) eqn:E; cbn; [exact E|].
  exact Hs.
Qed.

(** X14. [searchLink] stops by a run-time panic exactly when the offset is
    negative or beyond the end of the bytes; and the text it reads is
    always a piece of the bytes that starts at the offset or one byte
    after it. *)
Theorem searchLink_panics_iff (b : list ascii) (s : Z) :
  (searchLink b s = Panics
   <-> (s < 0 \/ Z.of_nat (length b) < s)%Z)
  /\ forall str,
       link_text b s = Returns str ->
       exists lo k,
         (lo = Z.to_nat s \/ lo = Z.to_nat s + 1)
         /\ str = take k (drop lo b).
Proof.
  destruct (Z.lt_ge_cases s 0) as [Hneg | Hpos].
  { split.
    - unfold searchLink. rewrite link_text_outside by auto.
      split; auto.
    - intros str. rewrite link_text_outside by auto. discriminate. }
  destruct (Z.lt_ge_cases (Z.of_nat (length b)) s) as [Hbig | Hin].
  { split.
    - unfold searchLink. rewrite link_text_outside by auto.
      split; auto.
    - intros str. rewrite link_text_outside by auto. discriminate. }
  destruct (link_text_returns b s) as (str & lo & k & Ht & Hlo & Hstr);
    [lia|].
  split.
  - unfold searchLink. rewrite Ht.
    split; [|lia].
    destruct (url_Parse (string_of_list_ascii str)); discriminate.
  - intros str'. rewrite Ht. intros [= <-]. eauto.
Qed.

(** X15. A link in quotes is read as it stands: when the byte at the
    offset is a quote [q] (double quote, apostrophe or back quote), the
    text after it has no [q] up to a closing [q], and the byte before the
    closing [q] is no apostrophe, the text read is what stands between the
    two. *)
Theorem searchLink_quoted (pre body rest : list ascii) (q : ascii) :
  is_quote q = true ->
  ~ In q body ->
  List.last (q :: body) zero <> byte_quote ->
  link_text (pre ++ q :: body ++ q :: rest) (Z.of_nat (length pre))
  = Returns body
  /\ searchLink (pre ++ q :: body ++ q :: rest) (Z.of_nat (length pre))
     = match url_Parse (string_of_list_ascii body) with
       | inl u => Returns (Some (resolve u))
       | inr _ => Returns None
       end.
Proof.
  intros Hq Hnot Hlast.
  destruct (is_quote_not_space q Hq) as [Hsp Hz].
  assert (Ht : link_text (pre ++ q :: body ++ q :: rest)
                         (Z.of_nat (length pre)) = Returns body).
  { rewrite link_text_at.
    pose proof (quote_from_found [] pre q (body ++ q :: rest)
                  ltac:(constructor) Hsp) as Hf.
    cbn [app] in Hf. rewrite Hf, Hq. apply Ascii.eqb_neq in Hz. rewrite Hz.
    cbn [length]. rewrite Nat.sub_succ, Nat.sub_0_r.
    rewrite (app_next pre q).
    replace (length pre + 1) with (length (pre ++ [q]))
      by (rewrite length_app; reflexivity).
    rewrite quoted_end_found by assumption.
    rewrite slice_middle. reflexivity. }
  split; [exact Ht|]. unfold searchLink. rewrite Ht.
  destruct (url_Parse (string_of_list_ascii body)); reflexivity.
Qed.

(** X16. Spaces before the opening quote lose the link: when the bytes at
    the offset are one space or more and then a quote [q], the quote is
    taken for the closing one, and the text read is the spaces after the
    first, never what the quotes hold. *)
Theorem searchLink_space_before_quote (pre blanks rest : list ascii)
        (q : ascii) :
  is_quote q = true ->
  Forall (eq byte_space) blanks ->
  link_text (pre ++ byte_space :: blanks ++ q :: rest)
            (Z.of_nat (length pre))
  = Returns blanks.
Proof.
  intros Hq Hb.
  destruct (is_quote_not_space q Hq) as [Hsp Hz].
  rewrite link_text_at.
  pose proof (quote_from_found (byte_space :: blanks) pre q rest
                ltac:(now constructor) Hsp) as Hf.
  cbn [app] in Hf. rewrite Hf, Hq. apply Ascii.eqb_neq in Hz. rewrite Hz.
  cbn [length]. rewrite Nat.sub_succ, Nat.sub_0_r.
  rewrite (app_next pre byte_space).
  replace (length pre + 1) with (length (pre ++ [byte_space]))
    by (rewrite length_app; reflexivity).
  rewrite quoted_end_found.
  - rewrite slice_middle. reflexivity.
  - intros Hin. rewrite List.Forall_forall in Hb.
    apply Hb in Hin. subst q. discriminate Hsp.
  - assert (H : forall l, Forall (eq byte_space) l ->
                          List.last (byte_space :: l) zero = byte_space).
    { induction l as [|x l IH]; intros Hl; [reflexivity|].
      inversion Hl; subst. exact (IH ltac:(assumption)). }
    rewrite H by assumption. discriminate.
Qed.

(** X17. A link without quotes is read up to the byte that ends it, with
    the spaces before it: when the bytes at the offset are spaces, then a
    run of bytes, the first no quote, that neither end a link (a byte up to
    the space, or a closing bracket) nor open a bracket, then a byte that
    ends a link, the text read is the spaces and the run. *)
Theorem searchLink_bare (pre blanks body rest : list ascii) (r0 t : ascii) :
  Forall (eq byte_space) blanks ->
  is_quote r0 = false ->
  Forall (fun r => is_plain r = true) (r0 :: body) ->
  is_stop t = true ->
  link_text (pre ++ blanks ++ r0 :: body ++ t :: rest)
            (Z.of_nat (length pre))
  = Returns (blanks ++ r0 :: body).
Proof.
  intros Hb Hq Hp Ht.
  assert (H0 : is_plain r0 = true) by now inversion Hp.
  destruct (is_plain_spec r0 H0) as (Hsp & _).
  rewrite link_text_at.
  rewrite (quote_from_found blanks pre r0 (body ++ t :: rest)) by auto.
  rewrite Hq. cbn [Ascii.eqb zero Bool.eqb].
  rewrite bare_end_start by assumption.
  replace (pre ++ blanks ++ r0 :: body ++ t :: rest)
    with (pre ++ (blanks ++ r0 :: body) ++ t :: rest)
    by (rewrite <- app_assoc; reflexivity).
  apply slice_middle.
Qed.

Lemma search_matches_returns (b : list ascii) (ends : list Z) :
  Forall (fun s => (0 <= s <= Z.of_nat (length b))%Z) ends ->
  exists links,
    search_matches b ends = Returns links
    /\ length links <= length ends
    /\ (IsAbs seed = true -> Forall (fun u => IsAbs u = true) links).
Proof.
  induction ends as [|s ends IH]; intros He.
  - exists []. split; [reflexivity|]. split; [reflexivity | constructor].
  - inversion He as [|? ? Hs He']; subst.
    destruct (IH He') as (links & Hl & Hn & Ha).
    destruct (link_text_returns b s Hs) as (str & _ & _ & Ht & _).
    cbn [search_matches]. unfold searchLink. rewrite Ht.
    destruct (url_Parse (string_of_list_ascii str)) as [u|e]; rewrite Hl.
    + exists (resolve u :: links). split; [reflexivity|].
      split; [simpl; lia|]. intros Hs'. constructor; auto.
      now apply resolve_IsAbs.
    + exists links. split; [reflexivity|]. split; [simpl; lia | exact Ha].
Qed.

(** X18. [readTXT] on matches that end inside the body never panics, hands
    over at most one link for each match, and, when the seed URL is
    absolute, only absolute links. *)
Theorem readTXT_search_links (ends1 ends2 : list Z) (body : string) :
  Forall (fun s => (0 <= s <= len body)%Z) ends1 ->
  Forall (fun s => (0 <= s <= len body)%Z) ends2 ->
  exists links,
    readTXT_search ends1 ends2 body = Returns links
    /\ length links <= length ends1 + length ends2
    /\ (IsAbs seed = true -> Forall (fun u => IsAbs u = true) links).
Proof.
  intros H1 H2.
  pose proof (length_list_ascii body) as Hlen.
  rewrite <- Hlen in H1, H2.
  destruct (search_matches_returns _ _ H1) as (l1 & E1 & N1 & A1).
  destruct (search_matches_returns _ _ H2) as (l2 & E2 & N2 & A2).
  exists (l1 ++ l2). unfold readTXT_search. rewrite E1, E2.
  split; [reflexivity|]. split; [rewrite length_app; lia|].
  intros Hs. apply Forall_app. auto.
Qed.
End TextLinkFacts.

(** * The links a task hands over *)

Lemma spawned_app (t1 t2 : list Event) :
  spawned (t1 ++ t2) = spawned t1 ++ spawned t2.
Proof. unfold spawned. apply flat_map_app. Qed.

Lemma spawned_logs (tr : list Event) :
  Forall (fun e => exists l, e = EvLog l) tr -> spawned tr = [].
Proof.
  induction 1 as [|e tr [l ->] _ IH]; [reflexivity|]. exact IH.
Qed.

Lemma spawned_map (links : list URL) : spawned (map EvSpawn links) = links.
Proof.
  induction links as [|u links IH]; [reflexivity|].
  cbn. unfold spawned in IH. now rewrite IH.
Qed.

Section SpawnFacts.
Variable url_String : URL -> string.
Variable url_Hostname : URL -> string.
Variable url_Parse : string -> URL + error.
Variable filepath_Clean : string -> string.
Variable PathSeparator : ascii.
Variable filepath_Split : string -> string * string.
Variable filepath_Ext : string -> string.
Variable mime_ExtensionsByType : string -> list string.
Variable http_DetectContentType : string -> string.
Variable html_Parse : string -> option Node.
Variable readTXT_links : string -> list URL.
Variable seed : URL.
Variable dir : string.
Variable RepeatsMax : Z.

Abbreviation loop_body := (loop_body url_String RepeatsMax).
Abbreviation request_loop := (request_loop url_String RepeatsMax).
Abbreviation read_phase :=
  (read_phase url_Parse http_DetectContentType html_Parse readTXT_links seed).
Abbreviation save_phase :=
  (save_phase filepath_Clean PathSeparator filepath_Split filepath_Ext
              mime_ExtensionsByType dir).
Abbreviation scan_obj :=
  (scan_obj url_String url_Parse filepath_Clean PathSeparator filepath_Split
            filepath_Ext mime_ExtensionsByType http_DetectContentType
            html_Parse readTXT_links seed dir RepeatsMax).
Abbreviation scan :=
  (scan url_String url_Hostname url_Parse filepath_Clean PathSeparator
        filepath_Split filepath_Ext mime_ExtensionsByType
        http_DetectContentType html_Parse readTXT_links seed dir RepeatsMax).
Abbreviation attr_events := (attr_events url_Parse seed).
Abbreviation walk := (walk url_Parse seed).
Abbreviation absolute := (Forall (fun u : URL => IsAbs u = true)).

Hypothesis seed_absolute : IsAbs seed = true.

Lemma resolve_absolute (u : URL) : IsAbs (resolve seed u) = true.
Proof.
  unfold resolve. destruct (IsAbs u) eqn:E; cbn; [exact E|].
  exact seed_absolute.
Qed.

Lemma attr_events_absolute (a : Attribute) : absolute (spawned (attr_events a)).
Proof.
  unfold attr_events.
  destruct (_ || _).
  - unfold parseSrc. destruct (url_Parse (Val a)); cbn.
    + constructor; [apply resolve_absolute | constructor].
    + constructor.
  - destruct (_ || _); [|constructor].
    pose proof (parseSrcset_outer_logs url_Parse seed
                  (strings_Split (Val a) ",") 0) as Hlogs.
    pose proof (parseSrcset_links url_Parse seed a) as Hlinks.
    unfold parseSrcset in *.
    destruct (parseSrcset_outer url_Parse seed 0 _) as [logs links].
    cbn [fst snd] in *.
    rewrite spawned_app, (spawned_logs _ Hlogs), spawned_map. cbn [app].
    rewrite Hlinks. apply Forall_forall. intros u Hu.
    apply list_elem_of_In, in_flat_map in Hu.
    destruct Hu as (entry & _ & Hu).
    destruct (url_Parse entry) as [v|]; [|destruct Hu].
    apply repeat_spec in Hu. subst u. apply resolve_absolute.
Qed.

Lemma walk_absolute : forall n : Node, absolute (spawned (walk n)).
Proof.
  fix IH 1. intros [d attrs cs]. simpl.
  rewrite spawned_app. apply Forall_app. split.
  - induction attrs as [|a attrs IHa]; [constructor|].
    cbn [flat_map]. rewrite spawned_app. apply Forall_app.
    split; [apply attr_events_absolute | exact IHa].
  - induction cs as [|c cs IHc]; [constructor|].
    rewrite spawned_app. apply Forall_app. split; [apply IH | exact IHc].
Qed.

Lemma loop_body_spawns (o : Source.t) (att : Attempt) :
  spawned (fst (loop_body o att)) = [].
Proof.
  unfold loop_body. destruct att as [|code clen body readErr].
  - destruct (_ >? _)%Z; reflexivity.
  - destruct (code =? 503)%Z.
    { cbn [fst]. rewrite spawned_app. unfold waitRepeat.
      repeat match goal with
             | |- context [if ?b then _ else _] => destruct b
             end; reflexivity. }
    destruct (code >=? 400)%Z; [reflexivity|].
    destruct readErr; [|reflexivity].
    destruct (_ >? _)%Z; reflexivity.
Qed.

Lemma request_loop_spawns (atts : list Attempt) :
  forall o, spawned (fst (request_loop atts o)) = [].
Proof.
  induction atts as [|att atts IH]; intros o; [reflexivity|].
  rewrite request_loop_cons.
  pose proof (loop_body_spawns o att) as Hb.
  destruct (loop_body o att) as [tr [o1|o1 body|o1]]; cbn [fst] in *;
    try exact Hb.
  specialize (IH o1). destruct (request_loop atts o1) as [tr' r].
  cbn [fst] in *. rewrite spawned_app, Hb, IH. reflexivity.
Qed.

Lemma save_phase_spawns (o : Source.t) (body : string) (env : Env) :
  spawned (fst (save_phase o body env)) = [].
Proof.
  unfold save_phase. destruct (file_name _ _ _ _ _) as [path name].
  pose proof (isParentPath_logs filepath_Clean PathSeparator dir
                                (dir +:+ path +:+ name)) as Hlogs.
  destruct (isParentPath _ _ _ _) as [logs r]. cbn [fst] in Hlogs.
  apply spawned_logs in Hlogs.
  destruct r as [[e|]|]; cbn [fst].
  - change (EvState SourceSave :: logs ++ ?l)
      with ([EvState SourceSave] ++ logs ++ l).
    rewrite !spawned_app, Hlogs. reflexivity.
  - destruct (mkdirAllErr env); [|destruct (writeFileErr env)]; cbn [fst];
      change (EvState SourceSave :: logs ++ ?l)
        with ([EvState SourceSave] ++ logs ++ l);
      rewrite !spawned_app, Hlogs; reflexivity.
  - change (EvState SourceSave :: logs) with ([EvState SourceSave] ++ logs).
    rewrite spawned_app, Hlogs. reflexivity.
Qed.

Hypothesis text_links_absolute : forall body, absolute (readTXT_links body).

Lemma read_phase_absolute (o : Source.t) (body : string) :
  absolute (spawned (fst (read_phase o body))).
Proof.
  unfold read_phase, readHTML, readTXT.
  destruct (strings_Contains _ "text/html").
  - destruct (html_Parse body) as [doc|]; cbn [fst].
    + change (EvState SourceRead :: ?l) with ([EvState SourceRead] ++ l).
      rewrite !spawned_app, spawned_map. cbn [spawned flat_map app].
      apply Forall_app. split; [apply walk_absolute|].
      apply text_links_absolute.
    + change (EvState SourceRead :: ?l) with ([EvState SourceRead] ++ l).
      rewrite !spawned_app, spawned_map. apply text_links_absolute.
  - destruct (ignored_mime _); cbn [fst]; [constructor|].
    change (EvState SourceRead :: ?l) with ([EvState SourceRead] ++ l).
    rewrite !spawned_app, spawned_map. apply text_links_absolute.
Qed.

Lemma scan_obj_absolute (o : Source.t) (env : Env) :
  absolute (spawned (fst (scan_obj o env))).
Proof.
  unfold scan_obj.
  destruct (_ >? _)%Z; [constructor|].
  destruct (negb _); [constructor|].
  destruct (Source.isExternal o); [constructor|].
  pose proof (request_loop_spawns (attempts env) o) as Hl.
  destruct (request_loop (attempts env) o) as [tr [o1 body|o1|o1]];
    cbn [fst] in *.
  - pose proof (read_phase_absolute o1 body) as Hr.
    destruct (read_phase o1 body) as [tr2 o2].
    pose proof (save_phase_spawns o2 body env) as Hs.
    destruct (save_phase o2 body env) as [tr3 r]. cbn [fst] in *.
    change (EvLog LogNewLink :: EvAcquire :: ?l)
      with ([EvLog LogNewLink; EvAcquire] ++ l).
    rewrite !spawned_app, Hl, Hs, app_nil_r. exact Hr.
  - change (EvLog LogNewLink :: EvAcquire :: tr)
      with ([EvLog LogNewLink; EvAcquire] ++ tr).
    rewrite spawned_app, Hl. constructor.
  - change (EvLog LogNewLink :: EvAcquire :: tr)
      with ([EvLog LogNewLink; EvAcquire] ++ tr).
    rewrite spawned_app, Hl. constructor.
Qed.

(** X19. Every task is launched on an absolute URL: when the seed URL is
    absolute and the links found in text are, every link a task hands to
    a new task, from the attributes [src], [href], [srcset] and
    [data-srcset] of an HTML body or from its text, is absolute, a
    relative link taking the scheme and the host of the seed. *)
Theorem scan_spawns_absolute (h : Heap) (s : Sources.t) (url : option URL)
        (env : Env) (h' : Heap) (s' : Sources.t) (tr : list Event)
        (st : Status) :
  scan h s url env = (h', s', tr, st) ->
  Forall (fun u => IsAbs u = true) (spawned tr).
Proof.
  unfold scan. destruct url as [u|];
    [|intros [= <- <- <- <-]; constructor].
  destruct (Add url_String url_Hostname seed h s u) as [[h1 s1] [p ok]].
  destruct ok; cbn [negb]; [|intros [= <- <- <- <-]; constructor].
  destruct (h1 !! p) as [o|]; [|intros [= <- <- <- <-]; constructor].
  pose proof (scan_obj_absolute o env) as Ho.
  destruct (scan_obj o env) as [tr1 r]. cbn [fst] in Ho.
  destruct r; intros [= <- <- <- <-]; unfold spawned in *;
    cbn [flat_map app]; rewrite ?flat_map_app; cbn [flat_map app];
    rewrite ?app_nil_r; exact Ho.
Qed.
End SpawnFacts.

(** ** Links in text at concrete inputs *)

Lemma searchLink_quoted_witness :
  example_link_text "url('a.png');" 4 = Returns "a.png"
  /\ searchLink ref_Parse example_seed (list_ascii_of_string "url('a.png');") 4
     = Returns (Some (mkURL "http" "" "example.com" "a.png" "" "")).
Proof.
  destruct (searchLink_quoted ref_Parse example_seed
              (list_ascii_of_string "url(") (list_ascii_of_string "a.png")
              (list_ascii_of_string ");") "'") as [Ht Hs].
  - reflexivity.
  - cbn. intuition discriminate.
  - cbn. discriminate.
  - split.
    + unfold example_link_text.
      change (list_ascii_of_string "url('a.png');")
        with (list_ascii_of_string "url(" ++ "'"%char
                :: list_ascii_of_string "a.png" ++ "'"%char
                :: list_ascii_of_string ");").
      change 4%Z with (Z.of_nat (length (list_ascii_of_string "url("))).
      rewrite Ht. reflexivity.
    + exact Hs.
Defined.

Lemma searchLink_space_before_quote_witness :
  example_link_text "url( 'a.png' );" 4 = Returns "".
Proof.
  unfold example_link_text.
  change (list_ascii_of_string "url( 'a.png' );")
    with (list_ascii_of_string "url(" ++ byte_space
            :: [] ++ "'"%char :: list_ascii_of_string "a.png' );").
  change 4%Z with (Z.of_nat (length (list_ascii_of_string "url("))).
  rewrite (searchLink_space_before_quote (list_ascii_of_string "url(") []
             (list_ascii_of_string "a.png' );") "'");
    [reflexivity | reflexivity | constructor].
Defined.

Lemma searchLink_bare_witness :
  example_link_text "url( a.png);" 4 = Returns " a.png".
Proof.
  unfold example_link_text.
  change (list_ascii_of_string "url( a.png);")
    with (list_ascii_of_string "url(" ++ [byte_space] ++ "a"%char
            :: list_ascii_of_string ".png" ++ ")"%char
            :: list_ascii_of_string ";").
  change 4%Z with (Z.of_nat (length (list_ascii_of_string "url("))).
  rewrite (searchLink_bare (list_ascii_of_string "url(") [byte_space]
             (list_ascii_of_string ".png") (list_ascii_of_string ";")
             "a" ")");
    [reflexivity | repeat constructor | reflexivity | repeat constructor
     | reflexivity].
Defined.

Lemma readTXT_search_links_witness :
  exists links,
    readTXT_search ref_Parse example_seed [4%Z] [23%Z]
                   "url('a.png') http://b.example/c "
    = Returns links
    /\ length links <= 2
    /\ Forall (fun u => IsAbs u = true) links.
Proof.
  destruct (readTXT_search_links ref_Parse example_seed [4%Z] [23%Z]
              "url('a.png') http://b.example/c ")
    as (links & H & Hn & Ha).
  - repeat constructor; unfold len; simpl; lia.
  - repeat constructor; unfold len; simpl; lia.
  - exists links. split; [exact H|]. split; [exact Hn|].
    apply Ha. reflexivity.
Defined.

Lemma scan_spawns_absolute_witness :
  let page := Some (mkNode "a" [mkAttribute "href" "/b"] []) in
  let tr :=
    snd (fst (scan ref_String ref_Hostname ref_Parse ref_Clean "/" ref_Split
                   ref_Ext example_ExtensionsByType
                   (fun _ => "text/html; charset=utf-8") (fun _ => page)
                   example_readTXT_links example_seed example_dir 10
                   [] newSources (Some example_about)
                   (mkEnv [Response 200 5 "hello" false] false false))) in
  spawned tr = [mkURL "http" "" "example.com" "/b" "" ""]
  /\ Forall (fun u => IsAbs u = true) (spawned tr).
Proof.
  intros page tr. split; [reflexivity|].
  destruct (scan ref_String ref_Hostname ref_Parse ref_Clean "/" ref_Split
                 ref_Ext example_ExtensionsByType
                 (fun _ => "text/html; charset=utf-8") (fun _ => page)
                 example_readTXT_links example_seed example_dir 10
                 [] newSources (Some example_about)
                 (mkEnv [Response 200 5 "hello" false] false false))
    as [[[h' s'] tr'] st] eqn:HS.
  subst tr. cbn [fst snd].
  refine (scan_spawns_absolute ref_String ref_Hostname ref_Parse ref_Clean
            "/" ref_Split ref_Ext example_ExtensionsByType
            (fun _ => "text/html; charset=utf-8") (fun _ => page)
            example_readTXT_links example_seed example_dir 10
            eq_refl (fun _ => ltac:(constructor))
            [] newSources (Some example_about)
            (mkEnv [Response 200 5 "hello" false] false false)
            h' s' tr' st HS).
Defined.

(** * The report *)

Section ReportFacts.
Variable runes_of : string -> list Z.
Variable status_string : StatusText -> string.
Variable url_String : URL -> string.
Variable make_ok : Z -> bool.

Abbreviation cell := (cell make_ok).
Abbreviation report_cells := (report_cells make_ok).
Abbreviation report_row :=
  (report_row runes_of status_string url_String make_ok).
Abbreviation report_loop :=
  (report_loop runes_of status_string url_String make_ok).
Abbreviation Report := (Report runes_of status_string url_String make_ok).

Lemma int_wrap_in_range (z : Z) :
  (int_min <= z <= int_max)%Z -> int_wrap z = z.
Proof.
  unfold int_wrap, int_min, int_max. intros H.
  rewrite Z.mod_small; lia.
Qed.

(** A cell of three runes or more has the width asked for. *)
Lemma cell_returns (runes : list Z) (lenMax : Z) :
  (Z.of_nat (length runes) <= int_max)%Z ->
  (3 <= lenMax <= int_max)%Z ->
  (forall n, (0 < n <= lenMax)%Z -> make_ok n = true) ->
  exists out,
    cell runes lenMax = Returns out
    /\ Z.of_nat (length out) = lenMax
    /\ ((Z.of_nat (length runes) <= lenMax)%Z ->
        out = runes
                ++ repeat rune_space
                          (Z.to_nat (lenMax - Z.of_nat (length runes))))
    /\ ((lenMax < Z.of_nat (length runes))%Z ->
        out = [rune_dot; rune_dot; rune_dot]
                ++ drop (Z.to_nat (Z.of_nat (length runes) - (lenMax - 3)))
                        runes).
Proof.
  intros Hlen Hmax Hmake. unfold cell.
  set (l := Z.of_nat (length runes)) in *.
  assert (Hl : (0 <= l)%Z) by lia.
  destruct (Z.eqb_spec l lenMax) as [E|NE].
  - exists runes. split; [reflexivity|]. split; [exact E|].
    split; [|lia]. intros _. rewrite <- E, Z.sub_diag. cbn.
    now rewrite app_nil_r.
  - destruct (Z.gtb_spec l lenMax) as [G|L].
    + rewrite (int_wrap_in_range (lenMax - 3))
        by (unfold int_min, int_max in *; lia).
      rewrite (int_wrap_in_range (l - (lenMax - 3)))
        by (unfold int_min, int_max in *; lia).
      destruct (Z.leb_spec 0 (l - (lenMax - 3))); [|lia].
      destruct (Z.leb_spec (l - (lenMax - 3)) l); [|lia].
      cbn [andb]. eexists. split; [reflexivity|].
      split; [|split; [lia | reflexivity]].
      rewrite length_app, length_drop. cbn [length]. lia.
    + rewrite (int_wrap_in_range (lenMax - l))
        by (unfold int_min, int_max in *; lia).
      rewrite Hmake by lia.
      eexists. split; [reflexivity|].
      split; [|split; [reflexivity | lia]].
      rewrite length_app, repeat_length. lia.
Qed.

(** X20. A cell has the width of its column: for a width of three or more
    for which [make] succeeds, [cell] returns exactly that many runes: the
    text itself when it fits exactly, the text padded with spaces on the
    right when it is shorter, and three dots followed by the last
    [lenMax - 3] runes of the text when it is longer.  For a width below
    three a longer text makes it panic. *)
Theorem cell_width (runes : list Z) (lenMax : Z) :
  (Z.of_nat (length runes) <= int_max)%Z ->
  (int_min + 3 <= lenMax <= int_max)%Z ->
  (forall n, (0 < n <= lenMax)%Z -> make_ok n = true) ->
  ((3 <= lenMax)%Z ->
   exists out,
     cell runes lenMax = Returns out
     /\ Z.of_nat (length out) = lenMax
     /\ ((Z.of_nat (length runes) <= lenMax)%Z ->
         exists n, out = runes ++ repeat rune_space n)
     /\ ((lenMax < Z.of_nat (length runes))%Z ->
         exists k,
           Z.of_nat (length (drop k runes)) = (lenMax - 3)%Z
           /\ out = [rune_dot; rune_dot; rune_dot] ++ drop k runes))
  /\ ((lenMax < 3)%Z -> (lenMax < Z.of_nat (length runes))%Z ->
      cell runes lenMax = Panics).
Proof.
  intros Hlen Hmax Hmake. split.
  - intros H3.
    destruct (cell_returns runes lenMax Hlen ltac:(lia) Hmake)
      as (out & Hc & Hw & Hshort & Hlong).
    exists out. split; [exact Hc|]. split; [exact Hw|]. split.
    + intros H. eexists. apply Hshort, H.
    + intros H. eexists. split; [|apply Hlong, H].
      rewrite length_drop. lia.
  - intros H3 Hl. unfold cell.
    destruct (Z.eqb_spec (Z.of_nat (length runes)) lenMax) as [E|NE]; [lia|].
    destruct (Z.gtb_spec (Z.of_nat (length runes)) lenMax) as [G|L]; [|lia].
    rewrite (int_wrap_in_range (lenMax - 3))
      by (unfold int_min, int_max in *; lia).
    set (lo := int_wrap (Z.of_nat (length runes) - (lenMax - 3))).
    destruct (Z.leb_spec 0 lo) as [H0|H0]; [|reflexivity].
    destruct (Z.leb_spec lo (Z.of_nat (length runes))) as [H1|H1];
      [|reflexivity].
    exfalso. subst lo. unfold int_wrap, int_min, int_max in *.
    assert (Hcase : (Z.of_nat (length runes) - (lenMax - 3) + 2 ^ 63
                     < 2 ^ 64
                     \/ 2 ^ 64 <= Z.of_nat (length runes) - (lenMax - 3)
                                  + 2 ^ 63)%Z) by lia.
    destruct Hcase as [Hc | Hc].
    + rewrite Z.mod_small in H1 by lia. lia.
    + assert (Hm : ((Z.of_nat (length runes) - (lenMax - 3) + 2 ^ 63)
                      mod 2 ^ 64
                    = Z.of_nat (length runes) - (lenMax - 3) + 2 ^ 63
                      - 2 ^ 64)%Z).
      { symmetry. apply Z.mod_unique_pos with (q := 1%Z); lia. }
      rewrite Hm in H0. lia.
Qed.

Lemma report_cells_returns (c1 c2 c3 : list Z) :
  short c1 -> short c2 -> short c3 ->
  (forall n, (0 < n <= 100)%Z -> make_ok n = true) ->
  exists row, report_cells c1 c2 c3 = Returns row /\ length row = 204.
Proof.
  intros H1 H2 H3 Hmake. unfold report_cells.
  destruct (cell_returns c1 100 H1) as (a1 & -> & L1 & _);
    [unfold int_max; lia | intros; apply Hmake; lia |].
  destruct (cell_returns c2 30 H2) as (a2 & -> & L2 & _);
    [unfold int_max; lia | intros; apply Hmake; lia |].
  destruct (cell_returns c3 70 H3) as (a3 & -> & L3 & _);
    [unfold int_max; lia | intros; apply Hmake; lia |].
  eexists. split; [reflexivity|].
  rewrite !length_app. cbn [length]. lia.
Qed.

Abbreviation row_short := (row_short runes_of status_string url_String).

Hypothesis make_small : forall n, (0 < n <= 100)%Z -> make_ok n = true.

Lemma report_row_returns (RepeatsMax : Z) (o : Source.t) :
  err_recorded o ->
  row_short RepeatsMax o ->
  exists row, report_row RepeatsMax o = Returns row /\ length row = 204.
Proof.
  intros He (H1 & H2 & H3). unfold report_row.
  destruct (repObjStatus RepeatsMax o) as [status|] eqn:Es.
  - apply report_cells_returns; auto.
  - exfalso. revert Es. now apply repObjStatus_recorded.
Qed.

(** The resources a report lists: all of them, or those being fetched,
    read or saved. *)
Lemma report_loop_spec (full : bool) (RepeatsMax : Z) (h : Heap)
      (a : list nat) :
  forall (t : Totals) (rows : list (list Z)),
  Forall (fun p => exists o, h !! p = Some o /\ err_recorded o
                              /\ row_short RepeatsMax o) a ->
  (0 <= totalCountExt t <= totalCount t)%Z ->
  (totalCount t + Z.of_nat (length a) <= int_max)%Z ->
  exists t' new,
    report_loop full RepeatsMax h a t rows = Returns (t', rows ++ new)
    /\ totalCount t' = (totalCount t + Z.of_nat (length a))%Z
    /\ totalCountExt t'
       = (totalCountExt t
          + Z.of_nat (length (List.filter Source.isExternal
                                          (omap (fun p => h !! p) a))))%Z
    /\ Forall2 (fun o row => report_row RepeatsMax o = Returns row)
               (List.filter
                  (fun o => full || is_active (Source.state o))
                  (omap (fun p => h !! p) a))
               new
    /\ Forall (fun row => length row = 204) new.
Proof.
  induction a as [|p a IH]; intros t rows Ha Ht Hn.
  - exists t, []. cbn. rewrite app_nil_r.
    repeat split; try lia; constructor.
  - inversion Ha as [|? ? (o & Ho & He & Hs) Ha']; subst.
    cbn [report_loop omap list_omap]. rewrite Ho.
    cbn [length] in Hn.
    rewrite int_incr_in_range by (unfold int_min, int_max in *; lia).
    cbn [totalCount totalCountExt totalSize List.filter].
    set (t1 := if Source.isExternal o
               then mkTotals (totalCount t + 1)
                             (int_incr (totalCountExt t)) (totalSize t)
               else mkTotals (totalCount t + 1) (totalCountExt t)
                             (int_wrap (totalSize t + Source.size o))).
    assert (H1 : totalCount t1 = (totalCount t + 1)%Z
                 /\ totalCountExt t1
                    = (totalCountExt t
                       + if Source.isExternal o then 1 else 0)%Z).
    { subst t1. destruct (Source.isExternal o); cbn; [|lia].
      rewrite int_incr_in_range by (unfold int_min, int_max in *; lia).
      lia. }
    destruct H1 as [Hc Hx].
    assert (Hext : (0 <= totalCountExt t1 <= totalCount t1)%Z)
      by (destruct (Source.isExternal o); lia).
    assert (Hn1 : (totalCount t1 + Z.of_nat (length a) <= int_max)%Z)
      by lia.
    destruct (negb full && negb (is_active (Source.state o))) eqn:Eskip.
    + destruct (IH t1 rows Ha' Hext Hn1) as (t' & new & -> & Hc' & Hx' & Hr & Hw).
      exists t', new. split; [reflexivity|].
      split; [cbn [length]; lia|]. split.
      { destruct (Source.isExternal o); cbn [length]; lia. }
      split; [|exact Hw].
      assert (Ef : full || is_active (Source.state o) = false).
      { destruct full, (is_active (Source.state o)); cbn in *; congruence. }
      rewrite Ef. exact Hr.
    + destruct (report_row_returns RepeatsMax o He Hs)
        as (row & Hrow & Hlen).
      rewrite Hrow.
      destruct (IH t1 (rows ++ [row]) Ha' Hext Hn1)
        as (t' & new & -> & Hc' & Hx' & Hr & Hw).
      exists t', (row :: new). split.
      { rewrite <- app_assoc. reflexivity. }
      split; [cbn [length]; lia|]. split.
      { destruct (Source.isExternal o); cbn [length]; lia. }
      assert (Ef : full || is_active (Source.state o) = true).
      { destruct full, (is_active (Source.state o)); cbn in *; congruence. }
      rewrite Ef. split; constructor; auto.
Qed.

(** X21. The table of a report: on a scanner that has a list of resources
    (every [Start] gives it one; a scanner never started has none, and
    [Report] panics on it), with an error recorded for every resource in
    an error state, [Report] returns; it lists every resource when [full]
    and otherwise those in [SourceRequest], [SourceDownload], [SourceRead]
    and [SourceSave], in the order of registration; the heading and every
    line of the table have the same width, 204 runes with the end of the
    line; and the totals count every resource of the registry, external
    and internal ones adding up. *)
Theorem Report_table (full : bool) (h : Heap) (s : Scanner.t) :
  short (runes_of "URL") -> short (runes_of "Тип") ->
  short (runes_of "Статус") ->
  (Scanner.sources s = None -> Report full h s = Panics)
  /\ forall srcs,
       Scanner.sources s = Some srcs ->
       registry_ok url_String h srcs ->
       Forall err_recorded h ->
       Forall (row_short (ScannerParams.RepeatsMax (Scanner.params s))) h ->
       (Z.of_nat (length (Sources_List srcs)) <= int_max)%Z ->
       exists parts,
         Report full h s = Returns parts
         /\ length (rep_header parts) = 204 + 50 + 1
         /\ Forall (fun row => length row = 204) (rep_rows parts)
         /\ Forall2 (fun o row =>
                       report_row (ScannerParams.RepeatsMax
                                     (Scanner.params s)) o
                       = Returns row)
                    (List.filter
                       (fun o => full || is_active (Source.state o))
                       (listed h srcs))
                    (rep_rows parts)
         /\ length (listed h srcs) = length (Sources_List srcs)
         /\ rep_totalCount parts = Z.of_nat (length (Sources_List srcs))
         /\ rep_totalCountExt parts
            = Z.of_nat (length (List.filter Source.isExternal
                                            (listed h srcs)))
         /\ (rep_totalCountExt parts + rep_internal parts
             = rep_totalCount parts)%Z
         /\ rep_threads parts = Scanner.threads s.
Proof.
  intros Hh1 Hh2 Hh3. unfold Report.
  destruct (report_cells_returns (runes_of "URL") (runes_of "Тип")
              (runes_of "Статус") Hh1 Hh2 Hh3 make_small)
    as (head & -> & Hhead).
  split; [intros ->; reflexivity|].
  intros srcs -> Hok Herr Hshort Hn.
  assert (Ha : Forall (fun p => exists o,
                         h !! p = Some o /\ err_recorded o
                         /\ row_short
                              (ScannerParams.RepeatsMax (Scanner.params s)) o)
                      (Sources_List srcs)).
  { apply Forall_forall. intros p Hp. unfold Sources_List in Hp.
    apply (ok_listed _ _ _ Hok) in Hp. destruct Hp as [k Hk].
    pose proof (registry_ok_bound _ _ _ _ _ Hok Hk) as Hb.
    destruct (lookup_lt_is_Some_2 h p Hb) as [o Ho].
    exists o. rewrite Forall_forall in Herr, Hshort.
    pose proof (list_elem_of_lookup_2 h p o Ho) as Hin.
    split; [exact Ho|]. split; [apply Herr, Hin | apply Hshort, Hin]. }
  destruct (report_loop_spec full
              (ScannerParams.RepeatsMax (Scanner.params s)) h
              (Sources_List srcs) (mkTotals 0 0 0) [] Ha)
    as (t' & new & -> & Hc & Hx & Hr & Hw); [cbn; lia | cbn; lia |].
  cbn [totalCount totalCountExt] in Hc, Hx.
  assert (Hlisted : length (listed h srcs) = length (Sources_List srcs)).
  { unfold listed. clear -Ha.
    induction Ha as [|p a (o & Ho & _) _ IH]; [reflexivity|].
    cbn. rewrite Ho. cbn. now rewrite IH. }
  pose proof (List.filter_length_le Source.isExternal (listed h srcs))
    as Hle.
  eexists. split; [reflexivity|]. cbn.
  split; [rewrite !length_app, Hhead; unfold line;
          rewrite repeat_length; reflexivity|].
  split; [exact Hw|]. split; [exact Hr|]. split; [exact Hlisted|].
  split; [lia|]. split; [exact Hx|]. split; [|reflexivity].
  rewrite Hx, Hc.
  rewrite int_wrap_in_range; [lia|].
  unfold listed in *. unfold int_min, int_max in *. lia.
Qed.
End ReportFacts.

(** ** The report at concrete inputs *)

Lemma example_make_ok_small (k n : Z) :
  (k <= 2 ^ 32)%Z -> (0 < n <= k)%Z -> example_make_ok n = true.
Proof.
  intros Hk Hn. unfold example_make_ok.
  apply andb_true_iff. split; apply Z.leb_le; lia.
Qed.

Lemma cell_width_witness :
  cell example_make_ok [1; 2; 3; 4; 5; 6; 7; 8]%Z 5
  = Returns [rune_dot; rune_dot; rune_dot; 7; 8]%Z
  /\ exists out,
       cell example_make_ok [1; 2; 3; 4; 5; 6; 7; 8]%Z 5 = Returns out
       /\ Z.of_nat (length out) = 5%Z.
Proof.
  split; [reflexivity|].
  destruct (cell_width example_make_ok [1; 2; 3; 4; 5; 6; 7; 8]%Z 5)
    as [H _].
  - unfold int_max. simpl. lia.
  - unfold int_min, int_max. lia.
  - intros n Hn. apply (example_make_ok_small 5); lia.
  - destruct H as (out & Hc & Hw & _); [lia|].
    exists out. split; [exact Hc | exact Hw].
Defined.

Lemma Report_table_witness :
  exists parts,
    Report example_runes example_status_string ref_String example_make_ok
           false example_store example_scanning
    = Returns parts
    /\ length (rep_rows parts) = 1
    /\ Forall (fun row => length row = 204) (rep_rows parts)
    /\ rep_totalCount parts = 2%Z
    /\ rep_totalCountExt parts = 0%Z
    /\ rep_internal parts = 2%Z.
Proof.
  assert (Hok : registry_ok ref_String example_store (snd example_registry)).
  { assert (Hok0 : registry_ok ref_String (fst example_registry)
                               (snd example_registry)).
    { unfold example_registry.
      destruct (AddAll ref_String ref_Hostname example_seed [] newSources
                       [example_about; example_logo])
        as [[h0 s0] rs] eqn:EA.
      exact (proj1 (AddAll_spec ref_String ref_Hostname example_seed _ _ _
                      _ _ _ (registry_ok_new ref_String []) EA)). }
    change (fst example_registry)
      with [Source.mk example_about SourceWait "" 0 false true None None 0;
            Source.mk example_logo SourceWait "" 0 false true None None 0]
      in Hok0.
    eapply (registry_ok_update ref_String _ _ 1) in Hok0;
      [|reflexivity|];
      [eapply (registry_ok_update ref_String _ _ 0) in Hok0;
         [exact Hok0 | reflexivity | reflexivity]
      | reflexivity]. }
  assert (Hmake : forall n, (0 < n <= 100)%Z -> example_make_ok n = true).
  { intros n Hn. apply (example_make_ok_small 100); lia. }
  destruct (Report_table example_runes example_status_string ref_String
              example_make_ok Hmake false example_store example_scanning)
    as [_ H].
  - unfold short, int_max. simpl. lia.
  - unfold short, int_max. simpl. lia.
  - unfold short, int_max. simpl. lia.
  - destruct (H (snd example_registry) eq_refl Hok)
      as (parts & Hr & _ & Hw & Hrows & _ & Hc & Hx & Hi & _).
    + repeat constructor. discriminate.
    + repeat constructor; try (unfold short, int_max; simpl; lia);
        intros status [= <-]; unfold short, int_max; simpl; lia.
    + vm_compute. discriminate.
    + exists parts. split; [exact Hr|].
      apply Forall2_length in Hrows.
      split; [rewrite <- Hrows; reflexivity|].
      assert (Hc2 : rep_totalCount parts = 2%Z) by exact Hc.
      assert (Hx0 : rep_totalCountExt parts = 0%Z) by exact Hx.
      split; [exact Hw|]. split; [exact Hc2|]. split; [exact Hx0|]. lia.
Defined.

(** * Where a task leaves its resource *)

(** X22. The names of the states tell them apart: [SourceState.String]
    and [ScannerState.String] give different texts for different states,
    so a status shown by the report or named in the error of [Start]
    stands for one state only. *)
Theorem State_String_injective :
  (forall a b : SourceState,
      SourceState_String a = SourceState_String b -> a = b)
  /\ (forall a b : ScannerState,
        ScannerState_String a = ScannerState_String b -> a = b).
Proof.
  split; intros a b; destruct a, b; intros H;
    first [reflexivity | discriminate H].
Qed.

Section FinalFacts.
Variable url_String : URL -> string.
Variable url_Hostname : URL -> string.
Variable url_Parse : string -> URL + error.
Variable filepath_Clean : string -> string.
Variable PathSeparator : ascii.
Variable filepath_Split : string -> string * string.
Variable filepath_Ext : string -> string.
Variable mime_ExtensionsByType : string -> list string.
Variable http_DetectContentType : string -> string.
Variable html_Parse : string -> option Node.
Variable readTXT_links : string -> list URL.
Variable seed : URL.
Variable dir : string.
Variable RepeatsMax : Z.

Abbreviation Add := (Add url_String url_Hostname seed).
Abbreviation loop_body := (loop_body url_String RepeatsMax).
Abbreviation request_loop := (request_loop url_String RepeatsMax).
Abbreviation read_phase :=
  (read_phase url_Parse http_DetectContentType html_Parse readTXT_links seed).
Abbreviation save_phase :=
  (save_phase filepath_Clean PathSeparator filepath_Split filepath_Ext
              mime_ExtensionsByType dir).
Abbreviation scan_obj :=
  (scan_obj url_String url_Parse filepath_Clean PathSeparator filepath_Split
            filepath_Ext mime_ExtensionsByType http_DetectContentType
            html_Parse readTXT_links seed dir RepeatsMax).
Abbreviation scan :=
  (scan url_String url_Hostname url_Parse filepath_Clean PathSeparator
        filepath_Split filepath_Ext mime_ExtensionsByType
        http_DetectContentType html_Parse readTXT_links seed dir RepeatsMax).

(** A pass of the loop that ends the task leaves an error state. *)
Lemma loop_body_return_state (o o' : Source.t) (att : Attempt) :
  snd (loop_body o att) = Return o' ->
  Source.state o' = SourceRequestError
  \/ Source.state o' = SourceDownloadError.
Proof.
  unfold loop_body. destruct att as [|code clen body readErr]; cbn [snd].
  - destruct (_ >? _)%Z; intros [= <-]; cbn; auto.
  - destruct (code =? 503)%Z; [discriminate|].
    destruct (code >=? 400)%Z; [intros [= <-]; cbn; auto|].
    destruct readErr; [|discriminate].
    destruct (_ >? _)%Z; intros [= <-]; cbn; auto.
Qed.

Lemma request_loop_failed_state (atts : list Attempt) :
  forall o o',
  snd (request_loop atts o) = Failed o' ->
  Source.state o' = SourceRequestError
  \/ Source.state o' = SourceDownloadError.
Proof.
  induction atts as [|att atts IH]; intros o o'; [discriminate|].
  rewrite request_loop_cons.
  pose proof (loop_body_return_state o) as Hb. specialize (Hb o' att).
  destruct (loop_body o att) as [tr [o1|o1 body|o1]]; cbn [snd] in *.
  - specialize (IH o1 o'). destruct (request_loop atts o1) as [tr' r].
    exact IH.
  - discriminate.
  - intros [= <-]. now apply Hb.
Qed.

(** The end of saving: the counter is left alone, and the state is
    [SourceSaveError] or [SourceComplete]. *)
Lemma save_phase_final (o : Source.t) (body : string) (env : Env) :
  match snd (save_phase o body env) with
  | Returned o' =>
      Source.repeats o' = Source.repeats o
      /\ (Source.state o' = SourceSaveError
          \/ Source.state o' = SourceComplete)
  | Running _ | Crashed _ => False
  end.
Proof.
  unfold save_phase. destruct (file_name _ _ _ _ _) as [path name].
  destruct (isParentPath_returns filepath_Clean PathSeparator dir
                                 (dir +:+ path +:+ name)) as [r Hr].
  destruct (isParentPath _ _ _ _) as [logs r'].
  cbn [snd] in Hr. subst r'.
  destruct r as [e|]; cbn [snd].
  - simpl. auto.
  - destruct (mkdirAllErr env); [|destruct (writeFileErr env)]; simpl; auto.
Qed.

(** The body of a task that returns leaves one of the five final
    states. *)
Lemma scan_obj_returned_state (o o' : Source.t) (env : Env) :
  snd (scan_obj o env) = Returned o' ->
  Source.state o' = SourceSkip
  \/ Source.state o' = SourceRequestError
  \/ Source.state o' = SourceDownloadError
  \/ Source.state o' = SourceSaveError
  \/ Source.state o' = SourceComplete.
Proof.
  unfold scan_obj.
  destruct (_ >? _)%Z; [intros [= <-]; cbn; auto|].
  destruct (negb _); [intros [= <-]; cbn; auto|].
  destruct (Source.isExternal o); [intros [= <-]; cbn; auto|].
  pose proof (request_loop_failed_state (attempts env) o) as Hl.
  destruct (request_loop (attempts env) o) as [tr [o1 body|o1|o1]];
    cbn [snd] in *.
  - destruct (read_phase o1 body) as [tr2 o2].
    pose proof (save_phase_final o2 body env) as Hs.
    destruct (save_phase o2 body env) as [tr3 r]. cbn [snd] in *.
    intros ->. destruct Hs as [_ [Hs | Hs]]; auto.
  - intros [= <-]. destruct (Hl o1 eq_refl); auto.
  - discriminate.
Qed.

(** X23. A task that has returned leaves its resource in a final state:
    for a newly registered URL the state is then [SourceSkip],
    [SourceRequestError], [SourceDownloadError], [SourceSaveError] or
    [SourceComplete], whatever the answers were, and a report that is not
    full does not list it any more. *)
Theorem scan_final_state (h : Heap) (s : Sources.t) (u : URL) (env : Env)
        (h1 h' : Heap) (s1 s' : Sources.t) (p : nat) (tr : list Event) :
  Add h s u = (h1, s1, (p, true)) ->
  scan h s (Some u) env = (h', s', tr, Finished) ->
  exists o',
    h' !! p = Some o'
    /\ (Source.state o' = SourceSkip
        \/ Source.state o' = SourceRequestError
        \/ Source.state o' = SourceDownloadError
        \/ Source.state o' = SourceSaveError
        \/ Source.state o' = SourceComplete)
    /\ is_active (Source.state o') = false.
Proof.
  intros HA.
  rewrite (scan_created _ _ _ _ _ _ _ _ _ _ _ _ _ _ _ _ _ _ _ _ _ HA).
  destruct (Add_created _ _ _ _ _ _ _ _ _ HA) as (-> & -> & Hp & _).
  apply lookup_lt_Some in Hp.
  match goal with
  | |- context [scan_obj ?o env] =>
      pose proof (fun o' => scan_obj_returned_state o o' env) as Hf;
      destruct (scan_obj o env) as [tr1 r]
  end.
  cbn [snd] in Hf.
  destruct r as [o'|o'|o']; intros [= <- <- <-].
  exists o'. split; [now apply list_lookup_insert_eq|].
  specialize (Hf o' eq_refl). split; [exact Hf|].
  destruct Hf as [-> | [-> | [-> | [-> | ->]]]]; reflexivity.
Qed.

(** One pass of the loop: whether it counts as a failed attempt. *)
Lemma loop_body_counts (o : Source.t) (att : Attempt) :
  (0 <= Source.repeats o < int_max)%Z ->
  match snd (loop_body o att) with
  | Continue o' => Source.repeats o' = (Source.repeats o + 1)%Z
  | Break o' _ => Source.repeats o' = Source.repeats o
  | Return o' =>
      Source.repeats o' = (Source.repeats o + 1)%Z
      \/ Source.repeats o' = Source.repeats o
  end.
Proof.
  intros Hr. unfold loop_body.
  destruct att as [|code clen body readErr]; simpl.
  - rewrite int_incr_in_range by (unfold int_min, int_max in *; lia).
    destruct (_ >? _)%Z; simpl; auto.
  - destruct (code =? 503)%Z.
    { simpl. rewrite int_incr_in_range
        by (unfold int_min, int_max in *; lia). auto. }
    destruct (code >=? 400)%Z; [simpl; auto|].
    destruct readErr.
    + destruct (clen >? 0)%Z; simpl;
        rewrite int_incr_in_range by (unfold int_min, int_max in *; lia);
        (destruct (_ >? _)%Z; simpl; auto).
    + destruct (clen >? 0)%Z; simpl; auto.
Qed.

(** The loop that has ended: the counter is the number of requests, less
    the last one when that was not counted as a failure. *)
Lemma request_loop_counts (atts : list Attempt) :
  forall o,
  (0 <= Source.repeats o)%Z ->
  (Source.repeats o + Z.of_nat (length atts) <= int_max)%Z ->
  let n := Z.of_nat (requests (fst (request_loop atts o))) in
  match snd (request_loop atts o) with
  | Pending _ => True
  | Fetched o' _ => (Source.repeats o' + 1 = Source.repeats o + n)%Z
  | Failed o' =>
      (Source.repeats o' = Source.repeats o + n)%Z
      \/ (Source.repeats o' + 1 = Source.repeats o + n)%Z
  end.
Proof.
  induction atts as [|att atts IH]; intros o H0 Hn.
  - exact I.
  - cbn [length] in Hn. rewrite request_loop_cons.
    pose proof (loop_body_counts o att ltac:(lia)) as Hb.
    pose proof (loop_body_requests url_String RepeatsMax o att) as Hone.
    destruct (loop_body o att) as [tr [o1|o1 body|o1]]; cbn [fst snd] in *.
    + specialize (IH o1 ltac:(lia) ltac:(lia)).
      destruct (request_loop atts o1) as [tr' r]. cbn [fst snd] in *.
      rewrite requests_app, Hone.
      destruct r as [o2 body|o2|o2]; [lia | lia | exact I].
    + rewrite Hone. lia.
    + rewrite Hone. lia.
Qed.

(** The body of a task on a new resource, once it has returned. *)
Lemma scan_obj_counts (o o' : Source.t) (env : Env) :
  Source.repeats o = 0%Z ->
  (Z.of_nat (length (attempts env)) <= int_max)%Z ->
  snd (scan_obj o env) = Returned o' ->
  let n := Z.of_nat (requests (fst (scan_obj o env))) in
  n = Source.repeats o' \/ n = (Source.repeats o' + 1)%Z.
Proof.
  intros Hrep Hn. unfold scan_obj.
  destruct (_ >? _)%Z; [intros [= <-]; cbn; auto|].
  destruct (negb _); [intros [= <-]; cbn; auto|].
  destruct (Source.isExternal o); [intros [= <-]; cbn; auto|].
  pose proof (request_loop_counts (attempts env) o ltac:(lia) ltac:(lia))
    as Hl.
  cbn zeta in Hl. rewrite Hrep in Hl.
  destruct (request_loop (attempts env) o) as [tr [o1 body|o1|o1]];
    cbn [fst snd] in *.
  - pose proof (read_phase_keeps url_Parse http_DetectContentType html_Parse
                  readTXT_links seed o1 body) as (_ & _ & _ & _ & Hrp & _).
    pose proof (read_phase_stays url_Parse http_DetectContentType html_Parse
                  readTXT_links seed o1 body) as Hstay.
    destruct (read_phase o1 body) as [tr2 o2]. cbn [fst snd] in *.
    pose proof (save_phase_final o2 body env) as Hs.
    pose proof (save_phase_stays filepath_Clean PathSeparator filepath_Split
                  filepath_Ext mime_ExtensionsByType dir o2 body env)
      as Hstay3.
    destruct (save_phase o2 body env) as [tr3 r]. cbn [fst snd] in *.
    intros ->. destruct Hs as [Hr3 _].
    repeat (rewrite requests_cons || rewrite requests_app).
    rewrite (requests_outside _ _ Hstay), (requests_outside _ _ Hstay3).
    change (requests []) with 0%nat. lia.
  - intros [= <-].
    repeat (rewrite requests_cons || rewrite requests_app). lia.
  - discriminate.
Qed.

(** X24. The retry counter counts the requests: with the answers an
    [int] can count, a task on a newly registered URL that has returned has
    made as many requests as its counter tells, or one more (the last
    request is not counted when it was answered by a status that ends the
    task or by a body that was read). *)
Theorem scan_counts_requests (h : Heap) (s : Sources.t) (u : URL)
        (env : Env) (h1 h' : Heap) (s1 s' : Sources.t) (p : nat)
        (tr : list Event) :
  Add h s u = (h1, s1, (p, true)) ->
  (Z.of_nat (length (attempts env)) <= int_max)%Z ->
  scan h s (Some u) env = (h', s', tr, Finished) ->
  exists o',
    h' !! p = Some o'
    /\ (Z.of_nat (requests tr) = Source.repeats o'
        \/ Z.of_nat (requests tr) = (Source.repeats o' + 1)%Z).
Proof.
  intros HA Hn.
  rewrite (scan_created _ _ _ _ _ _ _ _ _ _ _ _ _ _ _ _ _ _ _ _ _ HA).
  destruct (Add_created _ _ _ _ _ _ _ _ _ HA) as (-> & -> & Hp & _).
  apply lookup_lt_Some in Hp.
  match goal with
  | |- context [scan_obj ?o env] =>
      pose proof (fun o' => scan_obj_counts o o' env eq_refl Hn) as Hf;
      destruct (scan_obj o env) as [tr1 r]
  end.
  cbn [fst snd] in Hf.
  destruct r as [o'|o'|o']; intros [= <- <- <-].
  exists o'. split; [now apply list_lookup_insert_eq|].
  specialize (Hf o' eq_refl). cbn zeta in Hf.
  repeat (rewrite requests_cons || rewrite requests_app).
  change (requests []) with 0%nat. lia.
Qed.
End FinalFacts.

(** ** At concrete inputs *)

Lemma scan_final_state_witness :
  exists h' s' tr o',
    example_scan 1 [] newSources (Some example_about)
                 (mkEnv [TransportError; Response 404 0 "" false]
                        false false)
    = (h', s', tr, Finished)
    /\ h' !! 0 = Some o'
    /\ Source.state o' = SourceRequestError
    /\ is_active (Source.state o') = false.
Proof.
  assert (HA : Add ref_String ref_Hostname example_seed [] newSources
                   example_about
               = ([Source.mk example_about SourceWait "" 0 false true
                             None None 0],
                  Sources.mk (<["http://example.com/about" := 0]> ∅) [0],
                  (0, true))) by reflexivity.
  assert (HS : example_scan 1 [] newSources (Some example_about)
                 (mkEnv [TransportError; Response 404 0 "" false]
                        false false)
               = (<[0 := Source.mk example_about SourceRequestError "" 0
                                   false true (Some (ErrStatus 404)) None 1]>
                    [Source.mk example_about SourceWait "" 0 false true
                               None None 0],
                  Sources.mk (<["http://example.com/about" := 0]> ∅) [0],
                  [EvThreads 1; EvAdd "http://example.com/about" 0 true;
                   EvLog LogNewLink; EvAcquire;
                   EvState SourceRequest; EvGet "http://example.com/about";
                   EvState SourceRequestWaitRepeat;
                   EvState SourceRequest; EvGet "http://example.com/about";
                   EvState SourceRequestError; EvRelease;
                   EvLog (LogStatus 404); EvThreads (-1); EvDone],
                  Finished)) by reflexivity.
  destruct (scan_final_state ref_String ref_Hostname ref_Parse ref_Clean "/"
              ref_Split ref_Ext example_ExtensionsByType
              example_DetectContentType example_html_Parse
              example_readTXT_links example_seed example_dir 1
              [] newSources example_about
              (mkEnv [TransportError; Response 404 0 "" false] false false)
              _ _ _ _ 0 _ HA HS)
    as (o' & Hp & _ & Ha).
  do 3 eexists. exists o'. split; [exact HS|]. split; [exact Hp|].
  split; [|exact Ha].
  cbn in Hp. injection Hp as <-. reflexivity.
Defined.

Lemma scan_counts_requests_witness :
  exists h' s' tr o',
    example_scan 1 [] newSources (Some example_about)
                 (mkEnv [TransportError; Response 404 0 "" false]
                        false false)
    = (h', s', tr, Finished)
    /\ h' !! 0 = Some o'
    /\ requests tr = 2
    /\ Source.repeats o' = 1%Z
    /\ (Z.of_nat (requests tr) = Source.repeats o'
        \/ Z.of_nat (requests tr) = (Source.repeats o' + 1)%Z).
Proof.
  assert (HA : Add ref_String ref_Hostname example_seed [] newSources
                   example_about
               = ([Source.mk example_about SourceWait "" 0 false true
                             None None 0],
                  Sources.mk (<["http://example.com/about" := 0]> ∅) [0],
                  (0, true))) by reflexivity.
  assert (HS : example_scan 1 [] newSources (Some example_about)
                 (mkEnv [TransportError; Response 404 0 "" false]
                        false false)
               = (<[0 := Source.mk example_about SourceRequestError "" 0
                                   false true (Some (ErrStatus 404)) None 1]>
                    [Source.mk example_about SourceWait "" 0 false true
                               None None 0],
                  Sources.mk (<["http://example.com/about" := 0]> ∅) [0],
                  [EvThreads 1; EvAdd "http://example.com/about" 0 true;
                   EvLog LogNewLink; EvAcquire;
                   EvState SourceRequest; EvGet "http://example.com/about";
                   EvState SourceRequestWaitRepeat;
                   EvState SourceRequest; EvGet "http://example.com/about";
                   EvState SourceRequestError; EvRelease;
                   EvLog (LogStatus 404); EvThreads (-1); EvDone],
                  Finished)) by reflexivity.
  destruct (scan_counts_requests ref_String ref_Hostname ref_Parse ref_Clean
              "/" ref_Split ref_Ext example_ExtensionsByType
              example_DetectContentType example_html_Parse
              example_readTXT_links example_seed example_dir 1
              [] newSources example_about
              (mkEnv [TransportError; Response 404 0 "" false] false false)
              _ _ _ _ 0 _ HA ltac:(vm_compute; discriminate) HS)
    as (o' & Hp & Hc).
  do 3 eexists. exists o'. split; [exact HS|]. split; [exact Hp|].
  split; [reflexivity|]. split; [|exact Hc].
  cbn in Hp. injection Hp as <-. reflexivity.
Defined.

(** * The counter of tasks and the wait group *)

Lemma threads_delta_app (t1 t2 : list Event) :
  threads_delta (t1 ++ t2) = (threads_delta t1 + threads_delta t2)%Z.
Proof.
  induction t1 as [|e t1 IH]; [reflexivity|].
  cbn. unfold threads_delta in *. destruct e; cbn; rewrite ?IH; lia.
Qed.

Lemma threads_delta_cons (e : Event) (tr : list Event) :
  threads_delta (e :: tr)
  = (match e with EvThreads d => d | _ => 0 end + threads_delta tr)%Z.
Proof. destruct e; reflexivity. Qed.

Lemma dones_cons (e : Event) (tr : list Event) :
  dones (e :: tr) = match e with EvDone => 1 | _ => 0 end + dones tr.
Proof. unfold dones. destruct e; reflexivity. Qed.

Lemma dones_app (t1 t2 : list Event) :
  dones (t1 ++ t2) = dones t1 + dones t2.
Proof. unfold dones. now rewrite List.filter_app, length_app. Qed.

Lemma body_events_quiet (tr : list Event) :
  Forall (fun e => body_event e = true) tr ->
  threads_delta tr = 0%Z /\ dones tr = 0.
Proof.
  induction 1 as [|e tr He _ [IH1 IH2]]; [split; reflexivity|].
  destruct e; try discriminate He; split; assumption.
Qed.

Lemma logs_body (tr : list Event) :
  Forall (fun e => exists l, e = EvLog l) tr ->
  Forall (fun e => body_event e = true) tr.
Proof.
  intros H. eapply Forall_impl; [exact H|]. now intros e [l ->].
Qed.

Lemma spawns_body (links : list URL) :
  Forall (fun e => body_event e = true) (map EvSpawn links).
Proof.
  induction links as [|u links IH]; constructor; [reflexivity | exact IH].
Qed.

Section CounterFacts.
Variable url_String : URL -> string.
Variable url_Hostname : URL -> string.
Variable url_Parse : string -> URL + error.
Variable filepath_Clean : string -> string.
Variable PathSeparator : ascii.
Variable filepath_Split : string -> string * string.
Variable filepath_Ext : string -> string.
Variable mime_ExtensionsByType : string -> list string.
Variable http_DetectContentType : string -> string.
Variable html_Parse : string -> option Node.
Variable readTXT_links : string -> list URL.
Variable seed : URL.
Variable dir : string.
Variable RepeatsMax : Z.

Abbreviation loop_body := (loop_body url_String RepeatsMax).
Abbreviation request_loop := (request_loop url_String RepeatsMax).
Abbreviation read_phase :=
  (read_phase url_Parse http_DetectContentType html_Parse readTXT_links seed).
Abbreviation save_phase :=
  (save_phase filepath_Clean PathSeparator filepath_Split filepath_Ext
              mime_ExtensionsByType dir).
Abbreviation scan_obj :=
  (scan_obj url_String url_Parse filepath_Clean PathSeparator filepath_Split
            filepath_Ext mime_ExtensionsByType http_DetectContentType
            html_Parse readTXT_links seed dir RepeatsMax).
Abbreviation scan :=
  (scan url_String url_Hostname url_Parse filepath_Clean PathSeparator
        filepath_Split filepath_Ext mime_ExtensionsByType
        http_DetectContentType html_Parse readTXT_links seed dir RepeatsMax).
Abbreviation attr_events := (attr_events url_Parse seed).
Abbreviation walk := (walk url_Parse seed).
Abbreviation inner := (Forall (fun e : Event => body_event e = true)).

Lemma loop_body_inner (o : Source.t) (att : Attempt) :
  inner (fst (loop_body o att)).
Proof.
  unfold loop_body. destruct att as [|code clen body readErr].
  - destruct (_ >? _)%Z; repeat constructor.
  - destruct (code =? 503)%Z.
    { cbn [fst]. apply Forall_app. split; [repeat constructor|].
      unfold waitRepeat.
      repeat match goal with
             | |- context [if ?b then _ else _] => destruct b
             end; repeat constructor. }
    destruct (code >=? 400)%Z; [repeat constructor|].
    destruct readErr; [|repeat constructor].
    destruct (_ >? _)%Z; repeat constructor.
Qed.

Lemma request_loop_inner (atts : list Attempt) :
  forall o, inner (fst (request_loop atts o)).
Proof.
  induction atts as [|att atts IH]; intros o; [constructor|].
  rewrite request_loop_cons.
  pose proof (loop_body_inner o att) as Hb.
  destruct (loop_body o att) as [tr [o1|o1 body|o1]]; cbn [fst] in *;
    try exact Hb.
  specialize (IH o1). destruct (request_loop atts o1) as [tr' r].
  cbn [fst] in *. apply Forall_app. auto.
Qed.

Lemma attr_events_inner (a : Attribute) : inner (attr_events a).
Proof.
  unfold attr_events.
  destruct (_ || _).
  - unfold parseSrc. destruct (url_Parse (Val a)); repeat constructor.
  - destruct (_ || _); [|constructor].
    pose proof (parseSrcset_outer_logs url_Parse seed
                  (strings_Split (Val a) ",") 0) as Hlogs.
    unfold parseSrcset.
    destruct (parseSrcset_outer url_Parse seed 0 _) as [logs links].
    apply Forall_app. split; [apply logs_body, Hlogs | apply spawns_body].
Qed.

Lemma walk_inner : forall n : Node, inner (walk n).
Proof.
  fix IH 1. intros [d attrs cs]. simpl. apply Forall_app. split.
  - induction attrs as [|a attrs IHa]; simpl; [constructor|].
    apply Forall_app. split; [apply attr_events_inner | exact IHa].
  - induction cs as [|c cs IHc]; [constructor|].
    apply Forall_app. split; [apply IH | exact IHc].
Qed.

Lemma read_phase_inner (o : Source.t) (body : string) :
  inner (fst (read_phase o body)).
Proof.
  unfold read_phase, readHTML, readTXT.
  destruct (strings_Contains _ "text/html").
  - destruct (html_Parse body) as [doc|]; cbn [fst].
    + constructor; [reflexivity|]. apply Forall_app.
      split; [apply walk_inner | apply spawns_body].
    + constructor; [reflexivity | apply spawns_body].
  - destruct (ignored_mime _); cbn [fst].
    + repeat constructor.
    + constructor; [reflexivity | apply spawns_body].
Qed.

Lemma save_phase_inner (o : Source.t) (body : string) (env : Env) :
  inner (fst (save_phase o body env)).
Proof.
  unfold save_phase. destruct (file_name _ _ _ _ _) as [path name].
  pose proof (isParentPath_logs filepath_Clean PathSeparator dir
                                (dir +:+ path +:+ name)) as Hlogs.
  destruct (isParentPath _ _ _ _) as [logs r]. cbn [fst] in Hlogs.
  apply logs_body in Hlogs.
  destruct r as [[e|]|]; cbn [fst].
  - constructor; [reflexivity|]. apply Forall_app.
    split; [exact Hlogs | repeat constructor].
  - destruct (mkdirAllErr env); [|destruct (writeFileErr env)]; cbn [fst];
      (constructor; [reflexivity|]); apply Forall_app;
      (split; [exact Hlogs | repeat constructor]).
  - constructor; [reflexivity | exact Hlogs].
Qed.

Lemma scan_obj_inner (o : Source.t) (env : Env) :
  inner (fst (scan_obj o env)).
Proof.
  unfold scan_obj.
  destruct (_ >? _)%Z; [repeat constructor|].
  destruct (negb _); [repeat constructor|].
  destruct (Source.isExternal o); [repeat constructor|].
  pose proof (request_loop_inner (attempts env) o) as Hl.
  destruct (request_loop (attempts env) o) as [tr [o1 body|o1|o1]];
    cbn [fst] in *.
  - pose proof (read_phase_inner o1 body) as Hr.
    destruct (read_phase o1 body) as [tr2 o2].
    pose proof (save_phase_inner o2 body env) as Hs.
    destruct (save_phase o2 body env) as [tr3 r]. cbn [fst] in *.
    do 2 (constructor; [reflexivity|]).
    apply Forall_app. split; [exact Hl|].
    apply Forall_app. split; [repeat constructor|].
    apply Forall_app. auto.
  - do 2 (constructor; [reflexivity|]). exact Hl.
  - do 2 (constructor; [reflexivity|]). exact Hl.
Qed.

(** X25. The counter of tasks and the wait group stay balanced: a task
    on a URL raises [s.threads] by one and, when it returns, lowers it by
    one and calls [s.workers.Done()] once, whichever way it returns; while
    it waits for an answer the counter stays raised and [Done] is not
    called.  A task on a nil URL returns at once and lowers the counter
    without having raised it. *)
Theorem scan_counter_balance (h : Heap) (s : Sources.t) (url : option URL)
        (env : Env) (h' : Heap) (s' : Sources.t) (tr : list Event)
        (st : Status) :
  scan h s url env = (h', s', tr, st) ->
  (url = None ->
   st = Finished /\ threads_delta tr = (-1)%Z /\ dones tr = 1)
  /\ (url <> None ->
      (st = Finished -> threads_delta tr = 0%Z /\ dones tr = 1)
      /\ (st = Unfinished -> threads_delta tr = 1%Z /\ dones tr = 0)).
Proof.
  unfold scan. destruct url as [u|].
  2:{ intros [= <- <- <- <-]. split; [intros _; repeat split|].
      intros H. now contradiction H. }
  destruct (Add url_String url_Hostname seed h s u) as [[h1 s1] [p ok]].
  destruct ok; cbn [negb].
  2:{ intros [= <- <- <- <-]. split; [discriminate|]. intros _.
      split; [intros _; split; reflexivity | discriminate]. }
  destruct (h1 !! p) as [o|].
  2:{ intros [= <- <- <- <-]. split; [discriminate|]. intros _.
      split; discriminate. }
  pose proof (scan_obj_inner o env) as Ho.
  destruct (scan_obj o env) as [tr1 r]. cbn [fst] in Ho.
  apply body_events_quiet in Ho. destruct Ho as [Ht Hd].
  destruct r; intros [= <- <- <- <-]; (split; [discriminate|]); intros _;
    (split; [intros E | intros E]); try discriminate E;
    repeat (rewrite threads_delta_cons || rewrite threads_delta_app);
    repeat (rewrite dones_cons || rewrite dones_app);
    rewrite Ht, Hd; split; reflexivity.
Qed.
End CounterFacts.

Lemma scan_counter_balance_witness :
  let tr := snd (fst (example_scan 10 [] newSources (Some example_about)
                        (mkEnv [Response 404 0 "" false] false false))) in
  threads_delta tr = 0%Z /\ dones tr = 1.
Proof.
  intros tr.
  destruct (example_scan 10 [] newSources (Some example_about)
              (mkEnv [Response 404 0 "" false] false false))
    as [[[h' s'] tr'] st] eqn:HS.
  assert (Hst : st = Finished).
  { unfold example_scan in HS. vm_compute in HS. congruence. }
  subst tr. cbn [fst snd].
  destruct (scan_counter_balance ref_String ref_Hostname ref_Parse ref_Clean
              "/" ref_Split ref_Ext example_ExtensionsByType
              example_DetectContentType example_html_Parse
              example_readTXT_links example_seed example_dir 10
              [] newSources (Some example_about)
              (mkEnv [Response 404 0 "" false] false false)
              h' s' tr' st HS) as [_ H].
  destruct H as [H _]; [discriminate|]. exact (H Hst).
Defined.
